(** * api-leads: the secure lead-ingestion webhook

    A shallow embedding of the webhook of the api-leads repository and the
    proofs of its specification:

    - [lib/security]   (generateSignature, verifySignature, verifyTimestamp,
                        checkRateLimit),
    - [types/lead]     (LeadSchema, LeadDB),
    - [api/leads/webhook/route] (checkCORS, checkAPIKey, getCORSHeaders,
                        OPTIONS, POST),
    - [lib/lead-client] (generateHMAC, LeadClient.sendLead),
    - [lib/supabase]   (getSupabaseClient, the proxy supabase),
    - [api/health/route] (GET).

    Conventions of the embedding.

    - A JavaScript string is a [string]: one [ascii] per code unit, so the
      development covers the strings whose code units are below 256.  HTTP
      header values are such strings by construction (ByteString).  The
      candidate of the exported [verifySignature] is any string: it is also
      taken by its code units ([hex_decode_units]).
    - A JavaScript number that the webhook handles is an integer or NaN
      ([jsnum]); the numbers of a decoded JSON text are integers.  On
      integers the verdict of every comparison made by the code is the one
      of exact arithmetic: the instants are far below 2^53, and a timestamp
      beyond that range is refused by the double and by the integer alike.
    - What Node and zod do ([Buffer.from], [timingSafeEqual], [createHmac],
      [parseInt], [z.string()], ...) is modelled from their documentation;
      [JSON.parse] and the store are parameters of the handler.
    - A call that may throw returns a [completion]; [try]/[catch] is
      [try_catch].
    - [Date.now()] is an argument [now] of the function that reads it.
    - The module-level [Map] of the rate limiter is a [gmap] that is threaded
      through the calls. *)

From Stdlib Require Import ZArith List Ascii String Bool Lia.
From Stdlib Require Import Init.Byte.
From Stdlib Require Import DecimalString DecimalZ.
From Stdlib Require DecimalPos DecimalFacts.
From stdpp Require Import gmap strings.
Import ListNotations.

Local Open Scope Z_scope.

(** ** Completions: normal return or thrown error *)

Inductive completion (A : Type) : Type :=
| Return (a : A)
| Throw (msg : string).
Arguments Return {A} a.
Arguments Throw {A} msg.

Definition bind {A B} (c : completion A) (k : A -> completion B)
  : completion B :=
  match c with
  | Return a => k a
  | Throw e => Throw e
  end.

Definition try_catch {A} (c : completion A) (handler : string -> completion A)
  : completion A :=
  match c with
  | Return a => Return a
  | Throw e => handler e
  end.

Declare Scope completion_scope.
Delimit Scope completion_scope with completion.
Notation "'let*' x := c 'in' k" := (bind c (fun x => k))
  (at level 10, x name, c at level 100, k at level 200) : completion_scope.

(** ** JavaScript values used by the webhook *)

Inductive jsnum : Type :=
| JInt (z : Z)
| JNaN.

(** Truthiness of a string ([!s] is true for the empty string). *)
Definition truthy_string (s : string) : bool :=
  match s with
  | EmptyString => false
  | String _ _ => true
  end.

(** Truthiness of [string | null | undefined]. *)
Definition truthy (o : option string) : bool :=
  match o with
  | Some s => truthy_string s
  | None => false
  end.

(** [a || b] on [string | undefined]. *)
Definition or_else (a b : option string) : option string :=
  if truthy a then a else b.

(** [a || d] where [d] is a string literal. *)
Definition or_default (a : option string) (d : string) : string :=
  match a with
  | Some s => if truthy_string s then s else d
  | None => d
  end.

(** Truthiness of a number: [0] and [NaN] are falsy. *)
Definition truthy_num (n : jsnum) : bool :=
  match n with
  | JInt z => negb (z =? 0)
  | JNaN => false
  end.

(** ** Buffers and the hex encoding (Node's [Buffer], encoding ['hex']) *)

Definition Buffer : Type := list byte.

Definition byte_of_Z (z : Z) : byte :=
  byte_of_ascii (ascii_of_N (Z.to_N (z mod 256))).

Definition Z_of_byte (b : byte) : Z := Z.of_N (Byte.to_N b).

Definition Z_of_ascii (c : ascii) : Z := Z.of_N (N_of_ascii c).

Definition ascii_of_Z (z : Z) : ascii := ascii_of_N (Z.to_N z).

(** The digit written for a nibble by [digest('hex')]: lower case. *)
Definition hex_digit (n : Z) : ascii :=
  if n <? 10 then ascii_of_Z (48 + n) else ascii_of_Z (87 + n).

(** [buf.toString('hex')]. *)
Fixpoint hex_encode (b : Buffer) : string :=
  match b with
  | [] => EmptyString
  | x :: rest =>
      String (hex_digit (Z_of_byte x / 16))
             (String (hex_digit (Z_of_byte x mod 16)) (hex_encode rest))
  end.

(** Node's [unhex]: the value of a hex digit of either case, if it is one. *)
Definition unhex (c : ascii) : option Z :=
  let n := Z_of_ascii c in
  if (48 <=? n) && (n <=? 57) then Some (n - 48)
  else if (97 <=? n) && (n <=? 102) then Some (n - 87)
  else if (65 <=? n) && (n <=? 70) then Some (n - 55)
  else None.

(** [Buffer.from(s, 'hex')].  Node decodes the pairs of hex digits from the
    left and stops, without an error, at the first pair that is not two hex
    digits; a single trailing character is dropped.  Its documentation:
    data truncation may occur when decoding strings that do not exclusively
    consist of an even number of hexadecimal characters; the string 1ag123
    decodes to the one byte 1a, and so does 1a7.  The characters of a
    [string] are code units below 256, as those of a header value are. *)
Fixpoint hex_decode (s : string) : Buffer :=
  match s with
  | String a (String b rest) =>
      match unhex a, unhex b with
      | Some hi, Some lo => byte_of_Z (16 * hi + lo) :: hex_decode rest
      | _, _ => []
      end
  | _ => []
  end.

Definition byte_eqb (a b : byte) : bool := Byte.eqb a b.

Fixpoint buffer_eqb (a b : Buffer) : bool :=
  match a, b with
  | [], [] => true
  | x :: a', y :: b' => byte_eqb x y && buffer_eqb a' b'
  | _, _ => false
  end.

(** [crypto.timingSafeEqual]: throws on buffers of different lengths. *)
Definition timingSafeEqual (a b : Buffer) : completion bool :=
  if (length a =? length b)%nat then Return (buffer_eqb a b)
  else Throw "Input buffers must have the same byte length".

(** ** SHA-256 and HMAC (Node's [createHmac('sha256', key)]) *)

Module SHA256.

Definition w32 (x : Z) : Z := x mod 4294967296.
Definition add32 (x y : Z) : Z := w32 (x + y).
Definition rotr (n x : Z) : Z :=
  Z.lor (Z.shiftr x n) (w32 (Z.shiftl x (32 - n))).
Definition shr (n x : Z) : Z := Z.shiftr x n.
Definition not32 (x : Z) : Z := 4294967295 - x.

Definition Ch (x y z : Z) : Z := Z.lxor (Z.land x y) (Z.land (not32 x) z).
Definition Maj (x y z : Z) : Z :=
  Z.lxor (Z.lxor (Z.land x y) (Z.land x z)) (Z.land y z).
Definition Sigma0 (x : Z) : Z :=
  Z.lxor (Z.lxor (rotr 2 x) (rotr 13 x)) (rotr 22 x).
Definition Sigma1 (x : Z) : Z :=
  Z.lxor (Z.lxor (rotr 6 x) (rotr 11 x)) (rotr 25 x).
Definition sigma0 (x : Z) : Z :=
  Z.lxor (Z.lxor (rotr 7 x) (rotr 18 x)) (shr 3 x).
Definition sigma1 (x : Z) : Z :=
  Z.lxor (Z.lxor (rotr 17 x) (rotr 19 x)) (shr 10 x).

(** The constants of FIPS 180-4 (4.2.2, 5.3.3): the first 32 bits of the
    fractional parts of the cube roots of the first 64 primes, and of the
    square roots of the first 8. *)
Definition is_prime (n : Z) : bool :=
  (2 <=? n)
  && forallb (fun d => negb (n mod d =? 0))
             (map Z.of_nat (seq 2 (Z.to_nat n - 2))).

Definition primes (n : nat) : list Z :=
  firstn n (List.filter is_prime (map Z.of_nat (seq 2 400))).

(** The integer cube root, bit by bit from the bit [n - 1] down. *)
Fixpoint cube_root (n : nat) (x r : Z) : Z :=
  match n with
  | O => r
  | S n' =>
      let c := r + 2 ^ Z.of_nat n' in
      if c * c * c <=? x then cube_root n' x c else cube_root n' x r
  end.

Definition K : list Z :=
  Eval vm_compute in
    map (fun p => w32 (cube_root 40 (p * 2 ^ 96) 0)) (primes 64).

Definition H0 : list Z :=
  Eval vm_compute in map (fun p => w32 (Z.sqrt (p * 2 ^ 64))) (primes 8).

(** Big-endian bytes of a number, [n] of them. *)
Fixpoint be_bytes (n : nat) (x : Z) : list Z :=
  match n with
  | O => []
  | S n' => (x / 256 ^ Z.of_nat n') mod 256 :: be_bytes n' x
  end.

Fixpoint be_words (bs : list Z) : list Z :=
  match bs with
  | a :: b :: c :: d :: rest =>
      (((a * 256 + b) * 256 + c) * 256 + d) :: be_words rest
  | _ => []
  end.

(** Padding: the bit 1, zeros up to 56 modulo 64, the length in bits. *)
Definition pad (msg : list Z) : list Z :=
  let len := Z.of_nat (length msg) in
  let zeros := Z.to_nat ((55 - len) mod 64) in
  msg ++ 128 :: repeat 0 zeros ++ be_bytes 8 (8 * len).

(** The message schedule, most recent word first. *)
Fixpoint schedule (n : nat) (acc : list Z) : list Z :=
  match n with
  | O => acc
  | S n' =>
      let wt := add32 (add32 (sigma1 (nth 1 acc 0)) (nth 6 acc 0))
                      (add32 (sigma0 (nth 14 acc 0)) (nth 15 acc 0)) in
      schedule n' (wt :: acc)
  end.

Definition round (st : list Z) (kw : Z * Z) : list Z :=
  match st with
  | [a; b; c; d; e; f; g; h] =>
      let t1 := add32 (add32 (add32 h (Sigma1 e)) (add32 (Ch e f g) (fst kw)))
                      (snd kw) in
      let t2 := add32 (Sigma0 a) (Maj a b c) in
      [add32 t1 t2; a; b; c; add32 d t1; e; f; g]
  | _ => st
  end.

Fixpoint zip_add (xs ys : list Z) : list Z :=
  match xs, ys with
  | x :: xs', y :: ys' => add32 x y :: zip_add xs' ys'
  | _, _ => []
  end.

Definition compress (h : list Z) (block : list Z) : list Z :=
  let ws := rev (schedule 48 (rev (be_words block))) in
  zip_add h (fold_left round (combine K ws) h).

Fixpoint blocks (n : nat) (h : list Z) (bs : list Z) : list Z :=
  match n with
  | O => h
  | S n' => blocks n' (compress h (firstn 64 bs)) (skipn 64 bs)
  end.

Definition digest (msg : list Z) : list Z :=
  let padded := pad msg in
  let h := blocks (length padded / 64) H0 padded in
  flat_map (be_bytes 4) h.

Definition block_size : Z := 64.

(** HMAC (RFC 2104) over SHA-256. *)
Definition hmac (key msg : list Z) : list Z :=
  let k0 := if block_size <? Z.of_nat (length key) then digest key else key in
  let k := k0 ++ repeat 0 (64 - length k0)%nat in
  let ipad := map (Z.lxor 0x36) k in
  let opad := map (Z.lxor 0x5c) k in
  digest (opad ++ digest (ipad ++ msg)).

End SHA256.

(** The UTF-8 bytes of a string whose code units are below 256. *)
Fixpoint utf8 (s : string) : list Z :=
  match s with
  | EmptyString => []
  | String c rest =>
      let n := Z_of_ascii c in
      if n <? 128 then n :: utf8 rest
      else (192 + n / 64) :: (128 + n mod 64) :: utf8 rest
  end.

(** [createHmac('sha256', key).update(payload).digest()]. *)
Definition hmac_sha256 (key payload : string) : Buffer :=
  map byte_of_Z (SHA256.hmac (utf8 key) (utf8 payload)).

(** ** lib/security *)

(** The part of [process.env] that the webhook reads. *)
Record Env : Type := {
  WEBHOOK_SECRET : option string;
  ALLOWED_ORIGINS_var : option string;
  API_KEYS_var : option string
}.

Open Scope completion_scope.

Definition getWebhookSecret (env : Env) : completion string :=
  match WEBHOOK_SECRET env with
  | Some secret =>
      if truthy_string secret then Return secret
      else Throw "WEBHOOK_SECRET environment variable is not set"
  | None => Throw "WEBHOOK_SECRET environment variable is not set"
  end.

(** [secret || getWebhookSecret()] *)
Definition secret_or_env (env : Env) (secret : option string) : completion string :=
  match secret with
  | Some s => if truthy_string s then Return s else getWebhookSecret env
  | None => getWebhookSecret env
  end.

Definition generateSignature (env : Env) (payload : string) (secret : option string)
  : completion string :=
  let* secretKey := secret_or_env env secret in
  Return (hex_encode (hmac_sha256 secretKey payload)).

Definition verifySignature (env : Env) (payload signature : string)
    (secret : option string) : completion bool :=
  let* secretKey := secret_or_env env secret in
  let* expectedSignature := generateSignature env payload (Some secretKey) in
  try_catch
    (let signatureBuffer := hex_decode signature in
     let expectedBuffer := hex_decode expectedSignature in
     if negb (length signatureBuffer =? length expectedBuffer)%nat
     then Return false
     else timingSafeEqual signatureBuffer expectedBuffer)
    (fun _ => Return false).

Definition fiveMinutes : Z := 5 * 60 * 1000.

(** [verifyTimestamp]: [Math.abs(now - NaN)] is NaN and [NaN < x] is false. *)
Definition verifyTimestamp (now : Z) (timestamp : jsnum) : bool :=
  match timestamp with
  | JInt t => Z.abs (now - t) <? fiveMinutes
  | JNaN => false
  end.

(** The in-memory counters: [requestCounts] maps an identifier to its record. *)
Record RateRecord : Type := {
  count : Z;
  resetAt : Z
}.

(** The defaults of the parameters [limit] and [windowMs]. *)
Definition default_limit : Z := 10.
Definition default_windowMs : Z := 60000.

(** [checkRateLimit(identifier, limit, windowMs)] at the instant [now], its
    two last arguments given.  [record.count++] updates the record that the
    map holds. *)
Definition checkRateLimit (now : Z) (identifier : string) (limit windowMs : Z)
    (requestCounts : gmap string RateRecord) : bool * gmap string RateRecord :=
  let fresh_record := {| count := 1; resetAt := now + windowMs |} in
  match requestCounts !! identifier with
  | None => (true, <[identifier := fresh_record]> requestCounts)
  | Some record =>
      if now >? resetAt record
      then (true, <[identifier := fresh_record]> requestCounts)
      else if count record >=? limit
      then (false, requestCounts)
      else (true, <[identifier := {| count := count record + 1;
                                     resetAt := resetAt record |}]> requestCounts)
  end.

(** ** Decoded JSON *)

#[local] Set Warnings "-register-all".

Inductive JSON : Type :=
| JNull
| JBool (b : bool)
| JNumber (n : Z)
| JString (s : string)
| JArray (items : list JSON)
| JObject (fields : list (string * JSON)).

(** [data[key]]: [None] is [undefined].  The keys of a decoded object are
    distinct; the first binding of a key is the one that is read. *)
Fixpoint property (key : string) (fields : list (string * JSON)) : option JSON :=
  match fields with
  | [] => None
  | (k, v) :: rest => if String.eqb k key then Some v else property key rest
  end.

(** ** Regular expressions, for zod's e-mail check *)

Module Regex.

Inductive re : Type :=
| Empty                       (* matches nothing *)
| Eps                         (* the empty word *)
| Class (p : ascii -> bool)   (* one character of a class *)
| Seq (r1 r2 : re)
| Alt (r1 r2 : re)
| Star (r : re).

Definition Plus (r : re) : re := Seq r (Star r).

Fixpoint nullable (r : re) : bool :=
  match r with
  | Empty => false
  | Eps => true
  | Class _ => false
  | Seq r1 r2 => nullable r1 && nullable r2
  | Alt r1 r2 => nullable r1 || nullable r2
  | Star _ => true
  end.

(** Brzozowski derivative. *)
Fixpoint deriv (c : ascii) (r : re) : re :=
  match r with
  | Empty => Empty
  | Eps => Empty
  | Class p => if p c then Eps else Empty
  | Seq r1 r2 =>
      if nullable r1 then Alt (Seq (deriv c r1) r2) (deriv c r2)
      else Seq (deriv c r1) r2
  | Alt r1 r2 => Alt (deriv c r1) (deriv c r2)
  | Star r1 => Seq (deriv c r1) (Star r1)
  end.

(** Smart constructors keep the derivatives small. *)
Definition mkSeq (r1 r2 : re) : re :=
  match r1, r2 with
  | Empty, _ => Empty
  | _, Empty => Empty
  | Eps, _ => r2
  | _, _ => Seq r1 r2
  end.

Definition mkAlt (r1 r2 : re) : re :=
  match r1, r2 with
  | Empty, _ => r2
  | _, Empty => r1
  | _, _ => Alt r1 r2
  end.

Fixpoint simp (r : re) : re :=
  match r with
  | Seq r1 r2 => mkSeq (simp r1) (simp r2)
  | Alt r1 r2 => mkAlt (simp r1) (simp r2)
  | _ => r
  end.

(** Anchored match of the whole string: [/^r$/.test(s)]. *)
Fixpoint matches (r : re) (s : string) : bool :=
  match s with
  | EmptyString => nullable r
  | String c rest => matches (simp (deriv c r)) rest
  end.

(** The words of a regular expression. *)
Inductive Matches : re -> string -> Prop :=
| MEps : Matches Eps EmptyString
| MClass p c : p c = true -> Matches (Class p) (String c EmptyString)
| MSeq r1 r2 s1 s2 :
    Matches r1 s1 -> Matches r2 s2 -> Matches (Seq r1 r2) (s1 +:+ s2)
| MAltL r1 r2 s : Matches r1 s -> Matches (Alt r1 r2) s
| MAltR r1 r2 s : Matches r2 s -> Matches (Alt r1 r2) s
| MStar0 r : Matches (Star r) EmptyString
| MStarS r s1 s2 :
    Matches r s1 -> Matches (Star r) s2 -> Matches (Star r) (s1 +:+ s2).

End Regex.

Definition in_range (lo hi : Z) (c : ascii) : bool :=
  (lo <=? Z_of_ascii c) && (Z_of_ascii c <=? hi).

Definition is_char (x : ascii) (c : ascii) : bool := Ascii.eqb x c.

Definition is_digit (c : ascii) : bool := in_range 48 57 c.
Definition is_alpha (c : ascii) : bool := in_range 65 90 c || in_range 97 122 c.
Definition is_alnum (c : ascii) : bool := is_alpha c || is_digit c.

(** [.] of a regular expression: any character but a line terminator. *)
Definition not_newline (c : ascii) : bool :=
  negb (is_char "010" c || is_char "013" c).

Definition any_char (c : ascii) : bool := true.

(** The [emailRegex] of zod 3, which [z.string().email()] tests.  It is
    anchored at both ends and case-insensitive, and reads, in order:
    not followed by a dot; not followed by two adjacent dots on the line;
    any number of characters of [A-Z 0-9 _ ' + - .]; one character of
    [A-Z 0-9 _ + -]; an at sign; one or more labels, each a character of
    [A-Z 0-9], any number of [A-Z 0-9 -] and a dot; two or more letters. *)
Definition email_local_char (c : ascii) : bool :=
  is_alnum c || is_char "_" c || is_char "'" c || is_char "+" c
  || is_char "-" c || is_char "." c.

Definition email_local_last (c : ascii) : bool :=
  is_alnum c || is_char "_" c || is_char "+" c || is_char "-" c.

Definition email_label_char (c : ascii) : bool := is_alnum c || is_char "-" c.

Definition email_body : Regex.re :=
  Regex.Seq (Regex.Star (Regex.Class email_local_char))
  (Regex.Seq (Regex.Class email_local_last)
  (Regex.Seq (Regex.Class (is_char "@"))
  (Regex.Seq (Regex.Plus
                (Regex.Seq (Regex.Class is_alnum)
                (Regex.Seq (Regex.Star (Regex.Class email_label_char))
                           (Regex.Class (is_char ".")))))
  (Regex.Seq (Regex.Class is_alpha)
  (Regex.Seq (Regex.Class is_alpha) (Regex.Star (Regex.Class is_alpha))))))).

(** [(?!\.)] at the start: the lookahead [\.] followed by anything. *)
Definition email_leading_dot : Regex.re :=
  Regex.Seq (Regex.Class (is_char ".")) (Regex.Star (Regex.Class any_char)).

(** [(?!.*\.\.)] at the start: the lookahead [.*\.\.] followed by anything. *)
Definition email_double_dot : Regex.re :=
  Regex.Seq (Regex.Star (Regex.Class not_newline))
  (Regex.Seq (Regex.Class (is_char "."))
  (Regex.Seq (Regex.Class (is_char "."))
             (Regex.Star (Regex.Class any_char)))).

Definition emailRegex_test (s : string) : bool :=
  negb (Regex.matches email_leading_dot s)
  && negb (Regex.matches email_double_dot s)
  && Regex.matches email_body s.

(** ** zod: the parsers that [LeadSchema] is built from *)

Module Zod.

Record ZodIssue : Type := {
  path : list string;
  message : string
}.

(** What a parser returns: [INVALID] (status aborted) or a value with the
    status valid ([OK false]) or dirty ([OK true]).  The issues are collected
    on the side, as zod does in the parse context. *)
Inductive ParseReturn (A : Type) : Type :=
| INVALID
| OK (is_dirty : bool) (value : A).
Arguments INVALID {A}.
Arguments OK {A} is_dirty value.

Definition Parsed (A : Type) : Type := ParseReturn A * list ZodIssue.

(** zod's [getParsedType], as printed in messages. *)
Definition parsedType (v : JSON) : string :=
  match v with
  | JNull => "null"
  | JBool _ => "boolean"
  | JNumber _ => "number"
  | JString _ => "string"
  | JArray _ => "array"
  | JObject _ => "object"
  end.

(** The issue [invalid_type] with the message of zod's default error map. *)
Definition invalid_type (expected : string) (at_path : list string)
    (input : option JSON) : ZodIssue :=
  {| path := at_path;
     message := match input with
                | None => "Required"
                | Some v => "Expected " +:+ expected +:+ ", received "
                            +:+ parsedType v
                end |}.

Inductive StringCheck : Type :=
| Min (value : nat) (msg : string)
| Email (msg : string).

Definition run_check (at_path : list string) (data : string) (c : StringCheck)
  : list ZodIssue :=
  match c with
  | Min value msg =>
      if (String.length data <? value)%nat
      then [{| path := at_path; message := msg |}] else []
  | Email msg =>
      if negb (emailRegex_test data)
      then [{| path := at_path; message := msg |}] else []
  end.

Definition is_nil {A} (l : list A) : bool :=
  match l with [] => true | _ => false end.

(** [z.string()] with its checks: a value of another type aborts; a failed
    check adds an issue and makes the result dirty. *)
Definition zString (checks : list StringCheck) (at_path : list string)
    (input : option JSON) : Parsed string :=
  match input with
  | Some (JString data) =>
      let issues := flat_map (run_check at_path data) checks in
      (OK (negb (is_nil issues)) data, issues)
  | _ => (INVALID, [invalid_type "string" at_path input])
  end.

(** [z.number()]. *)
Definition zNumber (at_path : list string) (input : option JSON) : Parsed jsnum :=
  match input with
  | Some (JNumber n) => (OK false (JInt n), [])
  | _ => (INVALID, [invalid_type "number" at_path input])
  end.

(** [schema.optional()]: [undefined] is accepted as it is. *)
Definition zOptional {A} (inner : list string -> option JSON -> Parsed A)
    (at_path : list string) (input : option JSON) : Parsed (option A) :=
  match input with
  | None => (OK false None, [])
  | Some _ =>
      match inner at_path input with
      | (OK d v, issues) => (OK d (Some v), issues)
      | (INVALID, issues) => (INVALID, issues)
      end
  end.

(** One more key of a [z.object]: every key is parsed and its issues are
    kept; the object is [INVALID] as soon as one key is. *)
Definition with_key {A B} (acc : Parsed (A -> B)) (field : Parsed A) : Parsed B :=
  match acc, field with
  | (OK d1 f, i1), (OK d2 a, i2) => (OK (d1 || d2) (f a), i1 ++ i2)
  | (_, i1), (_, i2) => (INVALID, i1 ++ i2)
  end.

(** [schema.refine(check, issue)]: the check runs unless the inner parse
    aborted; when it fails the issue is added and the result is dirty. *)
Definition refine {A} (inner : Parsed A) (check : A -> bool) (issue : ZodIssue)
  : Parsed A :=
  match inner with
  | (INVALID, issues) => (INVALID, issues)
  | (OK d v, issues) =>
      if check v then (OK d v, issues) else (OK true v, issues ++ [issue])
  end.

Inductive SafeParseReturn (A : Type) : Type :=
| success (data : A)
| failure (errors : list ZodIssue).
Arguments success {A} data.
Arguments failure {A} errors.

Definition safeParse {A} (r : Parsed A) : SafeParseReturn A :=
  match r with
  | (OK false v, _) => success v
  | (_, issues) => failure issues
  end.

End Zod.

Import Zod.

(** ** types/lead *)

(** The two accented letters of the messages, as single code units. *)
Definition a_acute : string := String (ascii_of_Z 225) EmptyString.
Definition e_acute : string := String (ascii_of_Z 233) EmptyString.

(** [LeadInput], the type that [LeadSchema] infers. *)
Record LeadInput : Type := {
  name : string;
  email : option string;
  phone : option string;
  city : option string;
  street : option string;
  message : option string;
  notes : option string;
  source : option string;
  utmSource : option string;
  utmMedium : option string;
  utmCampaign : option string;
  utmTerm : option string;
  utmContent : option string;
  timestamp : option jsnum
}.

Definition optional_string := zOptional (zString []).

(** The [z.object({...})] of [LeadSchema], its keys in the order of the
    source.  Keys that the shape does not name are stripped. *)
Definition LeadSchema_object (data : JSON) : Parsed LeadInput :=
  match data with
  | JObject fields =>
      let key k := property k fields in
      with_key (with_key (with_key (with_key (with_key (with_key (with_key
      (with_key (with_key (with_key (with_key (with_key (with_key (with_key
        (OK false Build_LeadInput, [])
        (zString [Min 2 "El nombre debe tener al menos 2 caracteres"]
                 ["name"] (key "name")))
        (zOptional (zString [Email ("Email inv" +:+ a_acute +:+ "lido")])
                   ["email"] (key "email")))
        (zOptional (zString [Min 9 ("Tel" +:+ e_acute +:+ "fono inv" +:+ a_acute
                                    +:+ "lido")])
                   ["phone"] (key "phone")))
        (optional_string ["city"] (key "city")))
        (optional_string ["street"] (key "street")))
        (optional_string ["message"] (key "message")))
        (optional_string ["notes"] (key "notes")))
        (optional_string ["source"] (key "source")))
        (optional_string ["utmSource"] (key "utmSource")))
        (optional_string ["utmMedium"] (key "utmMedium")))
        (optional_string ["utmCampaign"] (key "utmCampaign")))
        (optional_string ["utmTerm"] (key "utmTerm")))
        (optional_string ["utmContent"] (key "utmContent")))
        (zOptional zNumber ["timestamp"] (key "timestamp"))
  | _ => (INVALID, [invalid_type "object" [] (Some data)])
  end.

(** The refinement [(data) => data.email || data.phone]. *)
Definition has_contact (data : LeadInput) : bool :=
  truthy (or_else (email data) (phone data)).

Definition contact_issue : ZodIssue :=
  {| path := ["email"];
     Zod.message :=
       "Debe proporcionar al menos email o tel" +:+ e_acute +:+ "fono" |}.

Definition LeadSchema (data : JSON) : Parsed LeadInput :=
  refine (LeadSchema_object data) has_contact contact_issue.

(** [LeadSchema.safeParse(data)]. *)
Definition LeadSchema_safeParse (data : JSON) : SafeParseReturn LeadInput :=
  safeParse (LeadSchema data).

(** [LeadDB], the record that is handed to the store. *)
Record Metadata : Type := {
  utm_source : option string;
  utm_medium : option string;
  utm_campaign : option string;
  utm_term : option string;
  utm_content : option string;
  ip_address : string;
  user_agent : option string;
  form_timestamp : jsnum;
  received_at : string
}.

Record LeadDB : Type := {
  db_name : string;
  db_email : option string;
  db_phone : option string;
  db_city : option string;
  db_street : option string;
  db_notes : option string;
  db_status : string;
  db_priority : string;
  db_source : string;
  db_metadata : Metadata
}.

(** ** api/leads/webhook/route *)

(** [s.split(',')]: the pieces between the commas; the empty string splits
    into one empty piece. *)
Fixpoint split_comma (s : string) : list string :=
  match s with
  | EmptyString => [EmptyString]
  | String c rest =>
      if is_char "," c then EmptyString :: split_comma rest
      else match split_comma rest with
           | piece :: pieces => String c piece :: pieces
           | [] => [String c EmptyString]
           end
  end.

Fixpoint starts_with (p s : string) : bool :=
  match p, s with
  | EmptyString, _ => true
  | String a p', String b s' => Ascii.eqb a b && starts_with p' s'
  | String _ _, EmptyString => false
  end.

(** [s.includes(sub)]: [sub] occurs in [s]. *)
Fixpoint includes (s sub : string) : bool :=
  starts_with sub s
  || match s with
     | EmptyString => false
     | String _ rest => includes rest sub
     end.

(** [parseInt(s, 10)]: leading white space, an optional sign, then the
    longest run of decimal digits; NaN when there is no digit.  The value
    is that of the code when it is a safe integer, at most 2^53 in absolute
    value; beyond, the code rounds it to a double, which leaves the verdict
    of the freshness gate as it is. *)
Definition is_white_space (c : ascii) : bool :=
  in_range 9 13 c || is_char " " c || in_range 160 160 c.

Fixpoint trim_start (s : string) : string :=
  match s with
  | String c rest => if is_white_space c then trim_start rest else s
  | EmptyString => EmptyString
  end.

Fixpoint digits_value (acc : Z) (s : string) : Z :=
  match s with
  | String c rest =>
      if is_digit c then digits_value (10 * acc + (Z_of_ascii c - 48)) rest
      else acc
  | EmptyString => acc
  end.

Definition starts_with_digit (s : string) : bool :=
  match s with
  | String c _ => is_digit c
  | EmptyString => false
  end.

Definition parseInt (s : string) : jsnum :=
  let s1 := trim_start s in
  let '(sign, s2) :=
    match s1 with
    | String c rest =>
        if is_char "-" c then (-1, rest)
        else if is_char "+" c then (1, rest)
        else (1, s1)
    | EmptyString => (1, s1)
    end in
  if starts_with_digit s2 then JInt (sign * digits_value 0 s2) else JNaN.

(** What [parseInt] reads the digits from: the text after the leading white
    space and one sign. *)
Definition after_sign (s : string) : string :=
  match trim_start s with
  | String c rest => if is_char "-" c || is_char "+" c then rest
                     else String c rest
  | EmptyString => EmptyString
  end.

(** The request as the handler reads it: its headers, under their
    lower-case names, and the text of its body. *)
Record Request : Type := {
  req_headers : gmap string string;
  req_text : string
}.

Definition headers_get (req : Request) (header : string) : option string :=
  req_headers req !! header.

(** The request with the header [header] set to [value]. *)
Definition with_header (req : Request) (header value : string) : Request :=
  {| req_headers := <[header := value]> (req_headers req);
     req_text := req_text req |}.

Record CORSHeaders : Type := {
  Access_Control_Allow_Origin : string;
  Access_Control_Allow_Methods : string;
  Access_Control_Allow_Headers : string;
  Access_Control_Max_Age : string
}.

Inductive ResponseBody : Type :=
| EmptyObject
| ErrorBody (error : string)
| ErrorDetails (error : string) (details : string)
| ValidationErrors (error : string) (details : list ZodIssue)
| Created (leadId : string) (msg : string).

Record Response : Type := {
  status : Z;
  headers : CORSHeaders;
  json : ResponseBody
}.

(** What [supabase.from('leads').insert(leadDB).select().single()] gives:
    the row, an error, or an exception of the client. *)
Inductive StoreReply : Type :=
| Inserted (id : string)
| StoreError (msg : string)
| StoreThrows (msg : string).

(** The state that a request can change: the counters of the rate limiter
    and the records handed to the store. *)
Record World : Type := {
  requestCounts : gmap string RateRecord;
  store_calls : list LeadDB
}.

(** The readings of the clock during one request. *)
Record Clock : Type := {
  now_rate : Z;          (* [Date.now()] in checkRateLimit *)
  now_fresh : Z;         (* [Date.now()] in verifyTimestamp *)
  now_iso : string       (* [new Date().toISOString()] *)
}.

Section Route.

Variable env : Env.
(** [JSON.parse]: [None] when it throws a SyntaxError. *)
Variable JSON_parse : string -> option JSON.
(** The reply of the store to an insert. *)
Variable supabase_insert : LeadDB -> StoreReply.

Definition ALLOWED_ORIGINS : list string :=
  List.filter truthy_string
    (split_comma (or_default (ALLOWED_ORIGINS_var env) "")).

Definition VALID_API_KEYS : list string :=
  List.filter truthy_string
    (split_comma (or_default (API_KEYS_var env) "")).

Definition checkCORS (origin : option string) : bool :=
  match origin with
  | None => false
  | Some o =>
      if negb (truthy_string o) then false
      else existsb (fun allowed => includes o allowed) ALLOWED_ORIGINS
  end.

Definition checkAPIKey (apiKey : option string) : bool :=
  match apiKey with
  | None => false
  | Some k =>
      if negb (truthy_string k) then false
      else existsb (String.eqb k) VALID_API_KEYS
  end.

Definition getCORSHeaders (origin : option string) : CORSHeaders :=
  {| Access_Control_Allow_Origin := or_default origin "*";
     Access_Control_Allow_Methods := "POST, OPTIONS";
     Access_Control_Allow_Headers :=
       "Content-Type, X-API-Key, X-Signature, X-Timestamp";
     Access_Control_Max_Age := "86400" |}.

Definition OPTIONS (req : Request) : Response :=
  let origin := headers_get req "origin" in
  {| status := 200; headers := getCORSHeaders origin; json := EmptyObject |}.

(** [x-forwarded-for || x-real-ip || 'unknown'] *)
Definition client_ip (req : Request) : string :=
  or_default (or_else (headers_get req "x-forwarded-for")
                      (headers_get req "x-real-ip")) "unknown".

(** Step 7 of [POST]: the record for the store. *)
Definition make_leadDB (validatedLead : LeadInput) (origin : option string)
    (ip : string) (userAgent : option string) (timestampNum : jsnum)
    (receivedAt : string) : LeadDB :=
  {| db_name := name validatedLead;
     db_email := email validatedLead;
     db_phone := phone validatedLead;
     db_city := city validatedLead;
     db_street := street validatedLead;
     db_notes := or_else (message validatedLead) (notes validatedLead);
     db_status := "Recibido";
     db_priority := "media";
     db_source :=
       or_default (or_else (source validatedLead) origin) "api-webhook";
     db_metadata :=
       {| utm_source := utmSource validatedLead;
          utm_medium := utmMedium validatedLead;
          utm_campaign := utmCampaign validatedLead;
          utm_term := utmTerm validatedLead;
          utm_content := utmContent validatedLead;
          ip_address := ip;
          user_agent := or_else userAgent None;
          form_timestamp :=
            match timestamp validatedLead with
            | Some t => if truthy_num t then t else timestampNum
            | None => timestampNum
            end;
          received_at := receivedAt |} |}.

(** The [try] block of [POST].  The world is threaded apart from the
    completion: what the handler changed before an exception stays. *)
Definition POST_try (clock : Clock) (req : Request) (w : World)
  : completion Response * World :=
  let origin := headers_get req "origin" in
  let corsHeaders := getCORSHeaders origin in
  let respond st body :=
    Return {| status := st; headers := corsHeaders; json := body |} in
  (* 1. CORS *)
  if negb (checkCORS origin)
  then (respond 403 (ErrorBody "Origin not allowed"), w) else
  (* 2. API key *)
  let apiKey := headers_get req "x-api-key" in
  if negb (checkAPIKey apiKey)
  then (respond 401 (ErrorBody "Invalid API Key"), w) else
  (* 3. rate limiting, by IP *)
  let ip := client_ip req in
  let '(allowed, counts) :=
    checkRateLimit (now_rate clock) ip 20 60000 (requestCounts w) in
  let w := {| requestCounts := counts; store_calls := store_calls w |} in
  if negb allowed
  then (respond 429 (ErrorBody "Too many requests"), w) else
  (* 4. body *)
  let bodyText := req_text req in
  if negb (truthy_string bodyText)
  then (respond 400 (ErrorBody "Empty body"), w) else
  (* 5. signature and timestamp *)
  let signature := headers_get req "x-signature" in
  let timestamp := headers_get req "x-timestamp" in
  match signature, timestamp with
  | Some signature, Some timestamp =>
      if negb (truthy_string signature) || negb (truthy_string timestamp)
      then (respond 401 (ErrorBody "Missing security headers"), w) else
      let timestampNum := parseInt timestamp in
      if negb (verifyTimestamp (now_fresh clock) timestampNum)
      then (respond 401 (ErrorBody "Request expired"), w) else
      match verifySignature env bodyText signature None with
      | Throw e => (Throw e, w)
      | Return false => (respond 401 (ErrorBody "Invalid signature"), w)
      | Return true =>
          (* 6. parse and validate *)
          match JSON_parse bodyText with
          | None => (respond 400 (ErrorBody "Invalid JSON"), w)
          | Some leadData =>
              match LeadSchema_safeParse leadData with
              | failure errors =>
                  (respond 400 (ValidationErrors "Validation failed" errors), w)
              | success validatedLead =>
                  (* 7. the record *)
                  let leadDB :=
                    make_leadDB validatedLead origin ip
                      (headers_get req "user-agent") timestampNum
                      (now_iso clock) in
                  (* 8. the store *)
                  let w := {| requestCounts := requestCounts w;
                              store_calls := store_calls w ++ [leadDB] |} in
                  match supabase_insert leadDB with
                  | StoreThrows e => (Throw e, w)
                  | StoreError e =>
                      (respond 500 (ErrorDetails "Database error" e), w)
                  | Inserted id =>
                      (respond 201 (Created id "Lead received successfully"), w)
                  end
              end
          end
      end
  | _, _ => (respond 401 (ErrorBody "Missing security headers"), w)
  end.

(** [POST]: the [try] block and its [catch]. *)
Definition POST (clock : Clock) (req : Request) (w : World) : Response * World :=
  let origin := headers_get req "origin" in
  let corsHeaders := getCORSHeaders origin in
  match POST_try clock req w with
  | (Return response, w') => (response, w')
  | (Throw e, w') =>
      ({| status := 500; headers := corsHeaders;
          json := ErrorDetails "Internal server error" e |}, w')
  end.

End Route.

(** ** The expressions and the sample data of the statements *)

(** [verifySignature(P, generateSignature(P, K), K)]. *)
Definition sign_then_verify (env : Env) (payload : string)
    (secret : option string) : completion bool :=
  let* signature := generateSignature env payload secret in
  verifySignature env payload signature secret.

(** An environment in which no variable is set. *)
Definition no_env : Env :=
  {| WEBHOOK_SECRET := None; ALLOWED_ORIGINS_var := None; API_KEYS_var := None |}.

(** The signature of the body [{}] under the secret [key]. *)
Definition signature_of_empty_object : string :=
  "a777724d943eb48dc69bca8a4a6d57a04db3f9ec7e1de4e581e860265bdf3032".

(** A call of [checkRateLimit]: its instant, identifier and window.  The
    calls of a sequence share the limit. *)
Record Call : Type := {
  call_now : Z;
  call_id : string;
  call_window : Z
}.

(** The calls of a sequence, one after the other: the verdicts and the
    counters that are left. *)
Fixpoint run_calls (limit : Z) (calls : list Call) (m : gmap string RateRecord)
  : list bool * gmap string RateRecord :=
  match calls with
  | [] => ([], m)
  | c :: rest =>
      let '(b, m1) :=
        checkRateLimit (call_now c) (call_id c) limit (call_window c) m in
      let '(bs, m2) := run_calls limit rest m1 in
      (b :: bs, m2)
  end.

Definition calls_by (id : string) (calls : list Call) : list Call :=
  List.filter (fun c => String.eqb (call_id c) id) calls.

(** The verdicts given to the calls of one identifier. *)
Definition verdicts_of (id : string) (calls : list Call) (verdicts : list bool)
  : list bool :=
  map snd (List.filter (fun cb => String.eqb (call_id (fst cb)) id)
                       (combine calls verdicts)).

(** [!record || now > record.resetAt]: the call opens a window. *)
Definition opens_window (now : Z) (record : option RateRecord) : bool :=
  match record with
  | None => true
  | Some r => now >? resetAt r
  end.

(** The response of a rejection. *)
Definition rejection (req : Request) (st : Z) (body : ResponseBody) : Response :=
  {| status := st; headers := getCORSHeaders (headers_get req "origin");
     json := body |}.

(** The request passes the gates 1 to 5 of [POST] (origin, API key, rate
    limit, body, security headers): [counts] are the counters that the rate
    limiter leaves, [signature] and [timestamp] the two headers. *)
Definition reaches_freshness (env : Env) (clock : Clock) (req : Request)
    (w : World) (counts : gmap string RateRecord) (signature timestamp : string)
  : Prop :=
  checkCORS env (headers_get req "origin") = true
  /\ checkAPIKey env (headers_get req "x-api-key") = true
  /\ checkRateLimit (now_rate clock) (client_ip req) 20 60000 (requestCounts w)
     = (true, counts)
  /\ truthy_string (req_text req) = true
  /\ headers_get req "x-signature" = Some signature
  /\ truthy_string signature = true
  /\ headers_get req "x-timestamp" = Some timestamp
  /\ truthy_string timestamp = true.

(** The value of a parse that raised no issue. *)
Definition clean_value {A} (p : Parsed A) : option A :=
  match p with
  | (OK false v, _) => Some v
  | _ => None
  end.

(** The keys of [LeadSchema] that are plain optional strings. *)
Definition plain_string_keys : list string :=
  ["city"; "street"; "message"; "notes"; "source"; "utmSource"; "utmMedium";
   "utmCampaign"; "utmTerm"; "utmContent"].

(** The string under a key of the payload, if there is one. *)
Definition payload_string (key : string) (fields : list (string * JSON))
  : option string :=
  match property key fields with
  | Some (JString s) => Some s
  | _ => None
  end.

(** *** A sample deployment and sample requests *)

Definition sample_env : Env :=
  {| WEBHOOK_SECRET := Some "key";
     ALLOWED_ORIGINS_var := Some "example.com";
     API_KEYS_var := Some "client:k1" |}.

(** The same deployment without its secret. *)
Definition env_without_secret : Env :=
  {| WEBHOOK_SECRET := None;
     ALLOWED_ORIGINS_var := Some "example.com";
     API_KEYS_var := Some "client:k1" |}.

Definition sample_clock : Clock :=
  {| now_rate := 1700000000000;
     now_fresh := 1700000000000;
     now_iso := "2023-11-14T22:13:20.000Z" |}.

Definition sample_request (signature timestamp body : string) : Request :=
  {| req_headers :=
       <["origin" := "https://app.example.com"]>
         (<["x-api-key" := "client:k1"]>
            (<["x-signature" := signature]>
               (<["x-timestamp" := timestamp]> ∅)));
     req_text := body |}.

Definition empty_world : World := {| requestCounts := ∅; store_calls := [] |}.

(** The counters after the first request of an unattributed caller. *)
Definition first_counts : gmap string RateRecord :=
  <["unknown" := {| count := 1; resetAt := 1700000060000 |}]> ∅.

Definition dq : string := String (ascii_of_Z 34) EmptyString.

Definition json_member (key value : string) : string :=
  dq +:+ key +:+ dq +:+ ":" +:+ dq +:+ value +:+ dq.

(** A body with both a message and notes, and what it decodes to. *)
Definition sample_body : string :=
  "{" +:+ json_member "name" "Alice" +:+ "," +:+ json_member "email" "a@b.com"
  +:+ "," +:+ json_member "message" "call me" +:+ ","
  +:+ json_member "notes" "vip" +:+ "}".

Definition sample_fields : list (string * JSON) :=
  [("name", JString "Alice"); ("email", JString "a@b.com");
   ("message", JString "call me"); ("notes", JString "vip")].

Definition sample_signature : string :=
  "010b7bf72eeaa03678531d7d105c014d971580c2281496980166125f1db232fd".

(** A decoder that knows the sample body. *)
Definition sample_parse (text : string) : option JSON :=
  if String.eqb text sample_body then Some (JObject sample_fields) else None.

Definition sample_store (record : LeadDB) : StoreReply := Inserted "lead-1".

(** A payload for which the conditions on name, e-mail and phone hold, with
    a city that is not a string. *)
Definition mistyped_city : list (string * JSON) :=
  [("name", JString "Alice"); ("email", JString "a@b.com"); ("city", JNumber 5)].

(** Calls of the caller [10.0.0.1] and of another one, window 60000 ms. *)
Definition call_at (t : Z) : Call :=
  {| call_now := t; call_id := "10.0.0.1"; call_window := 60000 |}.

Definition other_call_at (t : Z) : Call :=
  {| call_now := t; call_id := "10.0.0.2"; call_window := 60000 |}.

(** * More of the code *)

(** ** Hex strings *)

(** A digit as [digest('hex')] writes it. *)
Definition is_lower_hex (c : ascii) : bool :=
  in_range 48 57 c || in_range 97 102 c.

(** A hex digit of either case, as [Buffer.from] reads it. *)
Definition is_hex (c : ascii) : bool :=
  is_lower_hex c || in_range 65 70 c.

Fixpoint all_chars (p : ascii -> bool) (s : string) : bool :=
  match s with
  | EmptyString => true
  | String c rest => p c && all_chars p rest
  end.

(** [s.slice(0, n)]. *)
Fixpoint take_chars (n : nat) (s : string) : string :=
  match n, s with
  | S n', String c rest => String c (take_chars n' rest)
  | _, _ => EmptyString
  end.

(** ** Candidates with code units beyond 255 *)

(** A JavaScript string is a sequence of UTF-16 code units.  The strings of
    the development have their code units below 256, as every header value
    has; [verifySignature] is exported and takes any string, so its
    candidate is given here by its code units, each from 0 to 65535. *)
Definition code_units (s : string) : list Z :=
  map Z_of_ascii (list_ascii_of_string s).

(** Node's [unhex] on a code unit: the decoder casts the unit to a byte
    before it looks the digit up, so it reads the low byte of the unit. *)
Definition unhex_unit (u : Z) : option Z := unhex (ascii_of_Z (u mod 256)).

(** [Buffer.from(s, 'hex')] on the code units of [s]. *)
Fixpoint hex_decode_units (s : list Z) : Buffer :=
  match s with
  | a :: b :: rest =>
      match unhex_unit a, unhex_unit b with
      | Some hi, Some lo => byte_of_Z (16 * hi + lo) :: hex_decode_units rest
      | _, _ => []
      end
  | _ => []
  end.

(** [verifySignature] on a candidate given by its code units. *)
Definition verifySignature_units (env : Env) (payload : string)
    (signature : list Z) (secret : option string) : completion bool :=
  let* secretKey := secret_or_env env secret in
  let* expectedSignature := generateSignature env payload (Some secretKey) in
  try_catch
    (let signatureBuffer := hex_decode_units signature in
     let expectedBuffer := hex_decode expectedSignature in
     if negb (length signatureBuffer =? length expectedBuffer)%nat
     then Return false
     else timingSafeEqual signatureBuffer expectedBuffer)
    (fun _ => Return false).

(** The low byte of the code unit is a hex digit. *)
Definition is_hex_unit (u : Z) : bool := is_hex (ascii_of_Z (u mod 256)).

(** The signature of the empty object with the code unit 0x161 in the place
    of its first digit, the letter a (0x61). *)
Definition wide_candidate : list Z :=
  353 :: tl (code_units signature_of_empty_object).

(** ** Runs of the rate limiter *)

(** The calls come in the order of their instants, none before [last]. *)
Fixpoint in_time_order (last : Z) (calls : list Call) : Prop :=
  match calls with
  | [] => True
  | c :: rest => last <= call_now c /\ in_time_order (call_now c) rest
  end.

(** Whether a call with its verdict is an allowed call of [id] at an instant
    of the interval from [lo] to [hi], both included. *)
Definition allowed_in (id : string) (lo hi : Z) (cb : Call * bool) : bool :=
  String.eqb (call_id cb.1) id && cb.2
  && (lo <=? call_now cb.1) && (call_now cb.1 <=? hi).

(** The number of such calls in a run. *)
Definition allowed_between (id : string) (lo hi : Z) (calls : list Call)
    (verdicts : list bool) : Z :=
  Z.of_nat (length (List.filter (allowed_in id lo hi) (combine calls verdicts))).

(** What the proof of the bound keeps: [A] allowed calls counted so far in
    the interval that starts at [t], against the record of the identifier,
    whose window was opened at [resetAt - W]. *)
Definition burst_invariant (N W t : Z) (entry : option RateRecord)
    (last A : Z) : Prop :=
  0 <= A /\ (0 < A -> t <= last)
  /\ match entry with
     | None => A = 0
     | Some r =>
         let opened := resetAt r - W in
         1 <= count r <= Z.max N 1 /\ opened <= last
         /\ (opened < t -> A <= count r - 1)
         /\ (t <= opened <= t + W -> A <= Z.max N 1 - 1 + count r)
         /\ (t + W < opened -> A <= 2 * Z.max N 1 - 1)
     end.

(** Calls of the caller [10.0.0.1] with a window of 10 ms. *)
Definition short_call_at (t : Z) : Call :=
  {| call_now := t; call_id := "10.0.0.1"; call_window := 10 |}.

(** ** Configuration lists *)

(** A string without a comma. *)
Definition comma_free (s : string) : bool :=
  all_chars (fun c => negb (is_char "," c)) s.

(** [entries.join(',')]. *)
Definition join_commas (entries : list string) : string :=
  String.concat "," entries.

(** An environment that lists the given origins and keys. *)
Definition env_listing (secret : option string) (origins keys : list string) : Env :=
  {| WEBHOOK_SECRET := secret;
     ALLOWED_ORIGINS_var := Some (join_commas origins);
     API_KEYS_var := Some (join_commas keys) |}.

(** The sample clock ten minutes later, for the freshness gate. *)
Definition late_clock : Clock :=
  {| now_rate := 1700000000000;
     now_fresh := 1700000600000;
     now_iso := "2023-11-14T22:23:20.000Z" |}.

(** ** Requests, one after the other *)

(** [POST] on a sequence of requests, each with the clock readings of its
    run: the responses and the world that is left.  The counters live in a
    map of the module, so they pass from one request to the next. *)
Fixpoint run_POST (env : Env) (JSON_parse : string -> option JSON)
    (supabase_insert : LeadDB -> StoreReply) (requests : list (Clock * Request))
    (w : World) : list Response * World :=
  match requests with
  | [] => ([], w)
  | (clock, req) :: rest =>
      let '(response, w1) := POST env JSON_parse supabase_insert clock req w in
      let '(responses, w2) := run_POST env JSON_parse supabase_insert rest w1 in
      (response :: responses, w2)
  end.

(** The call of the rate limiter that [POST] makes for a request. *)
Definition rate_call (cr : Clock * Request) : Call :=
  {| call_now := now_rate cr.1; call_id := client_ip cr.2;
     call_window := 60000 |}.

(** The request passes the gates 1 and 2 of [POST]. *)
Definition authorised (env : Env) (req : Request) : bool :=
  checkCORS env (headers_get req "origin")
  && checkAPIKey env (headers_get req "x-api-key").

(** The record that [POST] builds for a validated lead of a request. *)
Definition record_of (clock : Clock) (req : Request) (timestamp : string)
    (lead : LeadInput) : LeadDB :=
  make_leadDB lead (headers_get req "origin") (client_ip req)
    (headers_get req "user-agent") (parseInt timestamp) (now_iso clock).

(** A request with an accepted origin and key and nothing else. *)
Definition bare_request : Request :=
  {| req_headers :=
       <["origin" := "https://app.example.com"]>
         (<["x-api-key" := "client:k1"]> ∅);
     req_text := "" |}.

(** ** What the schema reads of a payload *)

(** The keys of the shape of [LeadSchema]. *)
Definition schema_keys : list string :=
  "name" :: "email" :: "phone" :: plain_string_keys ++ ["timestamp"].

(** The number under a key of the payload, if there is one. *)
Definition payload_number (key : string) (fields : list (string * JSON))
  : option jsnum :=
  match property key fields with
  | Some (JNumber n) => Some (JInt n)
  | _ => None
  end.

(** The values of a payload under the keys of the shape. *)
Definition lead_of_fields (fields : list (string * JSON)) : LeadInput :=
  {| name := default EmptyString (payload_string "name" fields);
     email := payload_string "email" fields;
     phone := payload_string "phone" fields;
     city := payload_string "city" fields;
     street := payload_string "street" fields;
     message := payload_string "message" fields;
     notes := payload_string "notes" fields;
     source := payload_string "source" fields;
     utmSource := payload_string "utmSource" fields;
     utmMedium := payload_string "utmMedium" fields;
     utmCampaign := payload_string "utmCampaign" fields;
     utmTerm := payload_string "utmTerm" fields;
     utmContent := payload_string "utmContent" fields;
     timestamp := payload_number "timestamp" fields |}.

(** The sample payload with two keys that the shape does not name. *)
Definition sample_fields_with_more : list (string * JSON) :=
  ("role", JString "admin") :: sample_fields ++ [("id", JNumber 7)].

(** The issues of a parse that did not come out clean are reported, and
    every issue meets [Q]. *)
Definition well_reported {A} (Q : ZodIssue -> Prop) (p : Parsed A) : Prop :=
  (clean_value p = None -> p.2 <> []) /\ Forall Q p.2.

(** The path of an issue is empty or one key of the shape. *)
Definition at_schema_key (issue : ZodIssue) : Prop :=
  path issue = [] \/ exists k, In k schema_keys /\ path issue = [k].

(** The record of the sample request. *)
Definition sample_record : LeadDB :=
  record_of sample_clock
    (sample_request sample_signature "1700000000123" sample_body)
    "1700000000123" (lead_of_fields sample_fields).

(** ** The client SDK (lead-client) *)

(** [n.toString()] of a safe integer, one of at most 2^53 in absolute
    value: a Number holds it exactly and JavaScript writes all its digits.
    Every reading of [Date.now()] and every status code is one.  Beyond
    2^53 a Number is a rounded value and JavaScript writes the shortest
    digits that identify it, which this definition does not follow. *)
Definition Number_toString (n : Z) : string :=
  NilZero.string_of_int (Z.to_int n).

Definition o_acute : string := String (ascii_of_Z 243) EmptyString.

Module Client.

Record LeadClientConfig : Type := {
  apiUrl : string;
  apiKey : string;
  webhookSecret : string
}.

(** What the client finds under [details]: a text, or the issues of the
    validation. *)
Inductive Details : Type :=
| Text (text : string)
| Issues (issues : list ZodIssue).

Record LeadResponse : Type := {
  success : bool;
  leadId : option string;
  message : option Details;
  error : option string
}.

(** [b.toString(16)] of a byte: one or two lower-case digits. *)
Definition toString16 (b : Z) : string :=
  if b <? 16 then String (hex_digit b) EmptyString
  else String (hex_digit (b / 16)) (String (hex_digit (b mod 16)) EmptyString).

Fixpoint fill_string (n : nat) (fill : ascii) : string :=
  match n with
  | O => EmptyString
  | S n' => String fill (fill_string n' fill)
  end.

(** [s.padStart(targetLength, fill)], the fill being one character. *)
Definition padStart (targetLength : nat) (fill : ascii) (s : string) : string :=
  fill_string (targetLength - String.length s) fill +:+ s.

(** [{...data, key: v}]: the key keeps its place when the object has it. *)
Definition assign (key : string) (v : JSON) (data : list (string * JSON))
  : list (string * JSON) :=
  if existsb (fun kv => String.eqb kv.1 key) data
  then map (fun kv => if String.eqb kv.1 key then (kv.1, v) else kv) data
  else data ++ [(key, v)].

(** The request that the server reads: the headers that [sendLead] sets,
    under their lower-case names, over those that the browser and the
    proxies add. *)
Definition request_of (ambient : gmap string string)
    (key signature timestamp body : string) : Request :=
  {| req_headers :=
       <["content-type" := "application/json"]>
         (<["x-api-key" := key]>
            (<["x-signature" := signature]>
               (<["x-timestamp" := timestamp]> ambient)));
     req_text := body |}.

(** [response.ok] *)
Definition ok (response : Response) : bool :=
  (200 <=? status response) && (status response <=? 299).

(** The members of the decoded body that [sendLead] reads. *)
Definition data_error (data : ResponseBody) : option string :=
  match data with
  | ErrorBody e | ErrorDetails e _ | ValidationErrors e _ => Some e
  | EmptyObject | Created _ _ => None
  end.

Definition data_details (data : ResponseBody) : option Details :=
  match data with
  | ErrorDetails _ d => Some (Text d)
  | ValidationErrors _ issues => Some (Issues issues)
  | _ => None
  end.

Definition data_message (data : ResponseBody) : option string :=
  match data with
  | Created _ m => Some m
  | _ => None
  end.

Definition data_leadId (data : ResponseBody) : option string :=
  match data with
  | Created id _ => Some id
  | _ => None
  end.

Definition truthy_details (d : option Details) : bool :=
  match d with
  | Some (Text s) => truthy_string s
  | Some (Issues _) => true
  | None => false
  end.

(** What [sendLead] makes of the response of the server. *)
Definition read_response (response : Response) : LeadResponse :=
  let data := json response in
  if negb (ok response)
  then {| success := false;
          leadId := None;
          error := Some (or_default (data_error data)
                           ("HTTP " +:+ Number_toString (status response)));
          message := if truthy_details (data_details data)
                     then data_details data
                     else option_map Text (data_message data) |}
  else {| success := true;
          leadId := data_leadId data;
          message := Some (Text (or_default (data_message data)
                                   "Lead enviado correctamente"));
          error := None |}.

Section SDK.

(** The message of the DataError with which [importKey] refuses an HMAC key
    of length zero. *)
Variable zero_length_key : string.
Variable JSON_stringify : JSON -> string.
(** [fetch(url, init)] and [response.json()]: the response, or the
    exception of a failed transport or of a body that is no JSON. *)
Variable fetch : string -> Request -> completion Response.

Definition importKey (keyData : list Z) : completion (list Z) :=
  match keyData with
  | [] => Throw zero_length_key
  | _ => Return keyData
  end.

Definition generateHMAC (payload secret : string) : completion string :=
  let keyData := utf8 secret in
  let messageData := utf8 payload in
  let* key := importKey keyData in
  let signature : Buffer := map byte_of_Z (SHA256.hmac key messageData) in
  Return (String.concat ""
            (map (fun b => padStart 2 "0" (toString16 (Z_of_byte b)))
                 signature)).

(** [sendLead]; [now] is what [Date.now()] reads. *)
Definition sendLead (config : LeadClientConfig) (ambient : gmap string string)
    (now : Z) (leadData : list (string * JSON)) : LeadResponse :=
  let attempt :=
    let timestamp := now in
    let payload :=
      JSON_stringify (JObject (assign "timestamp" (JNumber timestamp) leadData)) in
    let* signature := generateHMAC payload (webhookSecret config) in
    let* response :=
      fetch (apiUrl config +:+ "/api/leads/webhook")
        (request_of ambient (apiKey config) signature
           (Number_toString timestamp) payload) in
    Return (read_response response) in
  match attempt with
  | Return result => result
  | Throw e =>
      {| success := false;
         leadId := None;
         message := None;
         error := Some (or_default (Some e)
                          ("Error de conexi" +:+ o_acute +:+ "n")) |}
  end.

End SDK.

End Client.

(** The server at the other end of [fetch]: [POST] in the world [w]. *)
Definition served (env : Env) (JSON_parse : string -> option JSON)
    (supabase_insert : LeadDB -> StoreReply) (clock : Clock) (w : World)
  : string -> Request -> completion Response :=
  fun _ req => Return (POST env JSON_parse supabase_insert clock req w).1.

(** A client of the sample deployment, what its browser adds to a request,
    the lead it sends, and a codec that knows the body of that lead. *)
Definition sample_config : Client.LeadClientConfig :=
  {| Client.apiUrl := "https://leads.example.com";
     Client.apiKey := "client:k1";
     Client.webhookSecret := "key" |}.

Definition sample_ambient : gmap string string :=
  <["origin" := "https://app.example.com"]> ∅.

Definition sample_lead : list (string * JSON) :=
  [("name", JString "Alice"); ("email", JString "a@b.com")].

Definition sent_body : string :=
  "{" +:+ json_member "name" "Alice" +:+ "," +:+ json_member "email" "a@b.com"
  +:+ "," +:+ dq +:+ "timestamp" +:+ dq +:+ ":1700000000123}".

Definition sent_stringify (data : JSON) : string := sent_body.

Definition sent_parse (text : string) : option JSON :=
  if String.eqb text sent_body
  then Some (JObject (Client.assign "timestamp" (JNumber 1700000000123)
                        sample_lead))
  else None.

(** ** lib/supabase *)

(** [process.env] with the two variables of the store. *)
Record ProcessEnv : Type := {
  webhook_env : Env;
  NEXT_PUBLIC_SUPABASE_URL : option string;
  SUPABASE_SERVICE_ROLE_KEY : option string
}.

(** The client that [createClient(url, key, options)] returns. *)
Record SupabaseClient : Type := {
  client_url : string;
  client_key : string
}.

(** The state of the module: [supabaseInstance], and the calls of
    [createClient] so far. *)
Record SupabaseModule : Type := {
  supabaseInstance : option SupabaseClient;
  createClient_calls : list (string * string)
}.

Section Supabase.

(** [createClient] may refuse its arguments with an exception. *)
Variable createClient : string -> string -> completion SupabaseClient.

Definition getSupabaseClient (penv : ProcessEnv) (st : SupabaseModule)
  : completion SupabaseClient * SupabaseModule :=
  match supabaseInstance st with
  | Some instance => (Return instance, st)
  | None =>
      match NEXT_PUBLIC_SUPABASE_URL penv, SUPABASE_SERVICE_ROLE_KEY penv with
      | Some supabaseUrl, Some supabaseServiceKey =>
          if negb (truthy_string supabaseUrl)
             || negb (truthy_string supabaseServiceKey)
          then (Throw "Missing Supabase environment variables", st)
          else
            let called := createClient_calls st
                          ++ [(supabaseUrl, supabaseServiceKey)] in
            match createClient supabaseUrl supabaseServiceKey with
            | Return instance =>
                (Return instance,
                 {| supabaseInstance := Some instance;
                    createClient_calls := called |})
            | Throw e =>
                (Throw e,
                 {| supabaseInstance := None; createClient_calls := called |})
            end
      | _, _ => (Throw "Missing Supabase environment variables", st)
      end
  end.

(** The calls of [getSupabaseClient] under the environments [penvs], one
    after the other. *)
Fixpoint run_getSupabaseClient (penvs : list ProcessEnv) (st : SupabaseModule)
  : list (completion SupabaseClient) * SupabaseModule :=
  match penvs with
  | [] => ([], st)
  | penv :: rest =>
      let '(r, st1) := getSupabaseClient penv st in
      let '(rs, st2) := run_getSupabaseClient rest st1 in
      (r :: rs, st2)
  end.

(** The store behind the proxy [supabase] of the webhook, as [POST] sees it
    when it evaluates [supabase.from('leads').insert(leadDB).select().single()]:
    reading [from] of the proxy gets the client first, and an exception of
    [getSupabaseClient] is thrown there, before [insert] is called;
    otherwise the reply is that of [insert] of the client.  The module is in
    the state [st] when the request comes.  The log [store_calls] lists the
    records for which [POST] evaluated the expression, also those for which
    the proxy threw. *)
Definition proxied_insert (penv : ProcessEnv) (st : SupabaseModule)
    (insert : SupabaseClient -> LeadDB -> StoreReply) : LeadDB -> StoreReply :=
  fun record =>
    match (getSupabaseClient penv st).1 with
    | Return client => insert client record
    | Throw e => StoreThrows e
    end.

End Supabase.

Definition fresh_module : SupabaseModule :=
  {| supabaseInstance := None; createClient_calls := [] |}.

(** ** api/health *)

Module Health.

(** What a query of the store gives: the number of rows, an error object,
    or an exception, with its message when it is an [Error]. *)
Inductive QueryReply : Type :=
| Rows (n : nat)
| QueryError (msg : string)
| QueryThrows (msg : option string).

Record Check : Type := {
  check_status : string;
  message : option string;
  latency : option Z
}.

Record Checks : Type := {
  status : string;
  timestamp : string;
  supabase : Check;
  environment : Check;
  recent_activity : Check
}.

(** The readings of the clock during one request. *)
Record Clock : Type := {
  now_iso : string;      (* [new Date().toISOString()] *)
  start : Z;             (* [Date.now()] before the query *)
  finish : Z;            (* [Date.now()] after it *)
  now_recent : Z         (* [Date.now()] of the third check *)
}.

Definition requiredEnvVars : list string :=
  ["NEXT_PUBLIC_SUPABASE_URL"; "SUPABASE_SERVICE_ROLE_KEY"; "WEBHOOK_SECRET";
   "ALLOWED_ORIGINS"; "API_KEYS"].

(** [process.env[v]] for the names that the check reads. *)
Definition env_var (penv : ProcessEnv) (v : string) : option string :=
  if String.eqb v "NEXT_PUBLIC_SUPABASE_URL" then NEXT_PUBLIC_SUPABASE_URL penv
  else if String.eqb v "SUPABASE_SERVICE_ROLE_KEY"
       then SUPABASE_SERVICE_ROLE_KEY penv
  else if String.eqb v "WEBHOOK_SECRET" then WEBHOOK_SECRET (webhook_env penv)
  else if String.eqb v "ALLOWED_ORIGINS"
       then ALLOWED_ORIGINS_var (webhook_env penv)
  else if String.eqb v "API_KEYS" then API_KEYS_var (webhook_env penv)
  else None.

(** [error instanceof Error ? error.message : 'Unknown error'] *)
Definition error_message (thrown : option string) : string :=
  match thrown with
  | Some msg => msg
  | None => "Unknown error"
  end.

Section GET.

Variable createClient : string -> string -> completion SupabaseClient.
(** [from('leads').select('id').limit(1)] *)
Variable select_one : SupabaseClient -> QueryReply.
(** [from('leads').select('id, created_at').gte('created_at', since)] *)
Variable select_recent : SupabaseClient -> string -> QueryReply.
Variable toISOString : Z -> string.

Definition GET (penv : ProcessEnv) (clock : Clock) (st : SupabaseModule)
  : (Z * Checks) * SupabaseModule :=
  let status0 := "healthy" in
  (* 1. the connection *)
  let '(client1, st1) := getSupabaseClient createClient penv st in
  let '(supabase1, status1) :=
    match client1 with
    | Return client =>
        match select_one client with
        | QueryThrows thrown =>
            ({| check_status := "unhealthy";
                message := Some (error_message thrown);
                latency := None |}, "unhealthy")
        | QueryError msg =>
            ({| check_status := "unhealthy";
                message := Some msg;
                latency := Some (finish clock - start clock) |}, "degraded")
        | Rows _ =>
            ({| check_status := "healthy";
                message := None;
                latency := Some (finish clock - start clock) |}, status0)
        end
    | Throw e =>
        ({| check_status := "unhealthy";
            message := Some (error_message (Some e));
            latency := None |}, "unhealthy")
    end in
  (* 2. the environment *)
  let missingEnvVars :=
    List.filter (fun v => negb (truthy (env_var penv v))) requiredEnvVars in
  let '(environment2, status2) :=
    if (0 <? length missingEnvVars)%nat
    then ({| check_status := "unhealthy";
             message := Some ("Missing: " +:+ String.concat ", " missingEnvVars);
             latency := None |}, "unhealthy")
    else ({| check_status := "healthy"; message := None; latency := None |},
          status1) in
  (* 3. the recent leads *)
  let fiveMinutesAgo := toISOString (now_recent clock - 5 * 60 * 1000) in
  let '(client3, st3) := getSupabaseClient createClient penv st1 in
  let recent3 :=
    match client3 with
    | Return client =>
        match select_recent client fiveMinutesAgo with
        | QueryThrows thrown =>
            {| check_status := "warning";
               message := Some (error_message thrown);
               latency := None |}
        | QueryError msg =>
            {| check_status := "warning"; message := Some msg;
               latency := None |}
        | Rows n =>
            {| check_status := "healthy";
               message := Some (Number_toString (Z.of_nat n)
                                +:+ " leads in last 5 minutes");
               latency := None |}
        end
    | Throw e =>
        {| check_status := "warning";
           message := Some (error_message (Some e));
           latency := None |}
    end in
  let statusCode :=
    if String.eqb status2 "healthy" then 200
    else if String.eqb status2 "degraded" then 207 else 503 in
  ((statusCode,
    {| status := status2; timestamp := now_iso clock; supabase := supabase1;
       environment := environment2; recent_activity := recent3 |}), st3).

End GET.

End Health.

(** The five variables that the health check requires are all set. *)
Definition env_complete (penv : ProcessEnv) : bool :=
  truthy (NEXT_PUBLIC_SUPABASE_URL penv)
  && truthy (SUPABASE_SERVICE_ROLE_KEY penv)
  && truthy (WEBHOOK_SECRET (webhook_env penv))
  && truthy (ALLOWED_ORIGINS_var (webhook_env penv))
  && truthy (API_KEYS_var (webhook_env penv)).

(** A deployment with and without the variables of the store, and a
    [createClient] that accepts everything. *)
Definition sample_process_env : ProcessEnv :=
  {| webhook_env := sample_env;
     NEXT_PUBLIC_SUPABASE_URL := Some "https://db.example.com";
     SUPABASE_SERVICE_ROLE_KEY := Some "service-key" |}.

Definition process_env_without_store : ProcessEnv :=
  {| webhook_env := sample_env;
     NEXT_PUBLIC_SUPABASE_URL := None;
     SUPABASE_SERVICE_ROLE_KEY := None |}.

Definition sample_createClient (url key : string) : completion SupabaseClient :=
  Return {| client_url := url; client_key := key |}.

Definition sample_health_clock : Health.Clock :=
  {| Health.now_iso := "2023-11-14T22:13:20.000Z";
     Health.start := 1700000000000;
     Health.finish := 1700000000012;
     Health.now_recent := 1700000000013 |}.

(** ** A later clock *)

(** The sample clock a day later. *)
Definition next_day_clock : Clock :=
  {| now_rate := 1700086400000;
     now_fresh := 1700086400000;
     now_iso := "2023-11-15T22:13:20.000Z" |}.

(** * Proofs *)

(** ** Test vectors of the embedding *)

Example sha256_abc :
  hex_encode (map byte_of_Z (SHA256.digest (utf8 "abc")))
  = "ba7816bf8f01cfea414140de5dae2223b00361a396177a9cb410ff61f20015ad".
Proof. vm_compute. reflexivity. Qed.

Example hmac_rfc4231_case2 :
  hex_encode (hmac_sha256 "Jefe" "what do ya want for nothing?")
  = "5bdcc146bf60754e6a042426089575c75a003f089d2739839dec58b964ec3843".
Proof. vm_compute. reflexivity. Qed.

Example generateSignature_fox :
  generateSignature no_env "The quick brown fox jumps over the lazy dog" (Some "key")
  = Return "f7bc83f430538424b13298e6aa6fb143ef4d59a14946175997479dbc2d1a3cd8".
Proof. vm_compute. reflexivity. Qed.

(** ** The matcher of regular expressions *)

Module Regex_facts.
Import Regex.

Lemma append_cons (c : ascii) (a b : string) :
  String c a +:+ b = String c (a +:+ b).
Proof. reflexivity. Qed.

Lemma append_nil_r (s : string) : s +:+ EmptyString = s.
Proof.
  induction s as [|c s IH]; [reflexivity|]. now rewrite append_cons, IH.
Qed.

Lemma append_nil_inv (a b : string) :
  a +:+ b = EmptyString -> a = EmptyString /\ b = EmptyString.
Proof. destruct a; [auto|]. rewrite append_cons. discriminate. Qed.

(** A concatenation that starts with [c] starts in its first part, or its
    first part is empty. *)
Lemma append_cons_inv (a b : string) (c : ascii) (s : string) :
  a +:+ b = String c s ->
  (a = EmptyString /\ b = String c s)
  \/ exists a', a = String c a' /\ s = a' +:+ b.
Proof.
  destruct a as [|c' a']; [auto|]. rewrite append_cons.
  intros [= -> <-]. right. eauto.
Qed.

Lemma Matches_Empty (s : string) : ~ Matches Empty s.
Proof. intros H. inversion H. Qed.

Lemma Matches_Eps (s : string) : Matches Eps s <-> s = EmptyString.
Proof. split; [intros H; now inversion H|intros ->; constructor]. Qed.

Lemma Matches_Class (p : ascii -> bool) (s : string) :
  Matches (Class p) s <-> exists c, s = String c EmptyString /\ p c = true.
Proof.
  split; [intros H; inversion H; eauto|].
  intros (c & -> & Hp). now constructor.
Qed.

Lemma Matches_Seq (r1 r2 : re) (s : string) :
  Matches (Seq r1 r2) s
  <-> exists s1 s2, s = s1 +:+ s2 /\ Matches r1 s1 /\ Matches r2 s2.
Proof.
  split; [intros H; inversion H; subst; eauto|].
  intros (s1 & s2 & -> & H1 & H2). now constructor.
Qed.

Lemma Matches_Alt (r1 r2 : re) (s : string) :
  Matches (Alt r1 r2) s <-> Matches r1 s \/ Matches r2 s.
Proof.
  split; [intros H; inversion H; subst; auto|].
  intros [H|H]; [now apply MAltL|now apply MAltR].
Qed.

Lemma nullable_spec (r : re) : nullable r = true <-> Matches r EmptyString.
Proof.
  induction r as [| |p|r1 IH1 r2 IH2|r1 IH1 r2 IH2|r IH]; cbn [nullable].
  - split; [discriminate|]. intros H. now apply Matches_Empty in H.
  - split; [constructor|reflexivity].
  - split; [discriminate|]. intros (c & [=] & _)%Matches_Class.
  - rewrite andb_true_iff, IH1, IH2, Matches_Seq. split.
    + intros [H1 H2]. now exists EmptyString, EmptyString.
    + intros (s1 & s2 & Hs & H1 & H2).
      symmetry in Hs. apply append_nil_inv in Hs as [-> ->]. auto.
  - now rewrite orb_true_iff, IH1, IH2, Matches_Alt.
  - split; [constructor|reflexivity].
Qed.

(** A non-empty word of a star starts with a non-empty word of its body. *)
Lemma Matches_Star_cons_gen (r' : re) (w : string) :
  Matches r' w ->
  forall q x t, r' = Star q -> w = String x t ->
  exists t1 t2, t = t1 +:+ t2 /\ Matches q (String x t1) /\ Matches (Star q) t2.
Proof.
  induction 1 as [| | | | | |r0 s1 s2 H1 _ H2 IH2]; intros q x t Hr Hw;
    try discriminate.
  injection Hr as ->.
  apply append_cons_inv in Hw as [[-> ->]|(a' & -> & ->)].
  - now apply IH2.
  - eauto.
Qed.

Lemma Matches_Star_cons (r : re) (c : ascii) (s : string) :
  Matches (Star r) (String c s) ->
  exists s1 s2, s = s1 +:+ s2 /\ Matches r (String c s1) /\ Matches (Star r) s2.
Proof. intros H. now apply (Matches_Star_cons_gen _ _ H). Qed.

Lemma deriv_spec (r : re) (c : ascii) :
  forall s, Matches (deriv c r) s <-> Matches r (String c s).
Proof.
  induction r as [| |p|r1 IH1 r2 IH2|r1 IH1 r2 IH2|r IH]; intros s;
    cbn [deriv].
  - split; intros H; now apply Matches_Empty in H.
  - split; intros H; [now apply Matches_Empty in H|].
    now apply Matches_Eps in H.
  - rewrite Matches_Class. destruct (p c) eqn:Hp.
    + rewrite Matches_Eps. split.
      * intros ->. eauto.
      * now intros (c' & [= <- ->] & _).
    + split; [intros H; now apply Matches_Empty in H|].
      intros (c' & [= <- ->] & Hp'). congruence.
  - assert (Hseq : Matches (Seq (deriv c r1) r2) s
                   <-> exists a' s2, s = a' +:+ s2 /\ Matches r1 (String c a')
                                     /\ Matches r2 s2).
    { rewrite Matches_Seq. split; intros (a' & s2 & -> & H1 & H2);
        exists a', s2; repeat split; auto; now apply IH1. }
    rewrite (Matches_Seq r1 r2). destruct (nullable r1) eqn:Hnull.
    + rewrite Matches_Alt, Hseq, IH2. split.
      * intros [(a' & s2 & -> & H1 & H2)|H2].
        -- now exists (String c a'), s2.
        -- exists EmptyString, (String c s). repeat split; auto.
           now apply nullable_spec.
      * intros (s1 & s2 & Hs & H1 & H2). symmetry in Hs.
        apply append_cons_inv in Hs as [[-> ->]|(a' & -> & ->)]; [now right|].
        left. eauto.
    + rewrite Hseq. split.
      * intros (a' & s2 & -> & H1 & H2). now exists (String c a'), s2.
      * intros (s1 & s2 & Hs & H1 & H2). symmetry in Hs.
        apply append_cons_inv in Hs as [[-> ->]|(a' & -> & ->)]; [|eauto].
        apply nullable_spec in H1. congruence.
  - now rewrite !Matches_Alt, IH1, IH2.
  - rewrite Matches_Seq. split.
    + intros (s1 & s2 & -> & H1 & H2). apply IH in H1.
      now apply (MStarS r (String c s1) s2).
    + intros (s1 & s2 & -> & H1 & H2)%Matches_Star_cons.
      exists s1, s2. repeat split; auto. now apply IH.
Qed.

Lemma mkSeq_spec (r1 r2 : re) (s : string) :
  Matches (mkSeq r1 r2) s <-> Matches (Seq r1 r2) s.
Proof.
  rewrite Matches_Seq.
  destruct r1, r2; cbn [mkSeq]; try (now rewrite Matches_Seq);
    try (split; [intros H; now apply Matches_Empty in H|];
         intros (s1 & s2 & _ & H1 & H2);
         first [now apply Matches_Empty in H1|now apply Matches_Empty in H2]);
    (split;
     [intros H; exists EmptyString, s; repeat split; auto; constructor
     |intros (s1 & s2 & -> & ->%Matches_Eps & H2); exact H2]).
Qed.

Lemma mkAlt_spec (r1 r2 : re) (s : string) :
  Matches (mkAlt r1 r2) s <-> Matches (Alt r1 r2) s.
Proof.
  rewrite Matches_Alt.
  destruct r1, r2; cbn [mkAlt]; try (now rewrite Matches_Alt);
    split; auto; intros [H|H]; auto; now apply Matches_Empty in H.
Qed.

Lemma simp_spec (r : re) : forall s, Matches (simp r) s <-> Matches r s.
Proof.
  induction r as [| |p|r1 IH1 r2 IH2|r1 IH1 r2 IH2|r IH]; intros s;
    cbn [simp]; try reflexivity.
  - rewrite mkSeq_spec, !Matches_Seq. split;
      intros (s1 & s2 & -> & H1 & H2); exists s1, s2;
      repeat split; auto; first [now apply IH1|now apply IH2].
  - now rewrite mkAlt_spec, !Matches_Alt, IH1, IH2.
Qed.

(** The matcher decides the words of the expression. *)
Theorem matches_spec (s : string) :
  forall r, matches r s = true <-> Matches r s.
Proof.
  induction s as [|c s IH]; intros r; cbn [matches].
  - apply nullable_spec.
  - now rewrite IH, simp_spec, deriv_spec.
Qed.

End Regex_facts.

(** What [z.string().email()] accepts, in terms of the words of the three
    expressions. *)
Lemma emailRegex_test_spec (s : string) :
  emailRegex_test s = true
  <-> ~ Regex.Matches email_leading_dot s
      /\ ~ Regex.Matches email_double_dot s
      /\ Regex.Matches email_body s.
Proof.
  unfold emailRegex_test.
  rewrite !andb_true_iff, !negb_true_iff, <- !not_true_iff_false.
  rewrite !Regex_facts.matches_spec. tauto.
Qed.

(** ** Hex encoding *)

Lemma hex_decode_pair (x : byte) (rest : string) :
  hex_decode (String (hex_digit (Z_of_byte x / 16))
                     (String (hex_digit (Z_of_byte x mod 16)) rest))
  = x :: hex_decode rest.
Proof. destruct x; reflexivity. Qed.

(** Decoding what [digest('hex')] wrote gives the bytes back. *)
Lemma hex_decode_encode (b : Buffer) : hex_decode (hex_encode b) = b.
Proof.
  induction b as [|x b IH]; [reflexivity|].
  cbn [hex_encode]. rewrite hex_decode_pair. now rewrite IH.
Qed.

(** The decoder reads a well-formed prefix and goes on with what follows. *)
Lemma hex_decode_encode_app (b : Buffer) (s : string) :
  hex_decode (hex_encode b +:+ s) = b ++ hex_decode s.
Proof.
  induction b as [|x b IH]; [reflexivity|].
  change (hex_encode (x :: b) +:+ s)
    with (String (hex_digit (Z_of_byte x / 16))
            (String (hex_digit (Z_of_byte x mod 16)) (hex_encode b +:+ s))).
  rewrite hex_decode_pair. now rewrite IH.
Qed.

Lemma byte_eqb_refl (x : byte) : byte_eqb x x = true.
Proof. destruct x; reflexivity. Qed.

Lemma buffer_eqb_refl (b : Buffer) : buffer_eqb b b = true.
Proof.
  induction b as [|x b IH]; [reflexivity|].
  cbn [buffer_eqb]. now rewrite byte_eqb_refl, IH.
Qed.

Lemma buffer_eqb_eq (a b : Buffer) : buffer_eqb a b = true <-> a = b.
Proof.
  split; [|intros ->; apply buffer_eqb_refl].
  revert b. induction a as [|x a IH]; intros [|y b] H; try discriminate; auto.
  cbn [buffer_eqb] in H. apply andb_prop in H as [Hxy Hab].
  apply Byte.byte_dec_bl in Hxy. subst y. f_equal. now apply IH.
Qed.

Lemma timingSafeEqual_same (b : Buffer) : timingSafeEqual b b = Return true.
Proof.
  unfold timingSafeEqual. rewrite Nat.eqb_refl. now rewrite buffer_eqb_refl.
Qed.

(** ** The digest has 32 bytes *)

Module SHA256_facts.
Import SHA256.

Lemma round_length (st : list Z) (kw : Z * Z) :
  length st = 8%nat -> length (round st kw) = 8%nat.
Proof.
  intros H.
  do 8 (destruct st as [|? st]; [discriminate H|]).
  destruct st; [reflexivity|discriminate H].
Qed.

Lemma rounds_length (kws : list (Z * Z)) (st : list Z) :
  length st = 8%nat -> length (fold_left round kws st) = 8%nat.
Proof.
  revert st. induction kws as [|kw kws IH]; intros st H; [exact H|].
  cbn [fold_left]. apply IH. now apply round_length.
Qed.

Lemma zip_add_length (xs ys : list Z) :
  length (zip_add xs ys) = Nat.min (length xs) (length ys).
Proof.
  revert ys. induction xs as [|x xs IH]; intros [|y ys]; cbn; auto.
Qed.

Lemma compress_length (h block : list Z) :
  length h = 8%nat -> length (compress h block) = 8%nat.
Proof.
  intros H. unfold compress.
  rewrite zip_add_length, rounds_length, H; auto.
Qed.

Lemma blocks_length (n : nat) (h bs : list Z) :
  length h = 8%nat -> length (blocks n h bs) = 8%nat.
Proof.
  revert h bs. induction n as [|n IH]; intros h bs H; [exact H|].
  cbn [blocks]. apply IH. now apply compress_length.
Qed.

Lemma be_bytes_length (n : nat) (x : Z) : length (be_bytes n x) = n.
Proof. induction n as [|n IH]; cbn [be_bytes length]; auto. Qed.

Lemma flat_map_be_bytes_length (h : list Z) :
  length (flat_map (be_bytes 4) h) = (4 * length h)%nat.
Proof.
  induction h as [|x h IH]; [reflexivity|].
  cbn [flat_map]. rewrite length_app, be_bytes_length, IH. cbn [length]. lia.
Qed.

Lemma digest_length (msg : list Z) : length (digest msg) = 32%nat.
Proof.
  unfold digest. rewrite flat_map_be_bytes_length, blocks_length; reflexivity.
Qed.

Lemma hmac_length (key msg : list Z) : length (hmac key msg) = 32%nat.
Proof. unfold hmac. apply digest_length. Qed.

End SHA256_facts.

Lemma hmac_sha256_length (key payload : string) :
  length (hmac_sha256 key payload) = 32%nat.
Proof.
  unfold hmac_sha256. rewrite length_map. apply SHA256_facts.hmac_length.
Qed.

(** ** generateSignature and verifySignature *)

Lemma secret_or_env_truthy (env : Env) (secret : option string) (k : string) :
  secret_or_env env secret = Return k -> truthy_string k = true.
Proof.
  unfold secret_or_env, getWebhookSecret.
  destruct secret as [s|].
  - destruct (truthy_string s) eqn:Hs.
    + intros [= <-]. exact Hs.
    + destruct (WEBHOOK_SECRET env) as [e|]; [|discriminate].
      destruct (truthy_string e) eqn:He; [|discriminate].
      intros [= <-]. exact He.
  - destruct (WEBHOOK_SECRET env) as [e|]; [|discriminate].
    destruct (truthy_string e) eqn:He; [|discriminate].
    intros [= <-]. exact He.
Qed.

(** The key is found when a secret is passed or one is configured. *)
Lemma secret_or_env_total (env : Env) (secret : option string) :
  truthy secret || truthy (WEBHOOK_SECRET env) = true ->
  exists k, secret_or_env env secret = Return k.
Proof.
  unfold secret_or_env, getWebhookSecret, truthy.
  destruct secret as [s|]; [destruct (truthy_string s)|]; cbn [orb]; eauto;
    destruct (WEBHOOK_SECRET env) as [e|]; try discriminate;
    destruct (truthy_string e); try discriminate; eauto.
Qed.

Lemma secret_or_env_key (env : Env) (k : string) :
  truthy_string k = true -> secret_or_env env (Some k) = Return k.
Proof. intros H. unfold secret_or_env. now rewrite H. Qed.

Lemma generateSignature_key (env : Env) (payload : string)
    (secret : option string) (k : string) :
  secret_or_env env secret = Return k ->
  generateSignature env payload secret
  = Return (hex_encode (hmac_sha256 k payload)).
Proof. intros H. unfold generateSignature. now rewrite H. Qed.

Lemma buffer_eqb_length (a b : Buffer) :
  length a <> length b -> buffer_eqb a b = false.
Proof.
  revert b. induction a as [|x a IH]; intros [|y b] H; cbn in *;
    try reflexivity; try congruence.
  rewrite IH; [apply andb_false_r|congruence].
Qed.

(** What [verifySignature] computes once the key is found: the comparison of
    the decoded candidate with the MAC.  The [catch] is never taken. *)
Lemma verifySignature_key (env : Env) (payload signature : string)
    (secret : option string) (k : string) :
  secret_or_env env secret = Return k ->
  verifySignature env payload signature secret
  = Return (buffer_eqb (hex_decode signature) (hmac_sha256 k payload)).
Proof.
  intros H. unfold verifySignature. rewrite H. cbn [bind].
  rewrite (generateSignature_key env payload (Some k) k)
    by (apply secret_or_env_key; eapply secret_or_env_truthy; eauto).
  cbn [bind]. rewrite hex_decode_encode. unfold timingSafeEqual.
  destruct (length (hex_decode signature) =? length (hmac_sha256 k payload))%nat
    eqn:Hlen; cbn [negb try_catch]; [reflexivity|].
  apply Nat.eqb_neq in Hlen. now rewrite buffer_eqb_length.
Qed.

Lemma verifySignature_throws (env : Env) (payload signature : string)
    (secret : option string) (e : string) :
  secret_or_env env secret = Throw e ->
  verifySignature env payload signature secret = Throw e.
Proof. intros H. unfold verifySignature. now rewrite H. Qed.

(** With a secret at hand [verifySignature] returns a boolean: no exception
    escapes, whatever the candidate is. *)
Lemma verifySignature_total (env : Env) (payload signature : string)
    (secret : option string) :
  truthy secret || truthy (WEBHOOK_SECRET env) = true ->
  exists b, verifySignature env payload signature secret = Return b.
Proof.
  intros H. destruct (secret_or_env_total env secret H) as [k Hk].
  rewrite (verifySignature_key _ _ _ _ _ Hk). eauto.
Qed.

(** A candidate that does not decode to 32 bytes is refused. *)
Lemma verifySignature_wrong_length (env : Env) (payload signature : string)
    (secret : option string) :
  truthy secret || truthy (WEBHOOK_SECRET env) = true ->
  length (hex_decode signature) <> 32%nat ->
  verifySignature env payload signature secret = Return false.
Proof.
  intros H Hlen. destruct (secret_or_env_total env secret H) as [k Hk].
  rewrite (verifySignature_key _ _ _ _ _ Hk). f_equal.
  apply buffer_eqb_length. now rewrite hmac_sha256_length.
Qed.

(** A candidate is judged on its leading hex pairs alone: what follows
    them, if it does not decode, is ignored. *)
Lemma verifySignature_ignores_tail (env : Env) (payload tail : string)
    (secret : option string) (k : string) :
  secret_or_env env secret = Return k ->
  hex_decode tail = [] ->
  verifySignature env payload (hex_encode (hmac_sha256 k payload) +:+ tail) secret
  = Return true.
Proof.
  intros Hk Htail. rewrite (verifySignature_key _ _ _ _ _ Hk).
  rewrite hex_decode_encode_app, Htail, app_nil_r. now rewrite buffer_eqb_refl.
Qed.

(** C1, as amended.  For every payload and every secret that is not empty,
    and for every secret at all once WEBHOOK_SECRET is configured, signing
    succeeds and verifying the signature it produced returns true. *)
Theorem sign_then_verify_ok (env : Env) (payload : string) (secret : option string) :
  truthy secret || truthy (WEBHOOK_SECRET env) = true ->
  sign_then_verify env payload secret = Return true.
Proof.
  intros H. destruct (secret_or_env_total env secret H) as [k Hk].
  unfold sign_then_verify.
  rewrite (generateSignature_key _ _ _ _ Hk). cbn [bind].
  rewrite (verifySignature_key _ _ _ _ _ Hk).
  now rewrite hex_decode_encode, buffer_eqb_refl.
Qed.

(** C1, a run: the body [{}] signed and verified under the secret [key]. *)
Lemma sign_then_verify_ok_witness :
  truthy (Some "key") || truthy (WEBHOOK_SECRET no_env) = true
  /\ sign_then_verify no_env "{}" (Some "key") = Return true.
Proof.
  split; [reflexivity|].
  apply (sign_then_verify_ok no_env "{}" (Some "key")). reflexivity.
Defined.

(** C1, as stated, fails for the empty secret when WEBHOOK_SECRET is not
    set: the empty string counts as no secret, so signing falls back to the
    environment and throws. *)
Lemma sign_then_verify_empty_secret :
  sign_then_verify no_env "{}" (Some "")
  = Throw "WEBHOOK_SECRET environment variable is not set"
  /\ sign_then_verify no_env "{}" (Some "") <> Return true.
Proof. split; [reflexivity|discriminate]. Qed.

(** C3.  [verifySignature] accepts candidates that are not well-formed hex:
    the signature followed by characters that are no hex digits, and the
    signature followed by a single digit (odd length). *)
Theorem verifySignature_accepts_malformed_hex :
  generateSignature no_env "{}" (Some "key") = Return signature_of_empty_object
  /\ verifySignature no_env "{}" (signature_of_empty_object +:+ "zz") (Some "key")
     = Return true
  /\ verifySignature no_env "{}" (signature_of_empty_object +:+ "0") (Some "key")
     = Return true.
Proof. split; [|split]; vm_compute; reflexivity. Qed.

(** ** verifyTimestamp *)

(** C4.  On an integer timestamp [verifyTimestamp] is true exactly when the
    distance to now is below 300000 ms; it is false at exactly 300000 ms on
    either side, and a skew into the future counts as one into the past. *)
Theorem verifyTimestamp_window (now T : Z) :
  (verifyTimestamp now (JInt T) = true <-> Z.abs (now - T) < 300000)
  /\ verifyTimestamp now (JInt (now - 300000)) = false
  /\ verifyTimestamp now (JInt (now + 300000)) = false
  /\ (forall d : Z,
        verifyTimestamp now (JInt (now + d)) = verifyTimestamp now (JInt (now - d))).
Proof.
  unfold verifyTimestamp, fiveMinutes.
  change (5 * 60 * 1000) with 300000.
  repeat split.
  - intros H. now apply Z.ltb_lt in H.
  - intros H. now apply Z.ltb_lt.
  - apply Z.ltb_ge. lia.
  - apply Z.ltb_ge. lia.
  - intros d. f_equal. lia.
Qed.

Lemma verifyTimestamp_NaN (now : Z) : verifyTimestamp now JNaN = false.
Proof. reflexivity. Qed.

(** [parseInt] reads a leading integer and gives NaN when there is none. *)
Example parseInt_samples :
  map parseInt ["1700000000123"; " 42abc"; "-7"; "yesterday"; ""; "+"; "1e3"]
  = [JInt 1700000000123; JInt 42; JInt (-7); JNaN; JNaN; JNaN; JInt 1].
Proof. reflexivity. Qed.

(** ** checkRateLimit *)

Section RateLimit.

Implicit Types (m : gmap string RateRecord) (id : string) (r : RateRecord).

Lemma checkRateLimit_opens now id N W m :
  opens_window now (m !! id) = true ->
  checkRateLimit now id N W m
  = (true, <[id := {| count := 1; resetAt := now + W |}]> m).
Proof.
  unfold opens_window, checkRateLimit.
  destruct (m !! id) as [r|]; [|reflexivity].
  now intros ->.
Qed.

Lemma checkRateLimit_inside now id N W m r :
  m !! id = Some r -> now <= resetAt r ->
  checkRateLimit now id N W m
  = if count r <? N
    then (true, <[id := {| count := count r + 1; resetAt := resetAt r |}]> m)
    else (false, m).
Proof.
  intros Hr Hnow. unfold checkRateLimit. rewrite Hr.
  rewrite Z.gtb_ltb, Z.geb_leb.
  replace (resetAt r <? now) with false by (symmetry; apply Z.ltb_ge; lia).
  destruct (Z.ltb_spec (count r) N), (Z.leb_spec N (count r)); auto; lia.
Qed.

(** A call leaves the records of the other identifiers alone. *)
Lemma checkRateLimit_other now id N W m id' :
  id <> id' -> (checkRateLimit now id N W m).2 !! id' = m !! id'.
Proof.
  intros Hne. unfold checkRateLimit.
  destruct (m !! id) as [r|]; [|now cbn; rewrite lookup_insert_ne].
  destruct (now >? resetAt r); [now cbn; rewrite lookup_insert_ne|].
  destruct (count r >=? N); [reflexivity|now cbn; rewrite lookup_insert_ne].
Qed.

(** A call never removes an entry. *)
Lemma checkRateLimit_keeps now id N W m id' :
  is_Some (m !! id') -> is_Some ((checkRateLimit now id N W m).2 !! id').
Proof.
  intros Hsome. destruct (decide (id = id')) as [<-|Hne].
  - unfold checkRateLimit. destruct (m !! id) as [r|] eqn:Hm; cbn.
    + destruct (now >? resetAt r); cbn; [rewrite lookup_insert_eq; eauto|].
      destruct (count r >=? N); cbn; [|rewrite lookup_insert_eq; eauto].
      rewrite Hm; eauto.
    + rewrite lookup_insert_eq; eauto.
  - now rewrite checkRateLimit_other.
Qed.

Lemma run_calls_cons N c calls m :
  run_calls N (c :: calls) m
  = let r1 := checkRateLimit (call_now c) (call_id c) N (call_window c) m in
    let r2 := run_calls N calls r1.2 in
    (r1.1 :: r2.1, r2.2).
Proof.
  cbn [run_calls].
  destruct (checkRateLimit _ _ _ _ _) as [b m1]. cbn.
  now destruct (run_calls N calls m1).
Qed.

Lemma run_calls_app N calls1 calls2 m :
  run_calls N (calls1 ++ calls2) m
  = let r1 := run_calls N calls1 m in
    let r2 := run_calls N calls2 r1.2 in
    (r1.1 ++ r2.1, r2.2).
Proof.
  revert m. induction calls1 as [|c calls1 IH]; intros m.
  - cbn. now destruct (run_calls N calls2 m).
  - rewrite <- app_comm_cons, !run_calls_cons. cbn zeta. now rewrite IH.
Qed.

Lemma run_calls_keeps N calls m id' :
  is_Some (m !! id') -> is_Some ((run_calls N calls m).2 !! id').
Proof.
  revert m. induction calls as [|c calls IH]; intros m H; [exact H|].
  rewrite run_calls_cons. cbn. now apply IH, checkRateLimit_keeps.
Qed.

Lemma verdicts_of_cons id c calls b bs :
  verdicts_of id (c :: calls) (b :: bs)
  = if String.eqb (call_id c) id then b :: verdicts_of id calls bs
    else verdicts_of id calls bs.
Proof. unfold verdicts_of. cbn. now destruct (String.eqb (call_id c) id). Qed.

Lemma map_seq_succ {A} (f : nat -> A) (k : nat) :
  map f (seq 0 (S k)) = f 0%nat :: map (fun j => f (S j)) (seq 0 k).
Proof. cbn [seq map]. now rewrite <- seq_shift, map_map. Qed.

(** Inside a window the verdicts count the record up to the limit: the
    call number [j] of the identifier is allowed when [count + j < N].
    The calls of other identifiers in between do not matter. *)
Lemma run_calls_inside N id e calls :
  forall m c,
    m !! id = Some {| count := c; resetAt := e |} ->
    Forall (fun cl => call_id cl = id -> call_now cl <= e) calls ->
    verdicts_of id calls (run_calls N calls m).1
    = map (fun j => c + Z.of_nat j <? N) (seq 0 (length (calls_by id calls))).
Proof.
  induction calls as [|cl calls IH]; intros m c Hm Hall; [reflexivity|].
  apply Forall_cons_iff in Hall as [Hcl Hall].
  rewrite run_calls_cons. cbn zeta. cbn [fst snd].
  rewrite verdicts_of_cons. unfold calls_by. cbn [List.filter].
  destruct (String.eqb_spec (call_id cl) id) as [Heq|Hne].
  - rewrite Heq. specialize (Hcl Heq).
    rewrite (checkRateLimit_inside _ _ _ _ _ _ Hm Hcl). cbn [count resetAt].
    cbn [length]. rewrite map_seq_succ. rewrite Z.add_0_r.
    destruct (Z.ltb_spec c N) as [Hlt|Hge]; cbn [fst snd]; f_equal.
    + rewrite (IH _ (c + 1)); [|now rewrite lookup_insert_eq|exact Hall].
      apply map_ext. intros j. f_equal. lia.
    + rewrite (IH _ c Hm Hall).
      apply map_ext. intros j.
      destruct (Z.ltb_spec (c + Z.of_nat j) N), (Z.ltb_spec (c + Z.of_nat (S j)) N);
        auto; lia.
  - apply IH; [|exact Hall].
    rewrite checkRateLimit_other; [exact Hm|exact Hne].
Qed.

Lemma verdicts_up_to_limit (n : nat) :
  map (fun j => 1 + Z.of_nat j <? Z.of_nat (S n)) (seq 0 (S n))
  = repeat true n ++ [false].
Proof.
  rewrite seq_S, map_app. cbn [map Nat.add]. f_equal.
  - rewrite <- (length_seq n 0) at 2. rewrite <- map_const.
    apply map_ext_in. intros j Hj%in_seq. apply Z.ltb_lt. lia.
  - f_equal. apply Z.ltb_ge. lia.
Qed.

End RateLimit.

Section RateLimitWindows.

Implicit Types (m : gmap string RateRecord) (id : string) (r : RateRecord).

(** Inside a window the expiry of the record stays what it was. *)
Lemma run_calls_inside_record N id e calls :
  forall m c,
    m !! id = Some {| count := c; resetAt := e |} ->
    Forall (fun cl => call_id cl = id -> call_now cl <= e) calls ->
    exists c', (run_calls N calls m).2 !! id = Some {| count := c'; resetAt := e |}.
Proof.
  induction calls as [|cl calls IH]; intros m c Hm Hall; [eauto|].
  apply Forall_cons_iff in Hall as [Hcl Hall].
  rewrite run_calls_cons. cbn zeta. cbn [snd].
  destruct (decide (call_id cl = id)) as [Heq|Hne].
  - rewrite Heq. specialize (Hcl Heq).
    rewrite (checkRateLimit_inside _ _ _ _ _ _ Hm Hcl). cbn [count resetAt].
    destruct (c <? N); cbn [snd].
    + apply (IH _ (c + 1)); [now rewrite lookup_insert_eq|exact Hall].
    + now apply (IH _ c).
  - apply (IH _ c); [|exact Hall].
    now rewrite checkRateLimit_other.
Qed.


Lemma opens_window_cases now m id :
  (m !! id = None \/ exists r, m !! id = Some r /\ resetAt r < now) ->
  opens_window now (m !! id) = true.
Proof.
  intros [-> | (r & -> & Hlt)]; [reflexivity|].
  cbn. rewrite Z.gtb_ltb. now apply Z.ltb_lt.
Qed.

(** The run of a first call that opens a window and of [calls] that stay
    inside it. *)
Lemma run_calls_window N id now W m calls :
  let first := {| call_now := now; call_id := id; call_window := W |} in
  opens_window now (m !! id) = true ->
  Forall (fun c => call_id c = id -> call_now c <= now + W) calls ->
  verdicts_of id (first :: calls) (run_calls N (first :: calls) m).1
  = true :: map (fun j => 1 + Z.of_nat j <? N)
                (seq 0 (length (calls_by id calls)))
  /\ exists c', (run_calls N (first :: calls) m).2 !! id
                = Some {| count := c'; resetAt := now + W |}.
Proof.
  intros first Hopen Hall. subst first. rewrite run_calls_cons. cbn zeta.
  cbn [call_now call_id call_window].
  rewrite (checkRateLimit_opens _ _ _ _ _ Hopen). cbn [fst snd].
  rewrite verdicts_of_cons. cbn [call_id]. rewrite String.eqb_refl.
  split.
  - f_equal.
    apply (run_calls_inside N id (now + W)); [now rewrite lookup_insert_eq|exact Hall].
  - apply (run_calls_inside_record N id (now + W) calls _ 1);
      [now rewrite lookup_insert_eq|exact Hall].
Qed.

(** C5, as amended.  [checkRateLimit] is a fixed-window counter per
    identifier, for every identifier, limit and window:
    - when no entry exists or now exceeds the stored expiry, the entry
      becomes count 1 with expiry now + W and the call is allowed;
    - otherwise the call is allowed iff count < N, and then the count is
      incremented; when refused, the map is left as it is;
    - for a limit N >= 1: of the calls of one identifier in one window,
      whatever the other identifiers do in between, the first N are
      allowed and the (N+1)-th is denied;
    - the first call after the window has elapsed is allowed and resets
      the count to 1. *)
Theorem checkRateLimit_fixed_window (now : Z) (id : string) (N W : Z)
    (m : gmap string RateRecord) :
  let first := {| call_now := now; call_id := id; call_window := W |} in
  ((m !! id = None \/ exists r, m !! id = Some r /\ resetAt r < now) ->
   checkRateLimit now id N W m
   = (true, <[id := {| count := 1; resetAt := now + W |}]> m))
  /\ (forall r, m !! id = Some r -> now <= resetAt r ->
        ((checkRateLimit now id N W m).1 = true <-> count r < N)
        /\ (count r < N ->
            (checkRateLimit now id N W m).2
            = <[id := {| count := count r + 1; resetAt := resetAt r |}]> m)
        /\ (N <= count r -> (checkRateLimit now id N W m).2 = m))
  /\ (1 <= N ->
      (m !! id = None \/ exists r, m !! id = Some r /\ resetAt r < now) ->
      forall calls,
        Forall (fun c => call_id c = id -> call_now c <= now + W) calls ->
        length (calls_by id calls) = Z.to_nat N ->
        verdicts_of id (first :: calls) (run_calls N (first :: calls) m).1
        = repeat true (Z.to_nat N) ++ [false])
  /\ (forall calls t,
        (m !! id = None \/ exists r, m !! id = Some r /\ resetAt r < now) ->
        Forall (fun c => call_id c = id -> call_now c <= now + W) calls ->
        now + W < t ->
        let m' := (run_calls N (first :: calls) m).2 in
        checkRateLimit t id N W m'
        = (true, <[id := {| count := 1; resetAt := t + W |}]> m')).
Proof.
  intros first. subst first. split; [|split; [|split]].
  - intros H. now apply checkRateLimit_opens, opens_window_cases.
  - intros r Hr Hnow. rewrite (checkRateLimit_inside _ _ _ _ _ _ Hr Hnow).
    destruct (Z.ltb_spec (count r) N); cbn [fst snd]; repeat split;
      intros; try reflexivity; try lia; try discriminate.
  - intros HN Hopen%opens_window_cases calls Hall Hlen.
    destruct (run_calls_window N id now W m calls Hopen Hall) as [-> _].
    rewrite Hlen.
    destruct (Z.to_nat N) as [|n] eqn:Hn; [lia|].
    replace N with (Z.of_nat (S n)) by lia.
    now rewrite verdicts_up_to_limit.
  - intros calls t Hopen%opens_window_cases Hall Ht m'.
    destruct (run_calls_window N id now W m calls Hopen Hall) as [_ [c' Hc']].
    apply checkRateLimit_opens. subst m'. rewrite Hc'. cbn.
    rewrite Z.gtb_ltb. now apply Z.ltb_lt.
Qed.

End RateLimitWindows.

Section RateLimitInvariant.

Variable L : Z.
Hypothesis L_positive : 1 <= L.

(** What holds of every entry after the calls [calls] on the empty map. *)
Lemma run_calls_entry (calls : list Call) (id : string) (r : RateRecord) :
  (run_calls L calls ∅).2 !! id = Some r ->
  1 <= count r <= L
  /\ exists pre c post,
       calls = pre ++ c :: post
       /\ call_id c = id
       /\ opens_window (call_now c) ((run_calls L pre ∅).2 !! id) = true
       /\ resetAt r = call_now c + call_window c
       /\ Forall (fun c' => call_id c' = id -> call_now c' <= resetAt r) post.
Proof.
  revert r. induction calls as [|cn calls IH] using rev_ind; intros r.
  { cbn. now rewrite lookup_empty. }
  rewrite run_calls_app. cbn zeta. cbn [snd]. rewrite run_calls_cons.
  cbn zeta. cbn [run_calls snd].
  set (m := (run_calls L calls ∅).2) in *.
  assert (Hkeep : forall r0,
             m !! id = Some r0 ->
             (call_id cn = id -> call_now cn <= resetAt r0) ->
             exists pre c post,
               calls ++ [cn] = pre ++ c :: post
               /\ call_id c = id
               /\ opens_window (call_now c) ((run_calls L pre ∅).2 !! id) = true
               /\ resetAt r0 = call_now c + call_window c
               /\ Forall (fun c' => call_id c' = id -> call_now c' <= resetAt r0)
                         post).
  { intros r0 Hr0 Hcn.
    destruct (IH r0 Hr0) as (_ & pre & c & post & -> & Hid & Hopen & Hreset & Hall).
    exists pre, c, (post ++ [cn]).
    rewrite <- app_assoc. repeat split; auto.
    apply Forall_app. split; [exact Hall|]. now constructor. }
  destruct (decide (call_id cn = id)) as [Heq|Hne].
  - rewrite Heq. unfold checkRateLimit.
    destruct (m !! id) as [r0|] eqn:Hm.
    + destruct (call_now cn >? resetAt r0) eqn:Hexp.
      * cbn [snd]. rewrite lookup_insert_eq. intros [= <-]. cbn [count resetAt].
        split; [lia|]. exists calls, cn, [].
        repeat split; auto. fold m. rewrite Hm. exact Hexp.
      * rewrite Z.gtb_ltb in Hexp. apply Z.ltb_ge in Hexp.
        destruct (IH r0 eq_refl) as [Hcount _].
        destruct (count r0 >=? L) eqn:Hfull; cbn [snd].
        -- rewrite Hm. intros [= <-]. split; [exact Hcount|].
           now apply Hkeep.
        -- rewrite lookup_insert_eq. intros [= <-]. cbn [count resetAt].
           rewrite Z.geb_leb in Hfull. apply Z.leb_gt in Hfull.
           split; [lia|]. now apply (Hkeep r0).
    + cbn [snd]. rewrite lookup_insert_eq. intros [= <-]. cbn [count resetAt].
      split; [lia|]. exists calls, cn, [].
      repeat split; auto. fold m. now rewrite Hm.
  - rewrite checkRateLimit_other by exact Hne. intros Hr.
    split; [now apply IH|]. apply Hkeep; [exact Hr|]. intros; contradiction.
Qed.

End RateLimitInvariant.

(** C10.  After any finite sequence of calls of [checkRateLimit] with one
    limit L >= 1, from the empty map: every entry has 1 <= count <= L, and
    its reset instant is now + window of the call that last created or reset
    it (a call of that identifier that opened a window, after which no call
    of the identifier came later than that instant).  A call never removes
    an entry, and neither does a sequence of calls. *)
Theorem checkRateLimit_invariant (L : Z) (calls : list Call) :
  1 <= L ->
  (forall id r,
      (run_calls L calls ∅).2 !! id = Some r ->
      1 <= count r <= L
      /\ exists pre c post,
           calls = pre ++ c :: post
           /\ call_id c = id
           /\ opens_window (call_now c) ((run_calls L pre ∅).2 !! id) = true
           /\ resetAt r = call_now c + call_window c
           /\ Forall (fun c' => call_id c' = id -> call_now c' <= resetAt r) post)
  /\ (forall now id N W (m : gmap string RateRecord) id',
        is_Some (m !! id') -> is_Some ((checkRateLimit now id N W m).2 !! id'))
  /\ (forall pre post id',
        calls = pre ++ post ->
        is_Some ((run_calls L pre ∅).2 !! id') ->
        is_Some ((run_calls L calls ∅).2 !! id')).
Proof.
  intros HL. split; [|split].
  - intros id r. now apply run_calls_entry.
  - intros. now apply checkRateLimit_keeps.
  - intros pre post id' -> H. rewrite run_calls_app. cbn zeta. cbn [snd].
    now apply run_calls_keeps.
Qed.

(** ** checkCORS *)

Lemma starts_with_spec (p s : string) :
  starts_with p s = true <-> exists post, s = p +:+ post.
Proof.
  revert s. induction p as [|a p IH]; intros s; cbn [starts_with].
  - split; [eauto|reflexivity].
  - destruct s as [|b s].
    + split; [discriminate|]. intros [post H]. discriminate H.
    + rewrite andb_true_iff, Ascii.eqb_eq, IH. split.
      * intros [-> [post ->]]. now exists post.
      * intros [post H]. cbn in H. injection H as -> ->. eauto.
Qed.

(** [includes] decides the occurrence of a substring. *)
Lemma includes_spec (s sub : string) :
  includes s sub = true <-> exists pre post, s = pre +:+ sub +:+ post.
Proof.
  induction s as [|c s IH].
  - cbn [includes]. rewrite orb_false_r, starts_with_spec. split.
    + intros [post H]. now exists EmptyString, post.
    + intros (pre & post & H). destruct pre as [|? ?]; [|discriminate H]. eauto.
  - cbn [includes]. rewrite orb_true_iff, starts_with_spec, IH. split.
    + intros [[post H] | (pre & post & H)].
      * now exists EmptyString, post.
      * exists (String c pre), post. cbn. now rewrite H.
    + intros (pre & post & H). destruct pre as [|c' pre].
      * left. now exists post.
      * right. cbn in H. injection H as _ H. eauto.
Qed.

Lemma truthy_string_spec (s : string) : truthy_string s = true <-> s <> EmptyString.
Proof. destruct s; cbn; split; congruence. Qed.

(** C7.  [checkCORS] allows an origin exactly when it is not empty and an
    entry of the configured allow-list occurs in it as a substring; an
    absent or an empty origin is refused whatever the allow-list holds; the
    origin https://app.example.com is allowed by the entry example.com. *)
Theorem checkCORS_substring (env : Env) (origin : option string) :
  (checkCORS env origin = true <->
   exists o, origin = Some o /\ o <> EmptyString
             /\ exists allowed, In allowed (ALLOWED_ORIGINS env)
                                /\ exists pre post, o = pre +:+ allowed +:+ post)
  /\ checkCORS env None = false
  /\ checkCORS env (Some EmptyString) = false
  /\ (In "example.com" (ALLOWED_ORIGINS env) ->
      checkCORS env (Some "https://app.example.com") = true).
Proof.
  split; [|split; [reflexivity|split; [reflexivity|]]].
  - unfold checkCORS. destruct origin as [o|].
    + destruct (truthy_string o) eqn:Ho; cbn [negb].
      * rewrite existsb_exists. split.
        -- intros (allowed & Hin & Hinc). exists o.
           split; [reflexivity|]. split; [now apply truthy_string_spec|].
           exists allowed. split; [exact Hin|]. now apply includes_spec.
        -- intros (o' & [= <-] & _ & allowed & Hin & Hsub).
           exists allowed. split; [exact Hin|]. now apply includes_spec.
      * split; [discriminate|].
        intros (o' & [= <-] & Hne & _). apply truthy_string_spec in Hne. congruence.
    + split; [discriminate|]. intros (o & H & _). discriminate H.
  - intros Hin. unfold checkCORS. cbn [truthy_string negb].
    apply existsb_exists. exists "example.com". split; [exact Hin|reflexivity].
Qed.

(** The entries of the allow-list are not empty ([filter(Boolean)]). *)
Lemma ALLOWED_ORIGINS_not_empty (env : Env) (allowed : string) :
  In allowed (ALLOWED_ORIGINS env) -> allowed <> EmptyString.
Proof.
  unfold ALLOWED_ORIGINS. intros [_ H]%filter_In. now apply truthy_string_spec.
Qed.

(** The allow-list is what the variable lists between its commas. *)
Example ALLOWED_ORIGINS_sample :
  ALLOWED_ORIGINS {| WEBHOOK_SECRET := None;
                     ALLOWED_ORIGINS_var := Some "https://inmopilot.es,,example.com";
                     API_KEYS_var := None |}
  = ["https://inmopilot.es"; "example.com"].
Proof. reflexivity. Qed.

(** ** POST: the order of the gates *)

Section Pipeline.

Variable env : Env.
Variable JSON_parse : string -> option JSON.
Variable supabase_insert : LeadDB -> StoreReply.
Variables (clock : Clock) (req : Request) (w : World).
Variables (counts : gmap string RateRecord) (signature timestamp : string).

Hypothesis gates : reaches_freshness env clock req w counts signature timestamp.

Let w1 : World := {| requestCounts := counts; store_calls := store_calls w |}.

Ltac pass_gates :=
  destruct gates as (Hcors & Hkey & Hrate & Hbody & Hsig & Hsig' & Hts & Hts');
  unfold POST, POST_try;
  rewrite Hcors, Hkey, Hrate, Hbody, Hsig, Hts, Hsig', Hts';
  cbn [negb orb].

(** A request that is not fresh is answered at the freshness gate. *)
Lemma POST_stale :
  verifyTimestamp (now_fresh clock) (parseInt timestamp) = false ->
  POST env JSON_parse supabase_insert clock req w
  = (rejection req 401 (ErrorBody "Request expired"), w1).
Proof. intros Hstale. pass_gates. now rewrite Hstale. Qed.

(** A fresh request is answered by what [verifySignature] does. *)
Lemma POST_invalid_signature :
  verifyTimestamp (now_fresh clock) (parseInt timestamp) = true ->
  verifySignature env (req_text req) signature None = Return false ->
  POST env JSON_parse supabase_insert clock req w
  = (rejection req 401 (ErrorBody "Invalid signature"), w1).
Proof. intros Hfresh Hverify. pass_gates. now rewrite Hfresh, Hverify. Qed.

Lemma POST_signature_throws (e : string) :
  verifyTimestamp (now_fresh clock) (parseInt timestamp) = true ->
  verifySignature env (req_text req) signature None = Throw e ->
  POST env JSON_parse supabase_insert clock req w
  = (rejection req 500 (ErrorDetails "Internal server error" e), w1).
Proof. intros Hfresh Hverify. pass_gates. now rewrite Hfresh, Hverify. Qed.

(** What [POST] does once the signature is verified. *)
Lemma POST_verified :
  verifyTimestamp (now_fresh clock) (parseInt timestamp) = true ->
  verifySignature env (req_text req) signature None = Return true ->
  POST env JSON_parse supabase_insert clock req w
  = match JSON_parse (req_text req) with
    | None => (rejection req 400 (ErrorBody "Invalid JSON"), w1)
    | Some leadData =>
        match LeadSchema_safeParse leadData with
        | failure errors =>
            (rejection req 400 (ValidationErrors "Validation failed" errors), w1)
        | success validatedLead =>
            let leadDB :=
              make_leadDB validatedLead (headers_get req "origin")
                (client_ip req) (headers_get req "user-agent")
                (parseInt timestamp) (now_iso clock) in
            let w2 := {| requestCounts := counts;
                         store_calls := store_calls w ++ [leadDB] |} in
            match supabase_insert leadDB with
            | StoreThrows e =>
                (rejection req 500 (ErrorDetails "Internal server error" e), w2)
            | StoreError e =>
                (rejection req 500 (ErrorDetails "Database error" e), w2)
            | Inserted id =>
                (rejection req 201 (Created id "Lead received successfully"), w2)
            end
        end
    end.
Proof.
  intros Hfresh Hverify. pass_gates. rewrite Hfresh, Hverify. cbn [negb].
  destruct (JSON_parse (req_text req)) as [leadData|]; [|reflexivity].
  destruct (LeadSchema_safeParse leadData) as [validatedLead|errors];
    [|reflexivity].
  cbn zeta. now destruct (supabase_insert _).
Qed.

(** The answer "Invalid signature" is given to fresh requests only. *)
Lemma POST_invalid_signature_inv (resp : Response) (w' : World) :
  POST env JSON_parse supabase_insert clock req w = (resp, w') ->
  json resp = ErrorBody "Invalid signature" ->
  verifyTimestamp (now_fresh clock) (parseInt timestamp) = true
  /\ verifySignature env (req_text req) signature None = Return false.
Proof.
  intros Hpost Hjson.
  destruct (verifyTimestamp (now_fresh clock) (parseInt timestamp)) eqn:Hfresh.
  - split; [reflexivity|].
    destruct (verifySignature env (req_text req) signature None) as [[|]|e]
      eqn:Hverify; [| reflexivity |].
    + rewrite (POST_verified Hfresh Hverify) in Hpost.
      destruct (JSON_parse (req_text req)) as [leadData|];
        [|injection Hpost as <- _; discriminate Hjson].
      destruct (LeadSchema_safeParse leadData) as [validatedLead|errors];
        [|injection Hpost as <- _; discriminate Hjson].
      cbn zeta in Hpost.
      destruct (supabase_insert _); injection Hpost as <- _; discriminate Hjson.
    + rewrite (POST_signature_throws e Hfresh Hverify) in Hpost.
      injection Hpost as <- _. discriminate Hjson.
  - rewrite (POST_stale Hfresh) in Hpost. injection Hpost as <- _.
    discriminate Hjson.
Qed.

End Pipeline.

(** ** C6 and C9: freshness comes first *)

(** C6.  A request that passes the origin, API-key, rate-limit, body and
    header gates with a stale timestamp is answered 401 "Request expired",
    whatever its signature and whatever the secret: the statement holds for
    every signature and environment, those for which [verifySignature] would
    return true, return false or throw alike.  The signature decides only
    once the timestamp is fresh: the answer "Invalid signature" implies a
    fresh timestamp, and on a fresh timestamp an exception of
    [verifySignature] is what the handler reports. *)
Theorem freshness_before_signature (env : Env) (JSON_parse : string -> option JSON)
    (supabase_insert : LeadDB -> StoreReply) (clock : Clock) (req : Request)
    (w : World) (counts : gmap string RateRecord) (signature timestamp : string) :
  reaches_freshness env clock req w counts signature timestamp ->
  let w1 := {| requestCounts := counts; store_calls := store_calls w |} in
  (verifyTimestamp (now_fresh clock) (parseInt timestamp) = false ->
   POST env JSON_parse supabase_insert clock req w
   = (rejection req 401 (ErrorBody "Request expired"), w1))
  /\ (forall resp w',
        POST env JSON_parse supabase_insert clock req w = (resp, w') ->
        json resp = ErrorBody "Invalid signature" ->
        verifyTimestamp (now_fresh clock) (parseInt timestamp) = true
        /\ verifySignature env (req_text req) signature None = Return false)
  /\ (verifyTimestamp (now_fresh clock) (parseInt timestamp) = true ->
      (verifySignature env (req_text req) signature None = Return false ->
       POST env JSON_parse supabase_insert clock req w
       = (rejection req 401 (ErrorBody "Invalid signature"), w1))
      /\ (forall e,
            verifySignature env (req_text req) signature None = Throw e ->
            POST env JSON_parse supabase_insert clock req w
            = (rejection req 500 (ErrorDetails "Internal server error" e), w1))).
Proof.
  intros gates w1. split; [|split].
  - intros Hstale. eapply POST_stale; eassumption.
  - intros resp w' Hpost Hjson.
    eapply POST_invalid_signature_inv; eassumption.
  - intros Hfresh. split.
    + intros Hverify. eapply POST_invalid_signature; eassumption.
    + intros e Hverify. eapply POST_signature_throws; eassumption.
Qed.

Lemma checkCORS_env (env env' : Env) (origin : option string) :
  ALLOWED_ORIGINS_var env' = ALLOWED_ORIGINS_var env ->
  checkCORS env' origin = checkCORS env origin.
Proof. intros H. unfold checkCORS, ALLOWED_ORIGINS. now rewrite H. Qed.

Lemma checkAPIKey_env (env env' : Env) (apiKey : option string) :
  API_KEYS_var env' = API_KEYS_var env ->
  checkAPIKey env' apiKey = checkAPIKey env apiKey.
Proof. intros H. unfold checkAPIKey, VALID_API_KEYS. now rewrite H. Qed.

(** A request whose timestamp does not parse is refused at one of the gates
    1 to 6, wherever it gets to: by a 4xx answer, with nothing handed to the
    store, and the same whatever the secret, the decoder and the store. *)
Lemma POST_unparseable (env : Env) (JSON_parse : string -> option JSON)
    (supabase_insert : LeadDB -> StoreReply) (clock : Clock) (req : Request)
    (w : World) (timestamp : string) :
  headers_get req "x-timestamp" = Some timestamp ->
  parseInt timestamp = JNaN ->
  (store_calls (POST env JSON_parse supabase_insert clock req w).2 = store_calls w
   /\ 400 <= status (POST env JSON_parse supabase_insert clock req w).1 < 500)
  /\ forall env' JSON_parse' supabase_insert',
       ALLOWED_ORIGINS_var env' = ALLOWED_ORIGINS_var env ->
       API_KEYS_var env' = API_KEYS_var env ->
       POST env' JSON_parse' supabase_insert' clock req w
       = POST env JSON_parse supabase_insert clock req w.
Proof.
  intros Hts Hnan.
  assert (Hgates :
    forall env' JSON_parse' supabase_insert',
      ALLOWED_ORIGINS_var env' = ALLOWED_ORIGINS_var env ->
      API_KEYS_var env' = API_KEYS_var env ->
      exists st body w',
        POST env' JSON_parse' supabase_insert' clock req w
        = (rejection req st body, w')
        /\ POST env JSON_parse supabase_insert clock req w
           = (rejection req st body, w')
        /\ store_calls w' = store_calls w /\ 400 <= st < 500).
  { intros env' JSON_parse' supabase_insert' Hallow Hkeys.
    unfold POST, POST_try.
    rewrite (checkCORS_env env env' _ Hallow), (checkAPIKey_env env env' _ Hkeys).
    rewrite Hts, Hnan. cbn [verifyTimestamp negb].
    destruct (checkCORS env (headers_get req "origin")); cbn [negb];
      [|do 3 eexists; repeat split; lia].
    destruct (checkAPIKey env (headers_get req "x-api-key")); cbn [negb];
      [|do 3 eexists; repeat split; lia].
    destruct (checkRateLimit _ _ _ _ _) as [[|] counts]; cbn [negb];
      [|do 3 eexists; repeat split; lia].
    destruct (truthy_string (req_text req)); cbn [negb];
      [|do 3 eexists; repeat split; lia].
    destruct (headers_get req "x-signature") as [signature|];
      [|do 3 eexists; repeat split; lia].
    destruct (negb (truthy_string signature) || negb (truthy_string timestamp));
      do 3 eexists; repeat split; lia. }
  split.
  - destruct (Hgates env JSON_parse supabase_insert eq_refl eq_refl)
      as (st & body & w' & -> & _ & Hstore & Hst).
    now split.
  - intros env' JSON_parse' supabase_insert' Hallow Hkeys.
    destruct (Hgates env' JSON_parse' supabase_insert' Hallow Hkeys)
      as (st & body & w' & -> & -> & _).
    reflexivity.
Qed.

(** *** What [parseInt] reads of a header *)

(** [parseInt] gives NaN exactly when no digit follows the white space and
    the sign. *)
Lemma parseInt_NaN_iff (s : string) :
  parseInt s = JNaN <-> starts_with_digit (after_sign s) = false.
Proof.
  unfold parseInt, after_sign.
  destruct (trim_start s) as [|c rest]; [now split|].
  destruct (is_char "-" c); cbn [orb].
  - destruct (starts_with_digit rest); split; congruence.
  - destruct (is_char "+" c).
    + destruct (starts_with_digit rest); split; congruence.
    + destruct (starts_with_digit (String c rest)); split; congruence.
Qed.

Lemma digits_value_ignores_tail (s tail : string) :
  starts_with_digit tail = false ->
  forall acc, digits_value acc (s +:+ tail) = digits_value acc s.
Proof.
  intros Htail. induction s as [|c s IH]; intros acc.
  - change ("" +:+ tail) with tail. destruct tail as [|d tail]; [reflexivity|].
    cbn [starts_with_digit] in Htail. cbn [digits_value]. now rewrite Htail.
  - rewrite Regex_facts.append_cons. cbn [digits_value].
    destruct (is_digit c); [apply IH|reflexivity].
Qed.

Lemma trim_start_ignores_tail (s tail : string) :
  trim_start s <> EmptyString ->
  trim_start (s +:+ tail) = trim_start s +:+ tail.
Proof.
  induction s as [|c s IH]; [now cbn|]. intros Hne.
  rewrite Regex_facts.append_cons. cbn [trim_start] in *.
  destruct (is_white_space c); [now apply IH|].
  now rewrite Regex_facts.append_cons.
Qed.

(** [parseInt] reads the integer at the head of a text and nothing of what
    follows it. *)
Lemma parseInt_ignores_tail (s tail : string) (v : Z) :
  parseInt s = JInt v ->
  starts_with_digit tail = false ->
  parseInt (s +:+ tail) = JInt v.
Proof.
  intros Hs Htail. unfold parseInt in *.
  assert (Hne : trim_start s <> EmptyString).
  { intros Hnil. rewrite Hnil in Hs. discriminate Hs. }
  rewrite (trim_start_ignores_tail s tail Hne).
  destruct (trim_start s) as [|c rest]; [congruence|].
  rewrite Regex_facts.append_cons.
  assert (Hdigits : forall d,
    starts_with_digit d = true -> starts_with_digit (d +:+ tail) = true).
  { intros [|x d]; [discriminate|]. now rewrite Regex_facts.append_cons. }
  destruct (is_char "-" c); [|destruct (is_char "+" c)].
  - destruct (starts_with_digit rest) eqn:Hrest; [|discriminate Hs].
    now rewrite (Hdigits _ Hrest), digits_value_ignores_tail.
  - destruct (starts_with_digit rest) eqn:Hrest; [|discriminate Hs].
    now rewrite (Hdigits _ Hrest), digits_value_ignores_tail.
  - destruct (starts_with_digit (String c rest)) eqn:Hrest; [|discriminate Hs].
    rewrite <- Regex_facts.append_cons.
    now rewrite (Hdigits _ Hrest), digits_value_ignores_tail.
Qed.

Lemma parseInt_not_empty (s : string) (v : Z) :
  parseInt s = JInt v -> truthy_string s = true.
Proof. destruct s; [discriminate|reflexivity]. Qed.

Lemma with_header_reads (req : Request) (header value : string) :
  headers_get (with_header req header value) header = Some value
  /\ req_text (with_header req header value) = req_text req
  /\ forall other, other <> header ->
       headers_get (with_header req header value) other = headers_get req other.
Proof.
  unfold headers_get, with_header. cbn [req_headers req_text].
  split; [apply lookup_insert_eq|]. split; [reflexivity|].
  intros other Hother. now apply lookup_insert_ne.
Qed.

(** [POST] reads the X-Timestamp header through [parseInt] alone: two
    texts that are read as the same number get the same answer. *)
Lemma POST_reads_timestamp (env : Env) (JSON_parse : string -> option JSON)
    (supabase_insert : LeadDB -> StoreReply) (clock : Clock) (req : Request)
    (w : World) (stamp stamp' : string) (v : Z) :
  headers_get req "x-timestamp" = Some stamp ->
  parseInt stamp = JInt v ->
  parseInt stamp' = JInt v ->
  POST env JSON_parse supabase_insert clock
    (with_header req "x-timestamp" stamp') w
  = POST env JSON_parse supabase_insert clock req w.
Proof.
  intros Hts Hv Hv'.
  destruct (with_header_reads req "x-timestamp" stamp')
    as (Hstamp & Htext & Hother).
  unfold POST, POST_try, client_ip.
  rewrite (Hother "origin"), (Hother "x-api-key"), (Hother "x-forwarded-for"),
    (Hother "x-real-ip"), (Hother "x-signature"), (Hother "user-agent")
    by discriminate.
  rewrite Hstamp, Htext, Hts.
  rewrite (parseInt_not_empty _ _ Hv), (parseInt_not_empty _ _ Hv'), Hv, Hv'.
  reflexivity.
Qed.

(** C9, as amended.  When [parseInt] reads no number from the X-Timestamp
    header of a request, which is exactly when no decimal digit follows the
    leading white space and the sign, it gives NaN and [verifyTimestamp] is
    false: a request that reaches the freshness gate is answered 401
    "Request expired".  Wherever such a request gets to, it is refused by a
    4xx answer and nothing is handed to the store; its signature is not
    verified and its body not decoded: the answer is the same for every
    secret (an unset one included, for which verifying would throw), every
    decoder and every store.  A header that starts with a number is read as
    that number, whatever text follows it, and the request is answered as
    with the number alone. *)
Theorem unparseable_timestamp_denied (env : Env)
    (JSON_parse : string -> option JSON) (supabase_insert : LeadDB -> StoreReply)
    (clock : Clock) (req : Request) (w : World) (timestamp : string) :
  headers_get req "x-timestamp" = Some timestamp ->
  parseInt timestamp = JNaN ->
  (verifyTimestamp (now_fresh clock) (parseInt timestamp) = false
   /\ (forall counts signature,
         reaches_freshness env clock req w counts signature timestamp ->
         POST env JSON_parse supabase_insert clock req w
         = (rejection req 401 (ErrorBody "Request expired"),
            {| requestCounts := counts; store_calls := store_calls w |}))
   /\ store_calls (POST env JSON_parse supabase_insert clock req w).2
      = store_calls w
   /\ 400 <= status (POST env JSON_parse supabase_insert clock req w).1 < 500
   /\ (forall env' JSON_parse' supabase_insert',
         ALLOWED_ORIGINS_var env' = ALLOWED_ORIGINS_var env ->
         API_KEYS_var env' = API_KEYS_var env ->
         POST env' JSON_parse' supabase_insert' clock req w
         = POST env JSON_parse supabase_insert clock req w))
  /\ (forall s, parseInt s = JNaN <-> starts_with_digit (after_sign s) = false)
  /\ (forall (req0 : Request) (stamp tail : string) (v : Z),
        headers_get req0 "x-timestamp" = Some stamp ->
        parseInt stamp = JInt v ->
        starts_with_digit tail = false ->
        parseInt (stamp +:+ tail) = JInt v
        /\ POST env JSON_parse supabase_insert clock
             (with_header req0 "x-timestamp" (stamp +:+ tail)) w
           = POST env JSON_parse supabase_insert clock req0 w).
Proof.
  intros Hts Hnan.
  assert (Hstale : verifyTimestamp (now_fresh clock) (parseInt timestamp) = false)
    by now rewrite Hnan.
  split; [|split; [exact parseInt_NaN_iff|]].
  - split; [exact Hstale|]. split.
    + intros counts signature gates. eapply POST_stale; eassumption.
    + destruct (POST_unparseable env JSON_parse supabase_insert clock req w
                  timestamp Hts Hnan) as [[Hstore Hstatus] Hsame].
      auto.
  - intros req0 stamp tail v Hstamp Hv Htail.
    pose proof (parseInt_ignores_tail stamp tail v Hv Htail) as Hv'.
    split; [exact Hv'|]. eapply POST_reads_timestamp; eassumption.
Qed.

(** ** LeadSchema *)

Section ZodParsers.

Context {A B : Type}.

Lemma clean_with_key (acc : Parsed (A -> B)) (field : Parsed A) :
  clean_value (with_key acc field)
  = match clean_value acc, clean_value field with
    | Some f, Some a => Some (f a)
    | _, _ => None
    end.
Proof.
  destruct acc as [[|[|] f] i1], field as [[|[|] a] i2]; reflexivity.
Qed.

Lemma clean_refine (inner : Parsed A) (check : A -> bool) (issue : ZodIssue) :
  clean_value (refine inner check issue)
  = match clean_value inner with
    | Some v => if check v then Some v else None
    | None => None
    end.
Proof.
  destruct inner as [[|d v] issues]; [reflexivity|]. cbn [refine].
  destruct d; cbn; now destruct (check v).
Qed.

Lemma safeParse_success (r : Parsed A) (v : A) :
  safeParse r = success v <-> clean_value r = Some v.
Proof.
  destruct r as [[|d x] issues]; cbn; [split; discriminate|].
  destruct d; split; congruence.
Qed.

Lemma clean_zOptional (inner : list string -> option JSON -> Parsed A)
    (at_path : list string) (input : option JSON) (a : option A) :
  clean_value (zOptional inner at_path input) = Some a ->
  (input = None /\ a = None)
  \/ exists v x, input = Some v /\ a = Some x
                 /\ clean_value (inner at_path (Some v)) = Some x.
Proof.
  destruct input as [v|]; cbn [zOptional].
  - destruct (inner at_path (Some v)) as [[|d x] issues] eqn:Hinner;
      [discriminate|].
    destruct d; [discriminate|]. intros [= <-]. right.
    exists v, x. now rewrite Hinner.
  - intros [= <-]. now left.
Qed.

Lemma zOptional_some (inner : list string -> option JSON -> Parsed A)
    (at_path : list string) (v : JSON) (x : A) :
  inner at_path (Some v) = (OK false x, []) ->
  zOptional inner at_path (Some v) = (OK false (Some x), []).
Proof. intros H. cbn [zOptional]. now rewrite H. Qed.

End ZodParsers.

Lemma clean_zString (checks : list StringCheck) (at_path : list string)
    (input : option JSON) (s : string) :
  clean_value (zString checks at_path input) = Some s ->
  input = Some (JString s) /\ flat_map (run_check at_path s) checks = [].
Proof.
  destruct input as [[| | |data| |]|]; try discriminate. cbn [zString clean_value].
  destruct (flat_map (run_check at_path data) checks) eqn:Hissues;
    [|discriminate].
  intros [= <-]. auto.
Qed.

Lemma zString_ok (checks : list StringCheck) (at_path : list string) (s : string) :
  flat_map (run_check at_path s) checks = [] ->
  zString checks at_path (Some (JString s)) = (OK false s, []).
Proof. intros H. cbn [zString]. now rewrite H. Qed.

Lemma clean_zNumber (at_path : list string) (input : option JSON) (n : jsnum) :
  clean_value (zNumber at_path input) = Some n ->
  exists z, input = Some (JNumber z) /\ n = JInt z.
Proof.
  destruct input as [[| |z| | |]|]; try discriminate.
  intros [= <-]. eauto.
Qed.

(** An optional key without checks: absent, or a string. *)
Lemma clean_optional_string (at_path : list string) (input : option JSON)
    (a : option string) :
  clean_value (optional_string at_path input) = Some a ->
  a = match input with Some (JString s) => Some s | _ => None end
  /\ forall v, input = Some v -> exists s, v = JString s.
Proof.
  intros [[-> ->] | (v & x & -> & -> & H)]%clean_zOptional.
  - split; [reflexivity|]. discriminate.
  - apply clean_zString in H as [[= ->] _]. split; [reflexivity|].
    intros v [= <-]. eauto.
Qed.

Lemma optional_string_ok (at_path : list string) (input : option JSON) :
  (forall v, input = Some v -> exists s, v = JString s) ->
  optional_string at_path input
  = (OK false match input with Some (JString s) => Some s | _ => None end, []).
Proof.
  intros H. destruct input as [v|]; [|reflexivity].
  destruct (H v eq_refl) as [s ->]. reflexivity.
Qed.

Lemma emailRegex_not_empty (e : string) :
  emailRegex_test e = true -> truthy_string e = true.
Proof. destruct e; [discriminate|reflexivity]. Qed.

Lemma long_not_empty (n : nat) (s : string) :
  (S n <= String.length s)%nat -> truthy_string s = true.
Proof. destruct s; cbn; [lia|reflexivity]. Qed.

(** What a successful parse says of the payload, key by key, and what the
    validated lead holds. *)
Lemma LeadSchema_success_inv (fields : list (string * JSON)) (lead : LeadInput) :
  LeadSchema_safeParse (JObject fields) = success lead ->
  (property "name" fields = Some (JString (name lead))
   /\ (2 <= String.length (name lead))%nat)
  /\ (email lead = payload_string "email" fields
      /\ forall v, property "email" fields = Some v ->
                   exists e, v = JString e /\ emailRegex_test e = true)
  /\ (phone lead = payload_string "phone" fields
      /\ forall v, property "phone" fields = Some v ->
                   exists p, v = JString p /\ (9 <= String.length p)%nat)
  /\ has_contact lead = true
  /\ (message lead = payload_string "message" fields
      /\ notes lead = payload_string "notes" fields)
  /\ (forall k v, In k plain_string_keys -> property k fields = Some v ->
                  exists s, v = JString s)
  /\ (forall v, property "timestamp" fields = Some v -> exists n, v = JNumber n).
Proof.
  intros H. apply safeParse_success in H. unfold LeadSchema in H.
  rewrite clean_refine in H. unfold LeadSchema_object in H.
  rewrite !clean_with_key in H. cbn [clean_value] in H.
  repeat match type of H with
         | context [clean_value ?p] =>
             let E := fresh "E" in
             destruct (clean_value p) eqn:E; [|discriminate H]
         end.
  match type of H with
  | (if ?c then _ else _) = _ => destruct c eqn:Hcontact; [|discriminate H]
  end.
  injection H as <-. cbn [name email phone message notes].
  apply clean_zString in E as [Hname Hmin].
  cbn [flat_map run_check app] in Hmin.
  destruct (String.length s <? 2)%nat eqn:Hlen; [discriminate Hmin|].
  apply Nat.ltb_ge in Hlen.
  repeat match goal with
         | E : clean_value (optional_string _ _) = Some _ |- _ =>
             apply clean_optional_string in E as [? ?]
         end.
  split; [now split|]. split; [|split; [|split; [exact Hcontact|split; [|split]]]].
  - apply clean_zOptional in E0 as [[He ->] | (v & e & He & -> & Hv)];
      unfold payload_string; rewrite He.
    + split; [reflexivity|discriminate].
    + apply clean_zString in Hv as [[= ->] Hchk].
      split; [reflexivity|]. intros v [= <-]. exists e. split; [reflexivity|].
      cbn [flat_map run_check app] in Hchk.
      now destruct (emailRegex_test e).
  - apply clean_zOptional in E1 as [[Hp ->] | (v & p & Hp & -> & Hv)];
      unfold payload_string; rewrite Hp.
    + split; [reflexivity|discriminate].
    + apply clean_zString in Hv as [[= ->] Hchk].
      split; [reflexivity|]. intros v [= <-]. exists p. split; [reflexivity|].
      cbn [flat_map run_check app] in Hchk.
      destruct (String.length p <? 9)%nat eqn:Hlen9; [discriminate Hchk|].
      now apply Nat.ltb_ge in Hlen9.
  - unfold payload_string. now subst.
  - intros k v Hk. cbn [plain_string_keys In] in Hk.
    repeat (destruct Hk as [<- | Hk]; [auto|]). contradiction.
  - apply clean_zOptional in E12 as [[Ht _] | (v & n & Ht & _ & Hv)]; rewrite Ht.
    + discriminate.
    + apply clean_zNumber in Hv as (z & [= ->] & _). intros v [= <-]. eauto.
Qed.

Lemma email_field_ok (input : option JSON) (msg : string) :
  (forall v, input = Some v -> exists e, v = JString e /\ emailRegex_test e = true) ->
  zOptional (zString [Email msg]) ["email"] input
  = (OK false match input with Some (JString e) => Some e | _ => None end, []).
Proof.
  intros H. destruct input as [v|]; [|reflexivity].
  destruct (H v eq_refl) as (e & -> & He).
  apply zOptional_some, zString_ok. cbn [flat_map run_check]. now rewrite He.
Qed.

Lemma phone_field_ok (input : option JSON) (msg : string) :
  (forall v, input = Some v -> exists p, v = JString p /\ (9 <= String.length p)%nat) ->
  zOptional (zString [Min 9 msg]) ["phone"] input
  = (OK false match input with Some (JString p) => Some p | _ => None end, []).
Proof.
  intros H. destruct input as [v|]; [|reflexivity].
  destruct (H v eq_refl) as (p & -> & Hp).
  apply zOptional_some, zString_ok. cbn [flat_map run_check].
  now rewrite (proj2 (Nat.ltb_ge _ _) Hp).
Qed.

Lemma timestamp_field_ok (input : option JSON) :
  (forall v, input = Some v -> exists n, v = JNumber n) ->
  zOptional zNumber ["timestamp"] input
  = (OK false match input with Some (JNumber n) => Some (JInt n) | _ => None end, []).
Proof.
  intros H. destruct input as [v|]; [|reflexivity].
  destruct (H v eq_refl) as (n & ->). reflexivity.
Qed.

(** A payload that meets the conditions, key by key, is accepted. *)
Lemma LeadSchema_accepts (fields : list (string * JSON)) :
  (exists n, property "name" fields = Some (JString n)
             /\ (2 <= String.length n)%nat) ->
  (forall v, property "email" fields = Some v ->
             exists e, v = JString e /\ emailRegex_test e = true) ->
  (forall v, property "phone" fields = Some v ->
             exists p, v = JString p /\ (9 <= String.length p)%nat) ->
  (is_Some (property "email" fields) \/ is_Some (property "phone" fields)) ->
  (forall k v, In k plain_string_keys -> property k fields = Some v ->
               exists s, v = JString s) ->
  (forall v, property "timestamp" fields = Some v -> exists n, v = JNumber n) ->
  exists lead, LeadSchema_safeParse (JObject fields) = success lead.
Proof.
  intros (n & Hname & Hlen) Hemail Hphone Hcontact Hplain Htime.
  unfold LeadSchema_safeParse, LeadSchema, LeadSchema_object.
  rewrite Hname, zString_ok
    by (cbn [flat_map run_check]; now rewrite (proj2 (Nat.ltb_ge _ _) Hlen)).
  rewrite (email_field_ok _ _ Hemail), (phone_field_ok _ _ Hphone),
    (timestamp_field_ok _ Htime).
  rewrite !optional_string_ok
    by (intros v Hv; eapply Hplain; [|exact Hv];
        cbn [plain_string_keys In]; repeat (first [left; reflexivity | right])).
  cbn [with_key orb app refine].
  match goal with
  | |- context [has_contact ?l] => destruct (has_contact l) eqn:Hc
  end; [eexists; reflexivity|].
  exfalso. unfold has_contact in Hc. cbn [email phone] in Hc.
  unfold or_else in Hc.
  destruct (property "email" fields) as [v|] eqn:He.
  - destruct (Hemail v eq_refl) as (e & -> & Hvalid).
    apply emailRegex_not_empty in Hvalid. cbn in Hc. rewrite Hvalid in Hc.
    cbn in Hc. congruence.
  - destruct Hcontact as [[? [=]]|[v Hv]]. rewrite Hv in Hc.
    destruct (Hphone v Hv) as (p & -> & Hp).
    apply long_not_empty in Hp. cbn in Hc. congruence.
Qed.

Lemma has_contact_present (fields : list (string * JSON)) (lead : LeadInput) :
  email lead = payload_string "email" fields ->
  phone lead = payload_string "phone" fields ->
  has_contact lead = true ->
  is_Some (property "email" fields) \/ is_Some (property "phone" fields).
Proof.
  unfold has_contact, or_else, payload_string. intros -> -> H.
  destruct (property "email" fields) as [v|]; [left; eauto|].
  destruct (property "phone" fields) as [v|]; [right; eauto|].
  discriminate H.
Qed.

(** C8, as amended.  [LeadSchema] accepts a decoded value exactly when it is
    an object in which name is a string of at least 2 characters, email
    (when present) is a valid e-mail, phone (when present) is a string of at
    least 9 characters, one of email and phone is present, and every other
    key of the schema, when present, has its declared type: a string, and a
    number for timestamp.  The record with name Al and no email or phone is
    refused with the contact issue alone; the record with name Alice and
    email a@b.com is accepted. *)
Theorem LeadSchema_accepts_iff (data : JSON) :
  ((exists lead, LeadSchema_safeParse data = success lead) <->
   exists fields,
     data = JObject fields
     /\ (exists n, property "name" fields = Some (JString n)
                   /\ (2 <= String.length n)%nat)
     /\ (forall v, property "email" fields = Some v ->
                   exists e, v = JString e /\ emailRegex_test e = true)
     /\ (forall v, property "phone" fields = Some v ->
                   exists p, v = JString p /\ (9 <= String.length p)%nat)
     /\ (is_Some (property "email" fields) \/ is_Some (property "phone" fields))
     /\ (forall k v, In k plain_string_keys -> property k fields = Some v ->
                     exists s, v = JString s)
     /\ (forall v, property "timestamp" fields = Some v -> exists n, v = JNumber n))
  /\ LeadSchema_safeParse (JObject [("name", JString "Al")]) = failure [contact_issue]
  /\ LeadSchema_safeParse
       (JObject [("name", JString "Alice"); ("email", JString "a@b.com")])
     = success {| name := "Alice"; email := Some "a@b.com"; phone := None;
                  city := None; street := None; message := None;
                  notes := None; source := None; utmSource := None;
                  utmMedium := None; utmCampaign := None; utmTerm := None;
                  utmContent := None; timestamp := None |}.
Proof.
  split; [|split; vm_compute; reflexivity].
  split.
  - intros [lead H].
    destruct data as [| | | | |fields]; try discriminate H.
    exists fields. split; [reflexivity|].
    apply LeadSchema_success_inv in H
      as ((Hname & Hlen) & (He & Hemail) & (Hp & Hphone) & Hc & _ & Hplain & Ht).
    repeat split; eauto. eapply has_contact_present; eauto.
  - intros (fields & -> & Hname & Hemail & Hphone & Hc & Hplain & Ht).
    now apply LeadSchema_accepts.
Qed.

(** C8, as stated, fails: the conditions on name, email and phone hold of a
    payload whose city is a number, and [LeadSchema] refuses it. *)
Lemma LeadSchema_rejects_mistyped_city :
  (exists n, property "name" mistyped_city = Some (JString n)
             /\ (2 <= String.length n)%nat)
  /\ (forall v, property "email" mistyped_city = Some v ->
                exists e, v = JString e /\ emailRegex_test e = true)
  /\ (forall v, property "phone" mistyped_city = Some v ->
                exists p, v = JString p /\ (9 <= String.length p)%nat)
  /\ (is_Some (property "email" mistyped_city)
      \/ is_Some (property "phone" mistyped_city))
  /\ LeadSchema_safeParse (JObject mistyped_city)
     = failure [{| path := ["city"];
                   Zod.message := "Expected string, received number" |}]
  /\ ~ exists lead, LeadSchema_safeParse (JObject mistyped_city) = success lead.
Proof.
  split; [exists "Alice"; split; [reflexivity|cbn; lia]|].
  split; [intros v [= <-]; exists "a@b.com"; split; reflexivity|].
  split; [intros v [=]|].
  split; [left; eexists; reflexivity|].
  split; [vm_compute; reflexivity|].
  intros [lead H]. vm_compute in H. discriminate H.
Qed.

(** ** The stored record *)

(** C2, as amended.  For every successfully validated lead the record that
    is handed to the store is the one of [make_leadDB], and its notes are
    the message of the payload when there is one that is not empty, and the
    notes of the payload otherwise: the message has the priority and notes
    are the fallback. *)
Theorem stored_notes_prefer_message (env : Env)
    (JSON_parse : string -> option JSON) (supabase_insert : LeadDB -> StoreReply)
    (clock : Clock) (req : Request) (w : World)
    (counts : gmap string RateRecord) (signature timestamp : string)
    (fields : list (string * JSON)) (lead : LeadInput) :
  reaches_freshness env clock req w counts signature timestamp ->
  verifyTimestamp (now_fresh clock) (parseInt timestamp) = true ->
  verifySignature env (req_text req) signature None = Return true ->
  JSON_parse (req_text req) = Some (JObject fields) ->
  LeadSchema_safeParse (JObject fields) = success lead ->
  exists record,
    store_calls (POST env JSON_parse supabase_insert clock req w).2
    = store_calls w ++ [record]
    /\ record = make_leadDB lead (headers_get req "origin") (client_ip req)
                  (headers_get req "user-agent") (parseInt timestamp)
                  (now_iso clock)
    /\ db_notes record
       = match payload_string "message" fields with
         | Some m => if truthy_string m then Some m
                     else payload_string "notes" fields
         | None => payload_string "notes" fields
         end.
Proof.
  intros gates Hfresh Hverify Hparse Hvalid.
  rewrite (POST_verified env JSON_parse supabase_insert clock req w counts
             signature timestamp gates Hfresh Hverify), Hparse, Hvalid.
  cbn zeta. eexists. split; [|split; [reflexivity|]].
  - now destruct (supabase_insert _).
  - apply LeadSchema_success_inv in Hvalid
      as (_ & _ & _ & _ & (Hm & Hn) & _).
    cbn [make_leadDB db_notes]. rewrite Hm, Hn. unfold or_else, truthy.
    now destruct (payload_string "message" fields).
Qed.

Lemma sample_request_reaches_freshness :
  reaches_freshness sample_env sample_clock
    (sample_request sample_signature "1700000000123" sample_body)
    empty_world first_counts sample_signature "1700000000123".
Proof. repeat split; vm_compute; reflexivity. Qed.

(** C2, a run: the sample request, whose payload has a message and notes. *)
Lemma stored_notes_prefer_message_witness :
  exists record,
    store_calls (POST sample_env sample_parse sample_store sample_clock
                   (sample_request sample_signature "1700000000123" sample_body)
                   empty_world).2
    = [] ++ [record]
    /\ record = make_leadDB
                  {| name := "Alice"; email := Some "a@b.com"; phone := None;
                     city := None; street := None;
                     message := Some "call me"; notes := Some "vip";
                     source := None; utmSource := None; utmMedium := None;
                     utmCampaign := None; utmTerm := None; utmContent := None;
                     timestamp := None |}
                  (Some "https://app.example.com") "unknown" None
                  (JInt 1700000000123) "2023-11-14T22:13:20.000Z"
    /\ db_notes record = Some "call me".
Proof.
  apply (stored_notes_prefer_message sample_env sample_parse sample_store
           sample_clock
           (sample_request sample_signature "1700000000123" sample_body)
           empty_world first_counts sample_signature "1700000000123"
           sample_fields).
  - exact sample_request_reaches_freshness.
  - vm_compute. reflexivity.
  - vm_compute. reflexivity.
  - vm_compute. reflexivity.
  - vm_compute. reflexivity.
Defined.

(** C2, as stated, fails: the sample request is accepted, its payload has
    the notes [vip] and the message [call me], and the stored notes are the
    message. *)
Lemma stored_notes_are_the_message :
  payload_string "notes" sample_fields = Some "vip"
  /\ payload_string "message" sample_fields = Some "call me"
  /\ exists record counts,
       POST sample_env sample_parse sample_store sample_clock
         (sample_request sample_signature "1700000000123" sample_body)
         empty_world
       = (rejection (sample_request sample_signature "1700000000123" sample_body)
            201 (Created "lead-1" "Lead received successfully"),
          {| requestCounts := counts; store_calls := [record] |})
       /\ db_notes record = Some "call me"
       /\ db_notes record <> payload_string "notes" sample_fields.
Proof.
  split; [reflexivity|]. split; [reflexivity|].
  eexists. eexists. split; [vm_compute; reflexivity|].
  split; [reflexivity|discriminate].
Qed.

(** ** Sample runs *)

(** C5, a run.  With the limit 2, of three calls of one caller in a window
    the third is denied, whatever another caller does in between. *)
Lemma checkRateLimit_fixed_window_witness :
  1 <= 2
  /\ verdicts_of "10.0.0.1"
       [call_at 0; other_call_at 5; call_at 10; call_at 60000]
       (run_calls 2 [call_at 0; other_call_at 5; call_at 10; call_at 60000] ∅).1
     = [true; true; false].
Proof.
  split; [lia|].
  apply (proj1 (proj2 (proj2
           (checkRateLimit_fixed_window 0 "10.0.0.1" 2 60000 ∅)))
           ltac:(lia) ltac:(left; reflexivity)
           [other_call_at 5; call_at 10; call_at 60000]).
  - repeat constructor; cbn; intros; try discriminate; lia.
  - reflexivity.
Defined.

(** C5, as stated, fails for the limit 0: the first call of a caller, which
    is the (0+1)-th of its window, is allowed. *)
Lemma checkRateLimit_limit_zero :
  checkRateLimit 0 "10.0.0.1" 0 60000 ∅
  = (true, <["10.0.0.1" := {| count := 1; resetAt := 60000 |}]> ∅)
  /\ verdicts_of "10.0.0.1" [call_at 0] (run_calls 0 [call_at 0] ∅).1
     <> repeat true (Z.to_nat 0) ++ [false].
Proof. split; [reflexivity|discriminate]. Qed.

(** C6, a run.  A request that is stale and correctly signed is answered
    "Request expired". *)
Lemma freshness_before_signature_witness :
  verifySignature sample_env sample_body sample_signature None = Return true
  /\ verifyTimestamp 1700000000000 (parseInt "1699999000000") = false
  /\ POST sample_env sample_parse sample_store sample_clock
       (sample_request sample_signature "1699999000000" sample_body) empty_world
     = (rejection (sample_request sample_signature "1699999000000" sample_body)
          401 (ErrorBody "Request expired"),
        {| requestCounts := first_counts; store_calls := [] |}).
Proof.
  split; [vm_compute; reflexivity|]. split; [reflexivity|].
  apply (proj1 (freshness_before_signature sample_env sample_parse sample_store
                  sample_clock
                  (sample_request sample_signature "1699999000000" sample_body)
                  empty_world first_counts sample_signature "1699999000000"
                  ltac:(repeat split; vm_compute; reflexivity))).
  reflexivity.
Defined.

(** C9, a run.  A request whose timestamp is no number is answered
    "Request expired", also where verifying its signature would throw. *)
Lemma unparseable_timestamp_denied_witness :
  parseInt "yesterday" = JNaN
  /\ verifySignature env_without_secret sample_body sample_signature None
     = Throw "WEBHOOK_SECRET environment variable is not set"
  /\ POST env_without_secret sample_parse sample_store sample_clock
       (sample_request sample_signature "yesterday" sample_body) empty_world
     = (rejection (sample_request sample_signature "yesterday" sample_body)
          401 (ErrorBody "Request expired"),
        {| requestCounts := first_counts; store_calls := [] |}).
Proof.
  split; [reflexivity|]. split; [reflexivity|].
  apply (proj1 (proj2 (proj1
           (unparseable_timestamp_denied env_without_secret sample_parse
              sample_store sample_clock
              (sample_request sample_signature "yesterday" sample_body)
              empty_world "yesterday" eq_refl eq_refl)))
           first_counts sample_signature).
  repeat split; vm_compute; reflexivity.
Defined.

(** C9, as stated, fails: the header 1700000000123zz is no decimal number,
    yet [parseInt] reads the number at its head, the request passes the
    freshness gate, its signature is verified and the lead is stored. *)
Lemma timestamp_with_trailing_text_accepted :
  parseInt "1700000000123zz" = JInt 1700000000123
  /\ verifyTimestamp (now_fresh sample_clock) (parseInt "1700000000123zz") = true
  /\ POST sample_env sample_parse sample_store sample_clock
       (sample_request sample_signature "1700000000123zz" sample_body)
       empty_world
     = (rejection (sample_request sample_signature "1700000000123zz" sample_body)
          201 (Created "lead-1" "Lead received successfully"),
        {| requestCounts := first_counts;
           store_calls :=
             [make_leadDB
                {| name := "Alice"; email := Some "a@b.com"; phone := None;
                   city := None; street := None;
                   message := Some "call me"; notes := Some "vip";
                   source := None; utmSource := None; utmMedium := None;
                   utmCampaign := None; utmTerm := None; utmContent := None;
                   timestamp := None |}
                (Some "https://app.example.com") "unknown" None
                (JInt 1700000000123) "2023-11-14T22:13:20.000Z"] |}).
Proof.
  split; [reflexivity|]. split; [reflexivity|]. vm_compute. reflexivity.
Qed.

(** C10, a run.  The counters after four calls under the limit 2. *)
Lemma checkRateLimit_invariant_witness :
  1 <= 2
  /\ (run_calls 2 [call_at 0; other_call_at 5; call_at 10; call_at 20] ∅).2
       !! "10.0.0.1" = Some {| count := 2; resetAt := 60000 |}
  /\ forall id r,
       (run_calls 2 [call_at 0; other_call_at 5; call_at 10; call_at 20] ∅).2
         !! id = Some r ->
       1 <= count r <= 2.
Proof.
  split; [lia|]. split; [reflexivity|].
  intros id r H.
  apply (proj1 (checkRateLimit_invariant 2
                  [call_at 0; other_call_at 5; call_at 10; call_at 20]
                  ltac:(lia)) id r H).
Defined.

(** * More of the code: proofs *)

(** ** Candidates of verifySignature *)

(** Strings two characters at a time, as the hex decoder reads them. *)
Lemma string_pair_ind (P : string -> Prop) :
  P EmptyString ->
  (forall c, P (String c EmptyString)) ->
  (forall a b s, P s -> P (String a (String b s))) ->
  forall s, P s.
Proof.
  intros H0 H1 H2 s.
  assert (H : P s /\ forall c, P (String c s)).
  { induction s as [|c s [IH IH']]; [auto|]. split; [apply IH'|]. auto. }
  apply H.
Qed.

Lemma unhex_is_hex (c : ascii) (v : Z) : unhex c = Some v -> is_hex c = true.
Proof.
  unfold unhex, is_hex, is_lower_hex, in_range.
  destruct ((48 <=? Z_of_ascii c) && (Z_of_ascii c <=? 57)); [reflexivity|].
  destruct ((97 <=? Z_of_ascii c) && (Z_of_ascii c <=? 102)); [reflexivity|].
  destruct ((65 <=? Z_of_ascii c) && (Z_of_ascii c <=? 70)); [reflexivity|].
  discriminate.
Qed.

(** What decodes to [n] bytes starts with [2 n] hex digits. *)
Lemma hex_decode_length (s : string) :
  forall n, length (hex_decode s) = n ->
  (2 * n <= String.length s)%nat
  /\ all_chars is_hex (take_chars (2 * n) s) = true.
Proof.
  induction s as [|c|a b s IH] using string_pair_ind; intros n; cbn [hex_decode].
  - intros <-. split; [cbn; lia|reflexivity].
  - intros <-. split; [cbn; lia|reflexivity].
  - destruct (unhex a) as [hi|] eqn:Ha; [|intros <-; split; [cbn; lia|reflexivity]].
    destruct (unhex b) as [lo|] eqn:Hb; [|intros <-; split; [cbn; lia|reflexivity]].
    cbn [length]. intros <-.
    destruct (IH _ eq_refl) as [Hlen Hall].
    replace (2 * S (length (hex_decode s)))%nat
      with (S (S (2 * length (hex_decode s)))) by lia.
    cbn [String.length take_chars all_chars].
    rewrite (unhex_is_hex _ _ Ha), (unhex_is_hex _ _ Hb), Hall.
    split; [lia|reflexivity].
Qed.

Lemma lower_hex_digit (c : ascii) :
  is_lower_hex c = true ->
  exists v, unhex c = Some v /\ 0 <= v < 16 /\ hex_digit v = c.
Proof.
  intros H.
  destruct c as [[] [] [] [] [] [] [] []]; vm_compute in H; try discriminate H;
    eexists; (split; [vm_compute; reflexivity|]); split; (lia || reflexivity).
Qed.

Lemma Z_of_byte_of_Z (z : Z) : 0 <= z < 256 -> Z_of_byte (byte_of_Z z) = z.
Proof.
  intros Hz.
  assert (Hall : forallb (fun n => Z_of_byte (byte_of_Z (Z.of_nat n)) =? Z.of_nat n)
                         (seq 0 256) = true) by (vm_compute; reflexivity).
  rewrite forallb_forall in Hall.
  specialize (Hall (Z.to_nat z)). rewrite Z2Nat.id in Hall by lia.
  apply Z.eqb_eq, Hall, in_seq. lia.
Qed.

(** Encoding what was decoded gives back a string of an even number of
    lower-case hex digits. *)
Lemma hex_encode_decode (s : string) :
  all_chars is_lower_hex s = true ->
  Nat.Even (String.length s) ->
  hex_encode (hex_decode s) = s.
Proof.
  induction s as [|c|a b s IH] using string_pair_ind; intros Hall Heven.
  - reflexivity.
  - destruct Heven as [k Hk]. cbn in Hk. lia.
  - cbn [all_chars] in Hall.
    apply andb_prop in Hall as [Ha Hall]. apply andb_prop in Hall as [Hb Hall].
    destruct (lower_hex_digit a Ha) as (hi & Hua & Hhi & <-).
    destruct (lower_hex_digit b Hb) as (lo & Hub & Hlo & <-).
    cbn [hex_decode]. rewrite Hua, Hub. cbn [hex_encode].
    rewrite Z_of_byte_of_Z by lia.
    replace ((16 * hi + lo) / 16) with hi
      by (apply (Z.div_unique _ _ hi lo); lia).
    replace ((16 * hi + lo) mod 16) with lo
      by (apply (Z.mod_unique _ _ hi lo); lia).
    rewrite IH; [reflexivity|exact Hall|].
    destruct Heven as [k Hk]. cbn [String.length] in Hk. exists (k - 1)%nat. lia.
Qed.

Lemma list_pair_ind {A} (P : list A -> Prop) :
  P [] ->
  (forall x, P [x]) ->
  (forall a b l, P l -> P (a :: b :: l)) ->
  forall l, P l.
Proof.
  intros H0 H1 H2 l.
  assert (H : P l /\ forall x, P (x :: l)).
  { induction l as [|x l [IH IH']]; [auto|]. split; [apply IH'|]. auto. }
  apply H.
Qed.

(** What decodes to [n] bytes starts with [2 n] code units whose low bytes
    are hex digits. *)
Lemma hex_decode_units_length (s : list Z) :
  forall n, length (hex_decode_units s) = n ->
  (2 * n <= length s)%nat
  /\ forallb is_hex_unit (firstn (2 * n) s) = true.
Proof.
  induction s as [|x|a b s IH] using list_pair_ind; intros n;
    cbn [hex_decode_units].
  - intros <-. split; [cbn; lia|reflexivity].
  - intros <-. split; [cbn; lia|reflexivity].
  - destruct (unhex_unit a) as [hi|] eqn:Ha;
      [|intros <-; split; [cbn; lia|reflexivity]].
    destruct (unhex_unit b) as [lo|] eqn:Hb;
      [|intros <-; split; [cbn; lia|reflexivity]].
    cbn [length]. intros <-.
    destruct (IH _ eq_refl) as [Hlen Hall].
    replace (2 * S (length (hex_decode_units s)))%nat
      with (S (S (2 * length (hex_decode_units s)))) by lia.
    cbn [length firstn forallb]. unfold is_hex_unit at 1 2.
    rewrite (unhex_is_hex _ _ Ha), (unhex_is_hex _ _ Hb), Hall.
    split; [lia|reflexivity].
Qed.

Lemma ascii_of_low_byte (c : ascii) : ascii_of_Z (Z_of_ascii c mod 256) = c.
Proof. destruct c as [[] [] [] [] [] [] [] []]; reflexivity. Qed.

(** On a string of the development the decoder of code units is the decoder
    of characters. *)
Lemma hex_decode_units_string (s : string) :
  hex_decode_units (code_units s) = hex_decode s.
Proof.
  unfold code_units.
  induction s as [|c|a b s IH] using string_pair_ind; [reflexivity..|].
  cbn [list_ascii_of_string map hex_decode_units hex_decode].
  unfold unhex_unit. rewrite !ascii_of_low_byte.
  destruct (unhex a), (unhex b); try reflexivity. now rewrite IH.
Qed.

Lemma verifySignature_units_string (env : Env) (payload signature : string)
    (secret : option string) :
  verifySignature_units env payload (code_units signature) secret
  = verifySignature env payload signature secret.
Proof.
  unfold verifySignature_units, verifySignature.
  now rewrite hex_decode_units_string.
Qed.

Lemma verifySignature_units_key (env : Env) (payload : string)
    (signature : list Z) (secret : option string) (k : string) :
  secret_or_env env secret = Return k ->
  verifySignature_units env payload signature secret
  = Return (buffer_eqb (hex_decode_units signature) (hmac_sha256 k payload)).
Proof.
  intros H. unfold verifySignature_units. rewrite H. cbn [bind].
  rewrite (generateSignature_key env payload (Some k) k)
    by (apply secret_or_env_key; eapply secret_or_env_truthy; eauto).
  cbn [bind]. rewrite hex_decode_encode. unfold timingSafeEqual.
  destruct (length (hex_decode_units signature)
            =? length (hmac_sha256 k payload))%nat
    eqn:Hlen; cbn [negb try_catch]; [reflexivity|].
  apply Nat.eqb_neq in Hlen. now rewrite buffer_eqb_length.
Qed.

(** X1.  Whatever candidate [verifySignature] accepts has at least 64 code
    units, and the low byte of each of its first 64 code units is a hex
    digit, the low byte being all that Node's decoder reads of a code unit:
    shorter candidates and candidates with another low byte among their
    first 64 code units are refused.  For a candidate whose code units are
    below 256, as the X-Signature header of a request is, this says that it
    has at least 64 characters and starts with 64 hex digits. *)
Theorem verifySignature_accepts_only_hex (env : Env) (payload : string)
    (signature : list Z) (secret : option string) :
  verifySignature_units env payload signature secret = Return true ->
  (64 <= length signature)%nat
  /\ forallb is_hex_unit (firstn 64 signature) = true
  /\ forall s,
       signature = code_units s ->
       verifySignature env payload s secret = Return true
       /\ (64 <= String.length s)%nat
       /\ all_chars is_hex (take_chars 64 s) = true.
Proof.
  intros H.
  assert (Hunits : (64 <= length signature)%nat
                   /\ forallb is_hex_unit (firstn 64 signature) = true).
  { destruct (secret_or_env env secret) as [k|e] eqn:Hk;
      [|unfold verifySignature_units in H; now rewrite Hk in H].
    rewrite (verifySignature_units_key _ _ _ _ _ Hk) in H. injection H as H.
    apply buffer_eqb_eq in H.
    apply (hex_decode_units_length signature 32).
    now rewrite H, hmac_sha256_length. }
  destruct Hunits as [Hlen Hhex]. split; [exact Hlen|]. split; [exact Hhex|].
  intros s ->. rewrite verifySignature_units_string in H.
  split; [exact H|].
  destruct (secret_or_env env secret) as [k|e] eqn:Hk;
    [|now rewrite (verifySignature_throws _ _ _ _ _ Hk) in H].
  rewrite (verifySignature_key _ _ _ _ _ Hk) in H. injection H as H.
  apply buffer_eqb_eq in H.
  apply (hex_decode_length s 32).
  now rewrite H, hmac_sha256_length.
Qed.

(** X2.  Among the candidates written as [digest('hex')] writes, 64
    lower-case hex digits, the only one that [verifySignature] accepts is
    the signature that [generateSignature] gives for the payload. *)
Theorem verifySignature_canonical (env : Env) (payload signature : string)
    (secret : option string) :
  all_chars is_lower_hex signature = true ->
  String.length signature = 64%nat ->
  (verifySignature env payload signature secret = Return true
   <-> generateSignature env payload secret = Return signature).
Proof.
  intros Hhex Hlen.
  assert (Hround : hex_encode (hex_decode signature) = signature).
  { apply hex_encode_decode; [exact Hhex|]. rewrite Hlen. now exists 32%nat. }
  destruct (secret_or_env env secret) as [k|e] eqn:Hk.
  - rewrite (verifySignature_key _ _ _ _ _ Hk), (generateSignature_key _ _ _ _ Hk).
    split.
    + intros [= H]. apply buffer_eqb_eq in H. now rewrite <- H, Hround.
    + intros [= H]. rewrite <- H, hex_decode_encode. now rewrite buffer_eqb_refl.
  - rewrite (verifySignature_throws _ _ _ _ _ Hk).
    unfold generateSignature. rewrite Hk. split; discriminate.
Qed.

Lemma verifySignature_canonical_witness :
  all_chars is_lower_hex signature_of_empty_object = true
  /\ String.length signature_of_empty_object = 64%nat
  /\ verifySignature no_env "{}" signature_of_empty_object (Some "key")
     = Return true.
Proof.
  split; [reflexivity|]. split; [reflexivity|].
  apply (proj2 (verifySignature_canonical no_env "{}" signature_of_empty_object
                  (Some "key") eq_refl eq_refl)).
  vm_compute. reflexivity.
Defined.

Lemma verifySignature_accepts_only_hex_witness :
  verifySignature_units no_env "{}" wide_candidate (Some "key") = Return true
  /\ (64 <= length wide_candidate)%nat
  /\ forallb is_hex_unit (firstn 64 wide_candidate) = true.
Proof.
  assert (H : verifySignature_units no_env "{}" wide_candidate (Some "key")
              = Return true) by (vm_compute; reflexivity).
  split; [exact H|].
  destruct (verifySignature_accepts_only_hex no_env "{}" wide_candidate
              (Some "key") H) as (Hlen & Hhex & _).
  now split.
Defined.

(** ** The form of a signature *)

Lemma hex_encode_lower (b : Buffer) :
  String.length (hex_encode b) = (2 * length b)%nat
  /\ all_chars is_lower_hex (hex_encode b) = true.
Proof.
  induction b as [|x b [IHlen IHall]]; [split; reflexivity|].
  cbn [hex_encode String.length all_chars length]. split; [lia|].
  rewrite IHall. now destruct x.
Qed.

(** X3.  A signature that [generateSignature] returns is 64 lower-case hex
    digits, whatever the payload and the secret. *)
Theorem generateSignature_form (env : Env) (payload : string)
    (secret : option string) (signature : string) :
  generateSignature env payload secret = Return signature ->
  String.length signature = 64%nat
  /\ all_chars is_lower_hex signature = true.
Proof.
  unfold generateSignature.
  destruct (secret_or_env env secret) as [k|e]; [|discriminate].
  intros [= <-].
  destruct (hex_encode_lower (hmac_sha256 k payload)) as [Hlen Hall].
  now rewrite Hlen, hmac_sha256_length.
Qed.

Lemma generateSignature_form_witness :
  generateSignature no_env "{}" (Some "key") = Return signature_of_empty_object
  /\ String.length signature_of_empty_object = 64%nat
  /\ all_chars is_lower_hex signature_of_empty_object = true.
Proof.
  assert (H : generateSignature no_env "{}" (Some "key")
              = Return signature_of_empty_object) by (vm_compute; reflexivity).
  split; [exact H|].
  apply (generateSignature_form no_env "{}" (Some "key")
           signature_of_empty_object H).
Defined.

(** ** Replays *)

(** X4.  A timestamp that is accepted at one instant is refused ten
    minutes later and from then on, and five minutes later when it did not
    lie in the future; a request with it that reaches the freshness gate
    again then is answered 401 "Request expired". *)
Theorem replay_expires (env : Env) (JSON_parse : string -> option JSON)
    (supabase_insert : LeadDB -> StoreReply) (clock : Clock) (req : Request)
    (w : World) (counts : gmap string RateRecord) (signature timestamp : string)
    (now T : Z) :
  parseInt timestamp = JInt T ->
  verifyTimestamp now (JInt T) = true ->
  (now + 600000 <= now_fresh clock
   \/ (T <= now /\ now + 300000 <= now_fresh clock)) ->
  verifyTimestamp (now_fresh clock) (JInt T) = false
  /\ (reaches_freshness env clock req w counts signature timestamp ->
      POST env JSON_parse supabase_insert clock req w
      = (rejection req 401 (ErrorBody "Request expired"),
         {| requestCounts := counts; store_calls := store_calls w |})).
Proof.
  intros Hparse Hfresh Hlater.
  assert (Hstale : verifyTimestamp (now_fresh clock) (JInt T) = false).
  { unfold verifyTimestamp, fiveMinutes in *.
    change (5 * 60 * 1000) with 300000 in *.
    apply Z.ltb_lt in Hfresh. apply Z.ltb_ge. lia. }
  split; [exact Hstale|].
  intros gates. eapply POST_stale; [eassumption|]. now rewrite Hparse.
Qed.

Lemma replay_expires_witness :
  parseInt "1700000000123" = JInt 1700000000123
  /\ verifyTimestamp 1700000000000 (JInt 1700000000123) = true
  /\ verifyTimestamp (now_fresh late_clock) (JInt 1700000000123) = false
  /\ POST sample_env sample_parse sample_store late_clock
       (sample_request sample_signature "1700000000123" sample_body)
       empty_world
     = (rejection (sample_request sample_signature "1700000000123" sample_body)
          401 (ErrorBody "Request expired"),
        {| requestCounts := first_counts;
           store_calls := store_calls empty_world |}).
Proof.
  assert (Hparse : parseInt "1700000000123" = JInt 1700000000123)
    by reflexivity.
  assert (Hfresh : verifyTimestamp 1700000000000 (JInt 1700000000123) = true)
    by reflexivity.
  assert (Hlater : 1700000000000 + 600000 <= now_fresh late_clock
                   \/ (1700000000123 <= 1700000000000
                       /\ 1700000000000 + 300000 <= now_fresh late_clock))
    by (left; cbn; lia).
  split; [exact Hparse|]. split; [exact Hfresh|].
  destruct (replay_expires sample_env sample_parse sample_store late_clock
              (sample_request sample_signature "1700000000123" sample_body)
              empty_world first_counts sample_signature "1700000000123"
              1700000000000 1700000000123 Hparse Hfresh Hlater)
    as [Hstale Hpost].
  split; [exact Hstale|].
  apply Hpost. repeat split; vm_compute; reflexivity.
Defined.

(** ** The counters of different identifiers *)

(** The verdict of a call and the record it leaves depend on the record of
    its identifier alone. *)
Lemma checkRateLimit_local (now : Z) (id : string) (N W : Z)
    (m1 m2 : gmap string RateRecord) :
  m1 !! id = m2 !! id ->
  (checkRateLimit now id N W m1).1 = (checkRateLimit now id N W m2).1
  /\ (checkRateLimit now id N W m1).2 !! id
     = (checkRateLimit now id N W m2).2 !! id.
Proof.
  intros H. unfold checkRateLimit. rewrite <- H.
  destruct (m1 !! id) as [r|] eqn:Hr; [|cbn; now rewrite !lookup_insert_eq].
  destruct (now >? resetAt r); [cbn; now rewrite !lookup_insert_eq|].
  destruct (count r >=? N); cbn; [now rewrite Hr, <- H|].
  now rewrite !lookup_insert_eq.
Qed.

Lemma run_calls_local (N : Z) (id : string) (calls : list Call) :
  forall m1 m2 : gmap string RateRecord,
    m1 !! id = m2 !! id ->
    verdicts_of id calls (run_calls N calls m1).1
    = (run_calls N (calls_by id calls) m2).1
    /\ (run_calls N calls m1).2 !! id
       = (run_calls N (calls_by id calls) m2).2 !! id.
Proof.
  induction calls as [|c calls IH]; intros m1 m2 H; [now split|].
  rewrite run_calls_cons. cbn zeta. cbn [fst snd].
  rewrite verdicts_of_cons. unfold calls_by. cbn [List.filter].
  destruct (String.eqb_spec (call_id c) id) as [Heq|Hne].
  - rewrite run_calls_cons. cbn zeta. cbn [fst snd]. rewrite Heq.
    destruct (checkRateLimit_local (call_now c) id N (call_window c) m1 m2 H)
      as [Hb Hm].
    destruct (IH _ _ Hm) as [IHb IHm]. fold (calls_by id calls).
    now rewrite Hb, IHb, IHm.
  - apply IH. now rewrite checkRateLimit_other.
Qed.

(** X5.  The identifiers do not interfere: the verdicts given to the calls
    of one identifier, and the record it is left with, are those of its own
    calls run alone; an identifier that makes no call keeps its record. *)
Theorem rate_limit_isolation (N : Z) (id : string) (calls : list Call)
    (m : gmap string RateRecord) :
  verdicts_of id calls (run_calls N calls m).1
  = (run_calls N (calls_by id calls) m).1
  /\ (run_calls N calls m).2 !! id = (run_calls N (calls_by id calls) m).2 !! id
  /\ (calls_by id calls = [] -> (run_calls N calls m).2 !! id = m !! id).
Proof.
  destruct (run_calls_local N id calls m m eq_refl) as [Hb Hm].
  split; [exact Hb|]. split; [exact Hm|].
  intros Hnone. now rewrite Hm, Hnone.
Qed.

(** ** The bound on bursts *)

Lemma allowed_between_cons (id : string) (lo hi : Z) (c : Call) (b : bool)
    (calls : list Call) (bs : list bool) :
  allowed_between id lo hi (c :: calls) (b :: bs)
  = (if allowed_in id lo hi (c, b) then 1 else 0)
    + allowed_between id lo hi calls bs.
Proof.
  unfold allowed_between. cbn [combine List.filter].
  destruct (allowed_in id lo hi (c, b)); cbn [length]; lia.
Qed.

Lemma burst_invariant_bound (N W t : Z) (entry : option RateRecord) (last A : Z) :
  burst_invariant N W t entry last A -> A <= 2 * Z.max N 1 - 1.
Proof.
  unfold burst_invariant. intros (HA & _ & H).
  destruct entry as [r|]; [|lia]. cbn zeta in H. lia.
Qed.

Lemma burst_invariant_later (N W t : Z) (entry : option RateRecord)
    (last last' A : Z) :
  last <= last' ->
  burst_invariant N W t entry last A -> burst_invariant N W t entry last' A.
Proof.
  unfold burst_invariant. intros Hle (HA & Hlast & H).
  split; [exact HA|]. split; [lia|].
  destruct entry as [r|]; [|exact H]. cbn zeta in *. lia.
Qed.

(** One call of the identifier keeps the invariant, with the call counted
    when it is allowed inside the interval. *)
Lemma burst_invariant_step (N W t : Z) (id : string)
    (m : gmap string RateRecord) (last A now : Z) :
  last <= now ->
  burst_invariant N W t (m !! id) last A ->
  let result := checkRateLimit now id N W m in
  let c := {| call_now := now; call_id := id; call_window := W |} in
  burst_invariant N W t (result.2 !! id) now
    (A + if allowed_in id t (t + W) (c, result.1) then 1 else 0).
Proof.
  intros Hle Hinv result c. subst result c.
  unfold allowed_in. cbn [fst snd call_id call_now]. rewrite String.eqb_refl.
  cbn [andb].
  unfold burst_invariant in Hinv. destruct Hinv as (HA & Hlast & H).
  unfold checkRateLimit.
  destruct (m !! id) as [r|] eqn:Hr.
  - cbn zeta in H. destruct H as (Hc & Hopened & Hlow & Hmid & Hhigh).
    destruct (now >? resetAt r) eqn:Hexp.
    + apply Z.gtb_lt in Hexp. cbn [fst snd andb]. rewrite lookup_insert_eq.
      unfold burst_invariant. cbn zeta. cbn [count resetAt].
      destruct (Z.leb_spec t now), (Z.leb_spec now (t + W)); cbn [andb]; lia.
    + rewrite Z.gtb_ltb in Hexp. apply Z.ltb_ge in Hexp.
      destruct (count r >=? N) eqn:Hfull.
      * cbn [fst snd andb]. rewrite Hr, Z.add_0_r.
        unfold burst_invariant. cbn zeta. lia.
      * rewrite Z.geb_leb in Hfull. apply Z.leb_gt in Hfull.
        cbn [fst snd andb]. rewrite lookup_insert_eq.
        unfold burst_invariant. cbn zeta. cbn [count resetAt].
        destruct (Z.leb_spec t now), (Z.leb_spec now (t + W)); cbn [andb]; lia.
  - subst A. cbn [fst snd andb]. rewrite lookup_insert_eq.
    unfold burst_invariant. cbn zeta. cbn [count resetAt].
    destruct (Z.leb_spec t now), (Z.leb_spec now (t + W)); cbn [andb]; lia.
Qed.

Lemma burst_invariant_run (N W t : Z) (id : string) (calls : list Call) :
  forall (m : gmap string RateRecord) (last A : Z),
    in_time_order last calls ->
    Forall (fun c => call_id c = id -> call_window c = W) calls ->
    burst_invariant N W t (m !! id) last A ->
    A + allowed_between id t (t + W) calls (run_calls N calls m).1
    <= 2 * Z.max N 1 - 1.
Proof.
  induction calls as [|c calls IH]; intros m last A Horder Hwin Hinv.
  - cbn. unfold allowed_between. cbn. apply burst_invariant_bound in Hinv. lia.
  - destruct Horder as [Hle Horder].
    apply Forall_cons_iff in Hwin as [Hw Hwin].
    rewrite run_calls_cons. cbn zeta. cbn [fst snd].
    rewrite allowed_between_cons, Z.add_assoc.
    destruct (decide (call_id c = id)) as [Heq|Hne].
    + pose proof (burst_invariant_step N W t id m last A (call_now c) Hle Hinv)
        as Hstep.
      cbn zeta in Hstep.
      assert (Hc : c = {| call_now := call_now c; call_id := id; call_window := W |})
        by (destruct c as [cn ci cw]; cbn in *; subst ci; now rewrite (Hw eq_refl)).
      rewrite <- Hc in Hstep. rewrite Heq, (Hw Heq).
      eapply IH; [exact Horder|exact Hwin|].
      rewrite <- Heq at 2. rewrite Heq. exact Hstep.
    + replace (allowed_in id t (t + W) (c, _)) with false.
      * rewrite Z.add_0_r. eapply IH; [exact Horder|exact Hwin|].
        rewrite checkRateLimit_other by exact Hne.
        eapply burst_invariant_later; eassumption.
      * unfold allowed_in. cbn [fst].
        now rewrite (proj2 (String.eqb_neq _ _) Hne).
Qed.

(** X6.  Bursts are bounded.  When the calls come in the order of their
    instants and those of an identifier use one window W, then from the
    empty map, in any stretch of time of length W (both ends included) at
    most 2 * max(N, 1) - 1 calls of the identifier are allowed: one window
    short of its opening call and one full window. *)
Theorem rate_limit_burst_bound (N W t first : Z) (id : string)
    (calls : list Call) :
  in_time_order first calls ->
  Forall (fun c => call_id c = id -> call_window c = W) calls ->
  allowed_between id t (t + W) calls (run_calls N calls ∅).1
  <= 2 * Z.max N 1 - 1.
Proof.
  intros Horder Hwin.
  pose proof (burst_invariant_run N W t id calls ∅ first 0 Horder Hwin) as H.
  rewrite Z.add_0_l in H. apply H.
  unfold burst_invariant. rewrite lookup_empty. lia.
Qed.

Lemma rate_limit_burst_bound_witness :
  in_time_order 0 [short_call_at 0; short_call_at 10; short_call_at 11;
                   short_call_at 11]
  /\ allowed_between "10.0.0.1" 1 (1 + 10)
       [short_call_at 0; short_call_at 10; short_call_at 11; short_call_at 11]
       (run_calls 2 [short_call_at 0; short_call_at 10; short_call_at 11;
                     short_call_at 11] ∅).1
     <= 2 * Z.max 2 1 - 1.
Proof.
  assert (Horder : in_time_order 0 [short_call_at 0; short_call_at 10;
                                    short_call_at 11; short_call_at 11])
    by (cbn; lia).
  split; [exact Horder|].
  apply (rate_limit_burst_bound 2 10 1 0 "10.0.0.1" _ Horder).
  repeat constructor.
Defined.

(** The bound is reached: with the limit 2 and a window of 10 ms, three
    calls are allowed between the instants 1 and 11. *)
Example burst_bound_reached :
  allowed_between "10.0.0.1" 1 11
    [short_call_at 0; short_call_at 10; short_call_at 11; short_call_at 11]
    (run_calls 2 [short_call_at 0; short_call_at 10; short_call_at 11;
                  short_call_at 11] ∅).1
  = 3.
Proof. reflexivity. Qed.

(** ** The lists of the configuration *)

Lemma concat_cons (sep x y : string) (l : list string) :
  String.concat sep (x :: y :: l) = x +:+ sep +:+ String.concat sep (y :: l).
Proof. reflexivity. Qed.

Lemma append_String (c : ascii) (a b : string) :
  String c a +:+ b = String c (a +:+ b).
Proof. reflexivity. Qed.

Lemma split_comma_not_nil (s : string) : split_comma s <> [].
Proof.
  destruct s as [|c s]; [discriminate|]. cbn [split_comma].
  destruct (is_char "," c); [discriminate|].
  destruct (split_comma s); discriminate.
Qed.

(** Splitting at the commas undoes joining with commas. *)
Lemma split_comma_join (entries : list string) :
  entries <> [] ->
  Forall (fun e => comma_free e = true) entries ->
  split_comma (join_commas entries) = entries.
Proof.
  unfold join_commas.
  induction entries as [|e entries IH]; [congruence|]. intros _ Hfree.
  apply Forall_cons_iff in Hfree as [He Hfree].
  destruct entries as [|e' entries].
  - clear IH Hfree. cbn [String.concat].
    induction e as [|c e IHe]; [reflexivity|].
    cbn [comma_free all_chars] in He. apply andb_prop in He as [Hc He].
    cbn [split_comma]. apply negb_true_iff in Hc. rewrite Hc.
    now rewrite (IHe He).
  - specialize (IH ltac:(discriminate) Hfree). rewrite concat_cons.
    induction e as [|c e IHe].
    + change ("" +:+ "," +:+ String.concat "," (e' :: entries))
        with (String "," (String.concat "," (e' :: entries))).
      cbn [split_comma]. change (is_char "," ",") with true. cbv iota.
      now rewrite IH.
    + cbn [comma_free all_chars] in He. apply andb_prop in He as [Hc He].
      rewrite append_String. cbn [split_comma].
      apply negb_true_iff in Hc. rewrite Hc.
      now rewrite (IHe He).
Qed.

(** An accepted key is one of the configured ones. *)
Lemma checkAPIKey_spec (env : Env) (apiKey : option string) :
  checkAPIKey env apiKey = true
  <-> exists k, apiKey = Some k /\ k <> EmptyString /\ In k (VALID_API_KEYS env).
Proof.
  unfold checkAPIKey. destruct apiKey as [k|].
  - destruct (truthy_string k) eqn:Hk; cbn [negb].
    + rewrite existsb_exists. split.
      * intros (k' & Hin & Heq). apply String.eqb_eq in Heq. subst k'.
        exists k.
        split; [reflexivity|]. split; [now apply truthy_string_spec|exact Hin].
      * intros (k' & [= <-] & _ & Hin). exists k. split; [exact Hin|].
        apply String.eqb_refl.
    + split; [discriminate|]. intros (k' & [= <-] & Hne & _).
      apply truthy_string_spec in Hne. congruence.
  - split; [discriminate|]. intros (k & [=] & _).
Qed.

(** ** The gates of [POST] *)

Section Gates.

Variable env : Env.
Variable JSON_parse : string -> option JSON.
Variable supabase_insert : LeadDB -> StoreReply.
Variables (clock : Clock) (req : Request) (w : World).

Let post : Response * World := POST env JSON_parse supabase_insert clock req w.

Let limited : bool * gmap string RateRecord :=
  checkRateLimit (now_rate clock) (client_ip req) 20 60000 (requestCounts w).

Let w1 : World := {| requestCounts := limited.2; store_calls := store_calls w |}.

(** Where a request stops among the gates 1 to 5, or that it reaches the
    freshness gate. *)
Lemma POST_gates :
  (checkCORS env (headers_get req "origin") = false
   /\ post = (rejection req 403 (ErrorBody "Origin not allowed"), w))
  \/ (checkCORS env (headers_get req "origin") = true
      /\ checkAPIKey env (headers_get req "x-api-key") = false
      /\ post = (rejection req 401 (ErrorBody "Invalid API Key"), w))
  \/ (checkCORS env (headers_get req "origin") = true
      /\ checkAPIKey env (headers_get req "x-api-key") = true
      /\ ((limited.1 = false
           /\ post = (rejection req 429 (ErrorBody "Too many requests"), w1))
          \/ (limited.1 = true /\ truthy_string (req_text req) = false
              /\ post = (rejection req 400 (ErrorBody "Empty body"), w1))
          \/ (limited.1 = true /\ truthy_string (req_text req) = true
              /\ post = (rejection req 401 (ErrorBody "Missing security headers"),
                         w1))
          \/ (limited.1 = true
              /\ exists signature timestamp,
                   reaches_freshness env clock req w limited.2
                     signature timestamp))).
Proof.
  subst post w1 limited. unfold POST, POST_try.
  destruct (checkCORS env (headers_get req "origin")) eqn:Hcors; cbn [negb];
    [|left; split; reflexivity].
  right.
  destruct (checkAPIKey env (headers_get req "x-api-key")) eqn:Hkey; cbn [negb];
    [|left; repeat split; reflexivity].
  right. split; [reflexivity|]. split; [reflexivity|].
  destruct (checkRateLimit (now_rate clock) (client_ip req) 20 60000
              (requestCounts w)) as [allowed counts] eqn:Hrate.
  cbn [fst snd].
  destruct allowed; cbn [negb]; [|left; split; reflexivity].
  right.
  destruct (truthy_string (req_text req)) eqn:Hbody; cbn [negb];
    [|left; repeat split; reflexivity].
  right.
  destruct (headers_get req "x-signature") as [signature|] eqn:Hsig;
    [|left; repeat split; reflexivity].
  destruct (headers_get req "x-timestamp") as [timestamp|] eqn:Hts;
    [|left; repeat split; reflexivity].
  destruct (truthy_string signature) eqn:Hsig'; cbn [negb orb];
    [|left; repeat split; reflexivity].
  destruct (truthy_string timestamp) eqn:Hts'; cbn [negb];
    [|left; repeat split; reflexivity].
  right. split; [reflexivity|]. exists signature, timestamp.
  unfold reaches_freshness. rewrite Hrate, Hsig, Hts. auto 10.
Qed.

(** What a request that reaches the freshness gate is answered. *)
Lemma POST_beyond_gates (counts : gmap string RateRecord)
    (signature timestamp : string) :
  reaches_freshness env clock req w counts signature timestamp ->
  let w2 := {| requestCounts := counts; store_calls := store_calls w |} in
  (verifyTimestamp (now_fresh clock) (parseInt timestamp) = false
   /\ post = (rejection req 401 (ErrorBody "Request expired"), w2))
  \/ (verifyTimestamp (now_fresh clock) (parseInt timestamp) = true
      /\ ((verifySignature env (req_text req) signature None = Return false
           /\ post = (rejection req 401 (ErrorBody "Invalid signature"), w2))
          \/ (exists e,
                verifySignature env (req_text req) signature None = Throw e
                /\ post = (rejection req 500
                             (ErrorDetails "Internal server error" e), w2))
          \/ (verifySignature env (req_text req) signature None = Return true
              /\ ((JSON_parse (req_text req) = None
                   /\ post = (rejection req 400 (ErrorBody "Invalid JSON"), w2))
                  \/ (exists data errors,
                        JSON_parse (req_text req) = Some data
                        /\ LeadSchema_safeParse data = failure errors
                        /\ post = (rejection req 400
                                     (ValidationErrors "Validation failed" errors),
                                   w2))
                  \/ (exists data lead,
                        JSON_parse (req_text req) = Some data
                        /\ LeadSchema_safeParse data = success lead
                        /\ let record := record_of clock req timestamp lead in
                           let w3 := {| requestCounts := counts;
                                        store_calls := store_calls w ++ [record] |} in
                           (exists e, supabase_insert record = StoreThrows e
                              /\ post = (rejection req 500
                                          (ErrorDetails "Internal server error" e),
                                         w3))
                           \/ (exists e, supabase_insert record = StoreError e
                                 /\ post = (rejection req 500
                                              (ErrorDetails "Database error" e),
                                            w3))
                           \/ (exists id, supabase_insert record = Inserted id
                                 /\ post = (rejection req 201
                                              (Created id "Lead received successfully"),
                                            w3))))))).
Proof.
  intros gates w2. subst post w2.
  destruct (verifyTimestamp (now_fresh clock) (parseInt timestamp)) eqn:Hfresh;
    [right; split; [reflexivity|]
    |left; split; [reflexivity|]; eapply POST_stale; eassumption].
  destruct (verifySignature env (req_text req) signature None) as [[|]|e]
    eqn:Hverify.
  - right. right. split; [reflexivity|].
    rewrite (POST_verified env JSON_parse supabase_insert clock req w counts
               signature timestamp gates Hfresh Hverify).
    destruct (JSON_parse (req_text req)) as [data|]; [|left; now split].
    right.
    destruct (LeadSchema_safeParse data) as [lead|errors] eqn:Hparse;
      [right|left; eauto].
    exists data, lead. split; [reflexivity|]. split; [exact Hparse|].
    cbn zeta. fold (record_of clock req timestamp lead).
    destruct (supabase_insert (record_of clock req timestamp lead)) eqn:Hstore;
      eauto 6.
  - left. split; [reflexivity|]. eapply POST_invalid_signature; eassumption.
  - right. left. exists e. split; [reflexivity|].
    eapply POST_signature_throws; eassumption.
Qed.

End Gates.

(** The outcomes of [POST], one goal each. *)
Ltac post_cases env JSON_parse supabase_insert clock req w :=
  destruct (POST_gates env JSON_parse supabase_insert clock req w)
    as [(Hcors & Hpost)
       |[(Hcors & Hkey & Hpost)
        |(Hcors & Hkey &
          [(Hlimit & Hpost)
          |[(Hlimit & Hbody & Hpost)
           |[(Hlimit & Hbody & Hpost)
            |(Hlimit & signature & stamp & Hgates)]]])]];
  [ | | | | |
    destruct (POST_beyond_gates env JSON_parse supabase_insert clock req w
                _ _ _ Hgates)
      as [(Hfresh & Hpost)
         |(Hfresh &
           [(Hverify & Hpost)
           |[(e & Hverify & Hpost)
            |(Hverify &
              [(Hjson & Hpost)
              |[(data & errors & Hjson & Hschema & Hpost)
               |(data & lead & Hjson & Hschema &
                 [(e & Hstore & Hpost)
                 |[(e & Hstore & Hpost)
                  |(id & Hstore & Hpost)]])]])]])] ].

Lemma app_singleton_neq {A} (l : list A) (x : A) : l <> l ++ [x].
Proof.
  intros H. apply (f_equal (@length A)) in H. rewrite length_app in H.
  cbn in H. lia.
Qed.

Lemma checkCORS_origin (env : Env) (origin : option string) :
  checkCORS env origin = true ->
  exists o, origin = Some o /\ truthy_string o = true.
Proof.
  unfold checkCORS. destruct origin as [o|]; [|discriminate].
  destruct (truthy_string o) eqn:Ho; [|discriminate].
  intros _. now exists o.
Qed.

(** ** The headers of the answers *)

(** X7.  Every answer of [POST], whatever the gate that gives it and also
    when the handler catches an exception, carries the CORS headers of the
    request's origin, the same that [OPTIONS] answers without any check: the
    origin itself when the request has a non-empty one, [*] otherwise.  An
    answer other than 403 names the origin of the request, never [*]. *)
Theorem POST_cors_headers (env : Env) (JSON_parse : string -> option JSON)
    (supabase_insert : LeadDB -> StoreReply) (clock : Clock) (req : Request)
    (w : World) :
  let response := (POST env JSON_parse supabase_insert clock req w).1 in
  headers response = getCORSHeaders (headers_get req "origin")
  /\ OPTIONS req = {| status := 200; headers := headers response;
                      json := EmptyObject |}
  /\ Access_Control_Allow_Origin (headers response)
     = match headers_get req "origin" with
       | Some (String c o) => String c o
       | _ => "*"
       end
  /\ (status response <> 403 ->
      headers_get req "origin"
      = Some (Access_Control_Allow_Origin (headers response))
      /\ checkCORS env (headers_get req "origin") = true).
Proof.
  intros response.
  assert (Hheaders : headers response = getCORSHeaders (headers_get req "origin")).
  { subst response.
    post_cases env JSON_parse supabase_insert clock req w;
      now rewrite Hpost. }
  split; [exact Hheaders|]. split; [now rewrite Hheaders|].
  split.
  { rewrite Hheaders. cbn. now destruct (headers_get req "origin") as [[|c o]|]. }
  intros Hstatus.
  assert (Hcors' : checkCORS env (headers_get req "origin") = true).
  { destruct (checkCORS env (headers_get req "origin")) eqn:Hc; [reflexivity|].
    exfalso. apply Hstatus. subst response.
    destruct (POST_gates env JSON_parse supabase_insert clock req w)
      as [(_ & Hpost) | [(Hcors & _) | (Hcors & _)]]; [|congruence..].
    now rewrite Hpost. }
  split; [|exact Hcors'].
  rewrite Hheaders. destruct (checkCORS_origin _ _ Hcors') as (o & -> & Ho).
  cbn. now rewrite Ho.
Qed.

(** ** What reaches the store *)

(** X8.  [POST] hands at most one record to the store and never takes one
    back.  It hands one over only for a request that has passed every gate:
    allowed origin, valid key, rate limit, non-empty body, both security
    headers, fresh timestamp, verified signature, a body that parses and
    that the schema accepts; the record is the one built from the validated
    lead.  The answer is 201 only if that record was handed over and the
    store answered with a row, whose id the answer carries. *)
Theorem stored_only_after_all_gates (env : Env)
    (JSON_parse : string -> option JSON)
    (supabase_insert : LeadDB -> StoreReply) (clock : Clock) (req : Request)
    (w : World) :
  let post := POST env JSON_parse supabase_insert clock req w in
  (store_calls post.2 = store_calls w
   \/ exists record, store_calls post.2 = store_calls w ++ [record])
  /\ (forall record,
        store_calls post.2 = store_calls w ++ [record] ->
        exists signature timestamp data lead,
          reaches_freshness env clock req w (requestCounts post.2)
            signature timestamp
          /\ verifyTimestamp (now_fresh clock) (parseInt timestamp) = true
          /\ verifySignature env (req_text req) signature None = Return true
          /\ JSON_parse (req_text req) = Some data
          /\ LeadSchema_safeParse data = success lead
          /\ record = record_of clock req timestamp lead)
  /\ (status post.1 = 201 ->
      exists record id,
        store_calls post.2 = store_calls w ++ [record]
        /\ supabase_insert record = Inserted id
        /\ json post.1 = Created id "Lead received successfully").
Proof.
  intros post. subst post.
  post_cases env JSON_parse supabase_insert clock req w; rewrite Hpost;
    cbn [fst snd store_calls requestCounts status json rejection];
    (split; [eauto|]);
    (split; [intros record Hrecord;
             try (now apply app_singleton_neq in Hrecord)
            |try discriminate]).
  all: try (apply app_inv_head in Hrecord; injection Hrecord as <-;
            exists signature, stamp, data, lead; auto 10).
  intros _. eauto.
Qed.

(** ** The rate limit of [POST] *)

(** The counters that [POST] leaves, and when it answers 429. *)
Lemma POST_rate_limited (env : Env) (JSON_parse : string -> option JSON)
    (supabase_insert : LeadDB -> StoreReply) (clock : Clock) (req : Request)
    (w : World) :
  let post := POST env JSON_parse supabase_insert clock req w in
  let limited :=
    checkRateLimit (now_rate clock) (client_ip req) 20 60000 (requestCounts w) in
  requestCounts post.2
  = (if authorised env req then limited.2 else requestCounts w)
  /\ (status post.1 = 429 <-> authorised env req = true /\ limited.1 = false).
Proof.
  intros post limited. subst post limited. unfold authorised.
  post_cases env JSON_parse supabase_insert clock req w; rewrite Hpost;
    cbn [fst snd store_calls requestCounts status json rejection];
    rewrite Hcors; try rewrite Hkey; cbn [andb];
    try (destruct Hgates as (_ & _ & Hrate & _); rewrite Hrate in *;
         cbn [fst snd] in * );
    try rewrite Hlimit;
    (split; [reflexivity|]);
    (split; [try discriminate|intros [? ?]; congruence]);
    auto.
Qed.

(** X9.  [POST] charges the rate limiter exactly when the origin and the
    key are accepted: then the counters are those that
    [checkRateLimit(ip, 20, 60000)] leaves, whatever happens afterwards, be
    it a rejection at a later gate, a stored lead or an exception; a
    request that is refused for its origin or key leaves the counters as
    they were.  The answer is 429 exactly when the origin and the key are
    accepted and the rate limiter refuses, and then it says "Too many
    requests" and nothing is stored. *)
Theorem POST_counts_the_request (env : Env) (JSON_parse : string -> option JSON)
    (supabase_insert : LeadDB -> StoreReply) (clock : Clock) (req : Request)
    (w : World) :
  let post := POST env JSON_parse supabase_insert clock req w in
  let limited :=
    checkRateLimit (now_rate clock) (client_ip req) 20 60000 (requestCounts w) in
  requestCounts post.2
  = (if authorised env req then limited.2 else requestCounts w)
  /\ (status post.1 = 429 <-> authorised env req = true /\ limited.1 = false)
  /\ (status post.1 = 429 ->
      post = (rejection req 429 (ErrorBody "Too many requests"),
              {| requestCounts := limited.2; store_calls := store_calls w |})).
Proof.
  intros post limited.
  destruct (POST_rate_limited env JSON_parse supabase_insert clock req w)
    as [Hcounts Hstatus].
  split; [exact Hcounts|]. split; [exact Hstatus|].
  intros H429. subst post limited.
  post_cases env JSON_parse supabase_insert clock req w;
    rewrite Hpost in H429 |- *; try discriminate H429.
  reflexivity.
Qed.

Lemma run_POST_cons env JSON_parse supabase_insert clock req requests w :
  run_POST env JSON_parse supabase_insert ((clock, req) :: requests) w
  = let r1 := POST env JSON_parse supabase_insert clock req w in
    let r2 := run_POST env JSON_parse supabase_insert requests r1.2 in
    (r1.1 :: r2.1, r2.2).
Proof.
  cbn [run_POST].
  destruct (POST env JSON_parse supabase_insert clock req w) as [r w1]. cbn.
  now destruct (run_POST env JSON_parse supabase_insert requests w1).
Qed.

(** The counters and the 429 answers of a sequence of requests with an
    accepted origin and key are those of the calls of the rate limiter. *)
Lemma run_POST_rates env JSON_parse supabase_insert requests :
  forall w,
    Forall (fun cr => authorised env cr.2 = true) requests ->
    let run := run_POST env JSON_parse supabase_insert requests w in
    let calls := run_calls 20 (map rate_call requests) (requestCounts w) in
    requestCounts run.2 = calls.2
    /\ map (fun r => negb (status r =? 429)) run.1 = calls.1.
Proof.
  induction requests as [|[clock req] requests IH]; intros w Hall;
    [now split|].
  apply Forall_cons_iff in Hall as [Hauth Hall]. cbn [snd] in Hauth.
  cbn zeta. rewrite run_POST_cons. cbn [map]. rewrite run_calls_cons.
  cbn zeta. cbn [fst snd].
  change (rate_call (clock, req))
    with {| call_now := now_rate clock; call_id := client_ip req;
            call_window := 60000 |}.
  cbn [call_now call_id call_window].
  destruct (POST_rate_limited env JSON_parse supabase_insert clock req w)
    as (Hcounts & Hstatus).
  rewrite Hauth in Hcounts.
  destruct (IH (POST env JSON_parse supabase_insert clock req w).2 Hall)
    as [IHcounts IHstatus].
  rewrite Hcounts in IHcounts, IHstatus. split; [exact IHcounts|].
  cbn [map]. f_equal; [|exact IHstatus].
  destruct (checkRateLimit (now_rate clock) (client_ip req) 20 60000
              (requestCounts w)).1 eqn:Hallowed; cbn [fst].
  - apply negb_true_iff, Z.eqb_neq. intros H429.
    apply Hstatus in H429 as [_ H429]. congruence.
  - apply negb_false_iff, Z.eqb_eq, Hstatus. now split.
Qed.

Lemma run_calls_length N calls m :
  length (run_calls N calls m).1 = length calls.
Proof.
  revert m. induction calls as [|c calls IH]; intros m; [reflexivity|].
  rewrite run_calls_cons. cbn. now rewrite IH.
Qed.

(** When every call is by one identifier, its verdicts are all of them. *)
Lemma verdicts_of_all (id : string) (calls : list Call) :
  Forall (fun c => call_id c = id) calls ->
  calls_by id calls = calls
  /\ forall verdicts, length verdicts = length calls ->
                      verdicts_of id calls verdicts = verdicts.
Proof.
  induction 1 as [|c calls Hc Hall [IHcalls IHverdicts]]; [split|split].
  - reflexivity.
  - now intros [|b bs].
  - unfold calls_by in *. cbn [List.filter].
    rewrite Hc, String.eqb_refl. now f_equal.
  - intros [|b bs] Hlen; [discriminate|].
    rewrite verdicts_of_cons, Hc, String.eqb_refl. f_equal.
    apply IHverdicts. now injection Hlen.
Qed.

(** X10.  Twenty requests a minute and no more: when requests of one
    caller with an accepted origin and key come one after the other, the
    first of them opening a window of the rate limiter and the others
    within the 60 seconds after it, the first twenty are not answered 429
    and every further one is, whatever else the requests carry. *)
Theorem twenty_requests_per_minute (env : Env)
    (JSON_parse : string -> option JSON)
    (supabase_insert : LeadDB -> StoreReply) (first : Clock * Request)
    (rest : list (Clock * Request)) (w : World) :
  Forall (fun cr => authorised env cr.2 = true
                    /\ client_ip cr.2 = client_ip first.2) (first :: rest) ->
  opens_window (now_rate first.1) (requestCounts w !! client_ip first.2) = true ->
  Forall (fun cr => now_rate cr.1 <= now_rate first.1 + 60000) rest ->
  forall (i : nat) (response : Response),
    (run_POST env JSON_parse supabase_insert (first :: rest) w).1 !! i
    = Some response ->
    (status response = 429 <-> (20 <= i)%nat).
Proof.
  intros Hall Hopen Hwindow i response Hi.
  assert (Hauth : Forall (fun cr => authorised env cr.2 = true) (first :: rest)).
  { eapply Forall_impl; [exact Hall|]. now intros cr [? _]. }
  destruct (run_POST_rates env JSON_parse supabase_insert (first :: rest) w Hauth)
    as [_ Hverdicts].
  apply Forall_cons_iff in Hall as [_ Hrest].
  assert (Hids : Forall (fun c => call_id c = client_ip first.2)
                   (map rate_call rest)).
  { apply Forall_map. eapply Forall_impl; [exact Hrest|]. now intros cr [_ ?]. }
  assert (Hinside : Forall (fun c => call_id c = client_ip first.2 ->
                                     call_now c <= now_rate first.1 + 60000)
                      (map rate_call rest)).
  { apply Forall_map. eapply Forall_impl; [exact Hwindow|]. now intros cr ? _. }
  destruct (run_calls_window 20 (client_ip first.2) (now_rate first.1) 60000
              (requestCounts w) (map rate_call rest) Hopen Hinside)
    as [Hrun _].
  destruct (verdicts_of_all (client_ip first.2) (rate_call first :: map rate_call rest))
    as [_ Hall_verdicts]; [constructor; [reflexivity|exact Hids]|].
  change {| call_now := now_rate first.1; call_id := client_ip first.2;
            call_window := 60000 |} with (rate_call first) in Hrun.
  rewrite Hall_verdicts in Hrun by apply run_calls_length.
  destruct (verdicts_of_all _ _ Hids) as [Hby _]. rewrite Hby in Hrun.
  rewrite length_map in Hrun.
  cbn [map] in Hverdicts. rewrite Hrun in Hverdicts.
  apply (f_equal (fun l => l !! i)) in Hverdicts.
  change (map ?f ?l) with (f <$> l) in Hverdicts.
  rewrite list_lookup_fmap, Hi in Hverdicts. cbn [fmap option_fmap option_map] in Hverdicts.
  destruct i as [|j].
  - cbn in Hverdicts. injection Hverdicts as Hstatus.
    apply negb_true_iff, Z.eqb_neq in Hstatus. split; [congruence|lia].
  - cbn [lookup list_lookup] in Hverdicts.
    assert (Hj : (j < length rest)%nat).
    { apply lookup_lt_Some in Hi.
      assert (Hlen : forall requests w',
                 length (run_POST env JSON_parse supabase_insert requests w').1
                 = length requests).
      { induction requests as [|[c r] requests IH]; intros w'; [reflexivity|].
        rewrite run_POST_cons. cbn. now rewrite IH. }
      rewrite Hlen in Hi. cbn [length] in Hi. lia. }
    change ((?f <$> ?l) !! j) with (list_lookup j (f <$> l)) in Hverdicts.
    pose proof (list_lookup_fmap (fun j0 : nat => 1 + Z.of_nat j0 <? 20)
                  (seq 0 (length rest)) j) as Hmap.
    unfold lookup in Hmap. rewrite Hmap in Hverdicts.
    pose proof (lookup_seq_lt 0 (length rest) j Hj) as Hseq.
    unfold lookup in Hseq. rewrite Hseq in Hverdicts.
    cbn in Hverdicts. injection Hverdicts as Hstatus.
    destruct (Z.ltb_spec (1 + Z.of_nat j) 20) as [Hlt|Hge].
    + apply negb_true_iff, Z.eqb_neq in Hstatus. split; [congruence|lia].
    + apply negb_false_iff, Z.eqb_eq in Hstatus. split; [lia|congruence].
Qed.

Lemma twenty_requests_per_minute_witness :
  (run_POST sample_env sample_parse sample_store
     ((sample_clock, bare_request) :: repeat (sample_clock, bare_request) 20)
     empty_world).1 !! 20%nat
  = Some (rejection bare_request 429 (ErrorBody "Too many requests"))
  /\ (status (rejection bare_request 429 (ErrorBody "Too many requests")) = 429
      <-> (20 <= 20)%nat).
Proof.
  assert (Hi : (run_POST sample_env sample_parse sample_store
                  ((sample_clock, bare_request)
                   :: repeat (sample_clock, bare_request) 20)
                  empty_world).1 !! 20%nat
               = Some (rejection bare_request 429 (ErrorBody "Too many requests")))
    by (vm_compute; reflexivity).
  split; [exact Hi|].
  apply (twenty_requests_per_minute sample_env sample_parse sample_store
           (sample_clock, bare_request)
           (repeat (sample_clock, bare_request) 20) empty_world);
    [| reflexivity | | exact Hi].
  - apply List.Forall_forall. intros cr Hcr.
    change (In cr (repeat (sample_clock, bare_request) 21)) in Hcr.
    apply repeat_spec in Hcr. subst cr. split; vm_compute; reflexivity.
  - apply List.Forall_forall. intros cr Hcr. apply repeat_spec in Hcr. subst cr.
    cbn. lia.
Defined.

(** ** The record that is stored *)

(** What holds of a lead that [LeadSchema] has validated. *)
Lemma LeadSchema_validated (data : JSON) (lead : LeadInput) :
  LeadSchema_safeParse data = success lead ->
  (2 <= String.length (name lead))%nat
  /\ (forall e, email lead = Some e -> emailRegex_test e = true)
  /\ (forall p, phone lead = Some p -> (9 <= String.length p)%nat)
  /\ (is_Some (email lead) \/ is_Some (phone lead)).
Proof.
  intros H. destruct data as [| | | | |fields]; try discriminate H.
  destruct (LeadSchema_success_inv fields lead H)
    as ((_ & Hname) & (Hemail & Hvalid) & (Hphone & Hlong) & Hcontact & _).
  split; [exact Hname|]. unfold payload_string in Hemail, Hphone.
  split; [|split].
  - intros e He. rewrite He in Hemail.
    destruct (property "email" fields) as [v|]; [|discriminate].
    destruct (Hvalid v eq_refl) as (e' & -> & He'). now injection Hemail as ->.
  - intros p Hp. rewrite Hp in Hphone.
    destruct (property "phone" fields) as [v|]; [|discriminate].
    destruct (Hlong v eq_refl) as (p' & -> & Hp'). now injection Hphone as ->.
  - unfold has_contact, or_else in Hcontact.
    destruct (email lead) as [e|]; [left; eauto|].
    destruct (phone lead) as [p|]; [right; eauto|discriminate].
Qed.

(** A validated lead holds the values of the payload under the keys of the
    shape. *)
Lemma LeadSchema_success_lead (fields : list (string * JSON)) (lead : LeadInput) :
  LeadSchema_safeParse (JObject fields) = success lead ->
  lead = lead_of_fields fields.
Proof.
  intros H. apply safeParse_success in H. unfold LeadSchema in H.
  rewrite clean_refine in H. unfold LeadSchema_object in H.
  rewrite !clean_with_key in H. cbn [clean_value] in H.
  repeat match type of H with
         | context [clean_value ?p] =>
             let E := fresh "E" in
             destruct (clean_value p) eqn:E; [|discriminate H]
         end.
  match type of H with
  | (if ?c then _ else _) = _ => destruct c; [|discriminate H]
  end.
  injection H as <-.
  apply clean_zString in E as [Hname _].
  repeat match goal with
         | E : clean_value (optional_string _ _) = Some _ |- _ =>
             apply clean_optional_string in E as [-> _]
         end.
  unfold lead_of_fields, payload_string, payload_number. rewrite Hname.
  cbn [default].
  apply clean_zOptional in E0 as [[He ->] | (v & e & He & -> & Hv)];
    [|apply clean_zString in Hv as [[= ->] _]]; rewrite He;
    (apply clean_zOptional in E1 as [[Hp ->] | (v1 & p & Hp & -> & Hv1)];
     [|apply clean_zString in Hv1 as [[= ->] _]]; rewrite Hp;
     (apply clean_zOptional in E12 as [[Ht ->] | (v2 & n & Ht & -> & Hv2)];
      [|apply clean_zNumber in Hv2 as (z & [= ->] & ->)]; rewrite Ht;
      reflexivity)).
Qed.

(** X11.  A record that [POST] hands to the store is a valid lead: its
    name has at least 2 characters, its e-mail (if any) is a valid e-mail,
    its phone (if any) has at least 9 characters, and it has one of the two;
    its status is Recibido and its priority media.  It is the record built
    from the keys of the payload and the headers of the request: its source
    is the source of the payload when that is a non-empty string and the
    origin of the request otherwise, so it is never empty; its metadata name
    the caller that the rate limiter counted and the instant of reception;
    its form timestamp is the timestamp of the payload when that is a number
    other than 0 and otherwise the number read from the X-Timestamp header,
    which lies within five minutes of the clock. *)
Theorem stored_record_valid (env : Env) (JSON_parse : string -> option JSON)
    (supabase_insert : LeadDB -> StoreReply) (clock : Clock) (req : Request)
    (w : World) (record : LeadDB) :
  store_calls (POST env JSON_parse supabase_insert clock req w).2
  = store_calls w ++ [record] ->
  (2 <= String.length (db_name record))%nat
  /\ (forall e, db_email record = Some e -> emailRegex_test e = true)
  /\ (forall p, db_phone record = Some p -> (9 <= String.length p)%nat)
  /\ (is_Some (db_email record) \/ is_Some (db_phone record))
  /\ (db_status record = "Recibido" /\ db_priority record = "media")
  /\ db_source record <> EmptyString
  /\ (ip_address (db_metadata record) = client_ip req
      /\ received_at (db_metadata record) = now_iso clock)
  /\ exists o stamp T fields,
       headers_get req "origin" = Some o
       /\ headers_get req "x-timestamp" = Some stamp
       /\ parseInt stamp = JInt T
       /\ Z.abs (now_fresh clock - T) < 300000
       /\ JSON_parse (req_text req) = Some (JObject fields)
       /\ record = record_of clock req stamp (lead_of_fields fields)
       /\ db_source record
          = match property "source" fields with
            | Some (JString (String c s)) => String c s
            | _ => o
            end
       /\ form_timestamp (db_metadata record)
          = match property "timestamp" fields with
            | Some (JNumber n) => if n =? 0 then JInt T else JInt n
            | _ => JInt T
            end.
Proof.
  intros Hrecord.
  post_cases env JSON_parse supabase_insert clock req w;
    rewrite Hpost in Hrecord; cbn [snd store_calls] in Hrecord;
    try (now apply app_singleton_neq in Hrecord).
  all: apply app_inv_head in Hrecord; injection Hrecord as <-.
  all: destruct (LeadSchema_validated data lead Hschema)
         as (Hname & Hemail & Hphone & Hcontact).
  all: destruct data as [| | | | |fields]; try discriminate Hschema.
  all: pose proof (LeadSchema_success_lead fields lead Hschema) as Hlead.
  all: destruct Hgates as (Hcors' & _ & _ & _ & _ & _ & Hstamp & _).
  all: destruct (checkCORS_origin _ _ Hcors') as (o & Ho & Hne).
  all: assert (Hheader : exists T, parseInt stamp = JInt T
                                   /\ Z.abs (now_fresh clock - T) < 300000)
         by (destruct (parseInt stamp) as [T|]; [|discriminate Hfresh];
             exists T; split; [reflexivity|];
             unfold verifyTimestamp, fiveMinutes in Hfresh;
             apply Z.ltb_lt in Hfresh; exact Hfresh).
  all: destruct Hheader as (T & HT & Hwindow).
  all: assert (Hsource :
         db_source (record_of clock req stamp lead)
         = match property "source" fields with
           | Some (JString (String c s)) => String c s
           | _ => o
           end)
         by (unfold record_of, make_leadDB; cbn [db_source];
             rewrite Ho, Hlead; cbn [source lead_of_fields];
             unfold payload_string, or_default, or_else;
             destruct (property "source" fields) as [[| | |[|c s]| |]|]; cbn;
             try reflexivity; now rewrite Hne).
  all: assert (Hform :
         form_timestamp (db_metadata (record_of clock req stamp lead))
         = match property "timestamp" fields with
           | Some (JNumber n) => if n =? 0 then JInt T else JInt n
           | _ => JInt T
           end)
         by (unfold record_of, make_leadDB; cbn [db_metadata form_timestamp];
             rewrite Hlead; cbn [timestamp lead_of_fields];
             unfold payload_number; rewrite HT;
             destruct (property "timestamp" fields) as [[| |n| | |]|];
             try reflexivity; cbn [truthy_num]; now destruct (n =? 0)).
  all: repeat (split; [solve [unfold record_of, make_leadDB; cbn; auto]|]).
  all: split;
    [ rewrite Hsource;
      destruct (property "source" fields) as [[| | |[|c s]| |]|];
      try discriminate; now apply truthy_string_spec
    | ].
  all: split; [split; reflexivity|].
  all: exists o, stamp, T, fields.
  all: rewrite <- Hlead; auto 12.
Qed.

Lemma stored_record_valid_witness :
  store_calls (POST sample_env sample_parse sample_store sample_clock
                 (sample_request sample_signature "1700000000123" sample_body)
                 empty_world).2
  = store_calls empty_world ++ [sample_record]
  /\ (2 <= String.length (db_name sample_record))%nat
  /\ db_source sample_record <> EmptyString
  /\ exists T, form_timestamp (db_metadata sample_record) = JInt T.
Proof.
  assert (H : store_calls
                (POST sample_env sample_parse sample_store sample_clock
                   (sample_request sample_signature "1700000000123" sample_body)
                   empty_world).2
              = store_calls empty_world ++ [sample_record])
    by (vm_compute; reflexivity).
  split; [exact H|].
  destruct (stored_record_valid sample_env sample_parse sample_store
              sample_clock
              (sample_request sample_signature "1700000000123" sample_body)
              empty_world sample_record H)
    as (Hname & _ & _ & _ & _ & Hsource & _
        & (o & stamp & T & fields & _ & _ & _ & _ & _ & _ & _ & HT)).
  split; [exact Hname|]. split; [exact Hsource|].
  destruct (property "timestamp" fields) as [[| |n| | |]|];
    try destruct (n =? 0); eauto.
Defined.

(** ** What the schema reads and reports *)

(** X12.  [LeadSchema] reads the keys of its shape and nothing else: two
    payloads that agree on these keys get the same verdict, with the same
    issues or the same lead, whatever other keys they carry; and a validated
    lead holds the values of the payload under the keys of the shape, the
    other keys being dropped. *)
Theorem LeadSchema_strips_unknown_keys (fields fields' : list (string * JSON)) :
  (forall k, In k schema_keys -> property k fields = property k fields') ->
  LeadSchema_safeParse (JObject fields) = LeadSchema_safeParse (JObject fields')
  /\ forall lead,
       LeadSchema_safeParse (JObject fields) = success lead ->
       lead = lead_of_fields fields /\ lead = lead_of_fields fields'.
Proof.
  intros Hagree.
  assert (Hsame : LeadSchema_safeParse (JObject fields)
                  = LeadSchema_safeParse (JObject fields')).
  { unfold LeadSchema_safeParse, LeadSchema, LeadSchema_object.
    repeat match goal with
           | |- context [property ?k fields] =>
               rewrite (Hagree k)
                 by (cbn [schema_keys plain_string_keys In app]; tauto)
           end.
    reflexivity. }
  split; [exact Hsame|]. intros lead Hlead. split.
  - now apply LeadSchema_success_lead.
  - rewrite Hsame in Hlead. now apply LeadSchema_success_lead.
Qed.

Lemma LeadSchema_strips_unknown_keys_witness :
  (forall k, In k schema_keys ->
             property k sample_fields_with_more = property k sample_fields)
  /\ LeadSchema_safeParse (JObject sample_fields_with_more)
     = LeadSchema_safeParse (JObject sample_fields).
Proof.
  assert (H : forall k, In k schema_keys ->
                        property k sample_fields_with_more
                        = property k sample_fields).
  { intros k Hk. cbn [schema_keys plain_string_keys In app] in Hk.
    repeat (destruct Hk as [<- | Hk]; [reflexivity|]). contradiction. }
  split; [exact H|].
  apply (LeadSchema_strips_unknown_keys sample_fields_with_more sample_fields H).
Defined.

Section Reports.

Context {A B : Type}.
Variable Q : ZodIssue -> Prop.

Lemma well_reported_with_key (acc : Parsed (A -> B)) (field : Parsed A) :
  well_reported Q acc -> well_reported Q field ->
  well_reported Q (with_key acc field).
Proof.
  unfold well_reported.
  destruct acc as [[|d1 f] i1], field as [[|d2 a] i2]; cbn [with_key snd];
    intros [H1 Q1] [H2 Q2]; (split; [|now apply Forall_app]).
  - intros _ [Hnil _]%app_eq_nil. now apply H1.
  - intros _ [Hnil _]%app_eq_nil. now apply H1.
  - intros _ [_ Hnil]%app_eq_nil. now apply H2.
  - destruct d1, d2; cbn; intros H [Hnil1 Hnil2]%app_eq_nil;
      try discriminate H; first [now apply H1 | now apply H2].
Qed.

Lemma well_reported_refine (inner : Parsed A) (check : A -> bool)
    (issue : ZodIssue) :
  well_reported Q inner -> Q issue ->
  well_reported Q (refine inner check issue).
Proof.
  unfold well_reported. destruct inner as [[|d v] issues]; cbn [refine snd];
    intros [H1 Q1] Hissue; [now split|].
  destruct (check v); cbn [snd]; [now split|]. split.
  - intros _ [_ [=]]%app_eq_nil.
  - apply Forall_app. split; [exact Q1|now constructor].
Qed.

Lemma well_reported_zOptional
    (inner : list string -> option JSON -> Parsed A) (at_path : list string)
    (input : option JSON) :
  well_reported Q (inner at_path input) ->
  well_reported Q (zOptional inner at_path input).
Proof.
  unfold well_reported. destruct input as [v|]; cbn [zOptional];
    [|intros _; split; [discriminate|constructor]].
  destruct (inner at_path (Some v)) as [p found].
  destruct p as [|dirty x]; cbn; [tauto|].
  intros [H1 Q1]. split; [|exact Q1]. destruct dirty; cbn in *; auto.
Qed.

End Reports.

Lemma well_reported_zString (Q : ZodIssue -> Prop) (checks : list StringCheck)
    (at_path : list string) (input : option JSON) :
  (forall issue, path issue = at_path -> Q issue) ->
  well_reported Q (zString checks at_path input).
Proof.
  intros HQ. unfold well_reported.
  destruct input as [[| | |data| |]|]; cbn [zString snd];
    try (split; [discriminate|repeat constructor; now apply HQ]).
  split.
  - destruct (flat_map (run_check at_path data) checks); [|discriminate].
    discriminate.
  - apply Forall_flat_map, List.Forall_forall. intros [value msg|msg] _;
      cbn [run_check];
      match goal with |- Forall _ (if ?c then _ else _) => destruct c end;
      repeat constructor; now apply HQ.
Qed.

Lemma well_reported_zNumber (Q : ZodIssue -> Prop) (at_path : list string)
    (input : option JSON) :
  (forall issue, path issue = at_path -> Q issue) ->
  well_reported Q (zNumber at_path input).
Proof.
  intros HQ. unfold well_reported.
  destruct input as [[| |n| | |]|]; cbn [zNumber snd];
    split; try discriminate; repeat constructor; now apply HQ.
Qed.

Lemma at_schema_key_path (k : string) (issue : ZodIssue) :
  In k schema_keys -> path issue = [k] -> at_schema_key issue.
Proof. intros Hk Hpath. right. eauto. Qed.

Lemma LeadSchema_well_reported (data : JSON) :
  well_reported at_schema_key (LeadSchema data).
Proof.
  unfold LeadSchema. apply well_reported_refine;
    [|apply (at_schema_key_path "email"); [cbn; tauto|reflexivity]].
  destruct data as [| | | | |fields];
    try (split; [discriminate|repeat constructor; now left]).
  unfold LeadSchema_object, optional_string.
  repeat first
    [ apply well_reported_with_key
    | apply well_reported_zOptional
    | apply well_reported_zString; intros issue Hpath;
      eapply at_schema_key_path; [|exact Hpath];
      cbn [schema_keys plain_string_keys In app]; tauto
    | apply well_reported_zNumber; intros issue Hpath;
      eapply at_schema_key_path; [|exact Hpath];
      cbn [schema_keys plain_string_keys In app]; tauto ].
  split; [discriminate|constructor].
Qed.

(** X13.  A payload that [LeadSchema] refuses comes with at least one
    issue, so the 400 answer of [POST] always says what is wrong, and every
    issue is reported at the payload itself (a payload that is no object) or
    at one key of the shape. *)
Theorem LeadSchema_failure_reports (data : JSON) (errors : list ZodIssue) :
  LeadSchema_safeParse data = failure errors ->
  errors <> []
  /\ Forall (fun issue => path issue = []
                          \/ exists k, In k schema_keys /\ path issue = [k])
       errors.
Proof.
  intros H. destruct (LeadSchema_well_reported data) as [Hclean Hpaths].
  unfold LeadSchema_safeParse, safeParse in H.
  destruct (LeadSchema data) as [[|[|] v] issues]; try discriminate H;
    injection H as <-; (split; [now apply Hclean|exact Hpaths]).
Qed.

Lemma LeadSchema_failure_reports_witness :
  LeadSchema_safeParse (JObject mistyped_city)
  = failure [invalid_type "string" ["city"] (Some (JNumber 5))]
  /\ [invalid_type "string" ["city"] (Some (JNumber 5))] <> [].
Proof.
  assert (H : LeadSchema_safeParse (JObject mistyped_city)
              = failure [invalid_type "string" ["city"] (Some (JNumber 5))])
    by (vm_compute; reflexivity).
  split; [exact H|].
  apply (LeadSchema_failure_reports (JObject mistyped_city) _ H).
Defined.

(** ** The lists of origins and keys *)

Lemma split_comma_comma_free (s : string) :
  Forall (fun piece => comma_free piece = true) (split_comma s).
Proof.
  induction s as [|c s IH]; [repeat constructor|]. cbn [split_comma].
  destruct (is_char "," c) eqn:Hc; [constructor; [reflexivity|exact IH]|].
  destruct (split_comma s) as [|piece pieces].
  - constructor; [|constructor]. cbn [comma_free all_chars]. now rewrite Hc.
  - apply Forall_cons_iff in IH as [Hpiece Hpieces].
    constructor; [|exact Hpieces]. cbn [comma_free all_chars].
    now rewrite Hc.
Qed.

(** Joining the pieces with commas gives the string back. *)
Lemma join_split_comma (s : string) : join_commas (split_comma s) = s.
Proof.
  unfold join_commas. induction s as [|c s IH]; [reflexivity|].
  cbn [split_comma]. pose proof (split_comma_not_nil s) as Hne.
  destruct (is_char "," c) eqn:Hc.
  - apply Ascii.eqb_eq in Hc. subst c.
    destruct (split_comma s) as [|piece pieces]; [congruence|].
    rewrite concat_cons, IH. reflexivity.
  - destruct (split_comma s) as [|piece pieces]; [congruence|].
    destruct pieces as [|piece' pieces].
    + cbn [String.concat] in *. now rewrite IH.
    + rewrite concat_cons in *. rewrite append_String. now rewrite IH.
Qed.

(** An entry occurs in the joined string. *)
Lemma join_commas_occurs (entries : list string) (piece : string) :
  In piece entries ->
  exists pre post, join_commas entries = pre +:+ piece +:+ post.
Proof.
  unfold join_commas. intros Hin.
  induction entries as [|p ps IH]; [contradiction|].
  destruct Hin as [-> | Hin].
  - exists EmptyString. destruct ps as [|p' ps].
    + exists EmptyString. cbn [String.concat].
      change ("" +:+ piece +:+ "") with (piece +:+ "").
      clear. induction piece as [|c piece IHp]; [reflexivity|].
      rewrite append_String. now f_equal.
    + rewrite concat_cons. now exists ("," +:+ String.concat "," (p' :: ps)).
  - destruct (IH Hin) as (pre & post & Heq). destruct ps as [|p' ps];
      [contradiction|].
    rewrite concat_cons, Heq. exists (p +:+ "," +:+ pre), post.
    clear. induction p as [|c p IHp]; [reflexivity|].
    rewrite !append_String. now f_equal.
Qed.

(** A piece occurs in the string. *)
Lemma split_comma_occurs (s piece : string) :
  In piece (split_comma s) -> exists pre post, s = pre +:+ piece +:+ post.
Proof.
  intros Hin%join_commas_occurs. now rewrite join_split_comma in Hin.
Qed.

Lemma or_default_empty (s : string) : or_default (Some s) EmptyString = s.
Proof. now destruct s. Qed.

Lemma split_comma_join_filter (entries : list string) :
  Forall (fun e => comma_free e = true) entries ->
  List.filter truthy_string (split_comma (join_commas entries))
  = List.filter truthy_string entries.
Proof.
  intros Hfree. destruct entries as [|e entries]; [reflexivity|].
  now rewrite split_comma_join.
Qed.

(** X14.  The allow-list and the list of keys are what the deployment
    lists: when the variables ALLOWED_ORIGINS and API_KEYS hold entries
    without a comma, joined by commas, [ALLOWED_ORIGINS] and
    [VALID_API_KEYS] are these entries in their order, the empty ones left
    out. *)
Theorem configured_lists (secret : option string) (origins keys : list string) :
  Forall (fun e => comma_free e = true) origins ->
  Forall (fun e => comma_free e = true) keys ->
  ALLOWED_ORIGINS (env_listing secret origins keys)
  = List.filter truthy_string origins
  /\ VALID_API_KEYS (env_listing secret origins keys)
     = List.filter truthy_string keys.
Proof.
  intros Horigins Hkeys. unfold ALLOWED_ORIGINS, VALID_API_KEYS, env_listing.
  cbn [ALLOWED_ORIGINS_var API_KEYS_var]. rewrite !or_default_empty.
  split; now apply split_comma_join_filter.
Qed.

Lemma configured_lists_witness :
  ALLOWED_ORIGINS
    (env_listing None ["https://inmopilot.es"; ""; "example.com"]
       ["client:k1"; "partner:k2"])
  = ["https://inmopilot.es"; "example.com"]
  /\ VALID_API_KEYS
       (env_listing None ["https://inmopilot.es"; ""; "example.com"]
          ["client:k1"; "partner:k2"])
     = ["client:k1"; "partner:k2"].
Proof.
  apply (configured_lists None ["https://inmopilot.es"; ""; "example.com"]
           ["client:k1"; "partner:k2"]);
    repeat constructor.
Defined.

(** X15.  [checkAPIKey] accepts a key exactly when it is not empty and is,
    as a whole, one of the pieces between the commas of API_KEYS: an
    accepted key holds no comma and occurs in the variable, and when the
    variable lists keys without a comma, the accepted keys are exactly the
    non-empty listed ones. *)
Theorem checkAPIKey_exact (env : Env) (apiKey : option string) :
  (checkAPIKey env apiKey = true <->
   exists k, apiKey = Some k /\ k <> EmptyString
             /\ In k (split_comma (or_default (API_KEYS_var env) "")))
  /\ (forall k, checkAPIKey env (Some k) = true ->
                comma_free k = true
                /\ exists pre post,
                     or_default (API_KEYS_var env) "" = pre +:+ k +:+ post)
  /\ (forall secret origins keys k,
        Forall (fun e => comma_free e = true) keys ->
        (checkAPIKey (env_listing secret origins keys) (Some k) = true
         <-> k <> EmptyString /\ In k keys)).
Proof.
  assert (Hspec : forall env' apiKey',
    checkAPIKey env' apiKey' = true <->
    exists k, apiKey' = Some k /\ k <> EmptyString
              /\ In k (split_comma (or_default (API_KEYS_var env') ""))).
  { intros env' apiKey'. rewrite checkAPIKey_spec. unfold VALID_API_KEYS.
    split; intros (k & Hk & Hne & Hin); exists k; (split; [exact Hk|]);
      (split; [exact Hne|]).
    - now apply filter_In in Hin as [Hin _].
    - apply filter_In. split; [exact Hin|]. now apply truthy_string_spec. }
  split; [apply Hspec|]. split.
  - intros k (k' & [= <-] & _ & Hin)%Hspec. split.
    + pose proof (split_comma_comma_free (or_default (API_KEYS_var env) ""))
        as Hfree.
      rewrite List.Forall_forall in Hfree. now apply Hfree.
    + now apply split_comma_occurs.
  - intros secret origins keys k Hfree. rewrite checkAPIKey_spec.
    unfold VALID_API_KEYS, env_listing. cbn [API_KEYS_var].
    rewrite or_default_empty, (split_comma_join_filter keys Hfree).
    split.
    + intros (k' & [= <-] & Hne & Hin). apply filter_In in Hin as [Hin _].
      now split.
    + intros [Hne Hin]. exists k. split; [reflexivity|]. split; [exact Hne|].
      apply filter_In. split; [exact Hin|]. now apply truthy_string_spec.
Qed.

(** ** A deployment that is not configured *)

Lemma unset_list (var : option string) :
  truthy var = false ->
  List.filter truthy_string (split_comma (or_default var "")) = [].
Proof.
  destruct var as [s|]; [|reflexivity]. cbn [truthy or_default].
  now intros ->.
Qed.

(** X16.  A deployment that is not configured refuses.  With
    ALLOWED_ORIGINS unset or empty every request is answered 403; with
    API_KEYS unset or empty no request gets beyond the key gate: it is
    answered 403 or 401 and leaves the counters and the store alone; with
    WEBHOOK_SECRET unset or empty nothing is ever stored and no request is
    answered 201: a request with a fresh timestamp that reaches the
    signature gate is answered 500, with the message of the missing
    secret. *)
Theorem unconfigured_fails_closed (env : Env)
    (JSON_parse : string -> option JSON)
    (supabase_insert : LeadDB -> StoreReply) (clock : Clock) (req : Request)
    (w : World) :
  let post := POST env JSON_parse supabase_insert clock req w in
  (truthy (ALLOWED_ORIGINS_var env) = false ->
   post = (rejection req 403 (ErrorBody "Origin not allowed"), w))
  /\ (truthy (API_KEYS_var env) = false ->
      post = (rejection req 403 (ErrorBody "Origin not allowed"), w)
      \/ post = (rejection req 401 (ErrorBody "Invalid API Key"), w))
  /\ (truthy (WEBHOOK_SECRET env) = false ->
      store_calls post.2 = store_calls w
      /\ status post.1 <> 201
      /\ forall counts signature stamp,
           reaches_freshness env clock req w counts signature stamp ->
           verifyTimestamp (now_fresh clock) (parseInt stamp) = true ->
           post = (rejection req 500
                     (ErrorDetails "Internal server error"
                        "WEBHOOK_SECRET environment variable is not set"),
                   {| requestCounts := counts; store_calls := store_calls w |})).
Proof.
  intros post. subst post. split; [|split].
  - intros Hunset.
    assert (Hcors : checkCORS env (headers_get req "origin") = false).
    { unfold checkCORS, ALLOWED_ORIGINS. rewrite (unset_list _ Hunset).
      destruct (headers_get req "origin") as [o|]; [|reflexivity].
      now destruct (truthy_string o). }
    destruct (POST_gates env JSON_parse supabase_insert clock req w)
      as [(_ & Hpost) | [(Hcors' & _) | (Hcors' & _)]];
      [exact Hpost|congruence..].
  - intros Hunset.
    assert (Hkey : checkAPIKey env (headers_get req "x-api-key") = false).
    { unfold checkAPIKey, VALID_API_KEYS. rewrite (unset_list _ Hunset).
      destruct (headers_get req "x-api-key") as [k|]; [|reflexivity].
      now destruct (truthy_string k). }
    destruct (POST_gates env JSON_parse supabase_insert clock req w)
      as [(_ & Hpost) | [(_ & _ & Hpost) | (_ & Hkey' & _)]];
      [now left|now right|congruence].
  - intros Hunset.
    assert (Hthrows : forall payload signature,
      verifySignature env payload signature None
      = Throw "WEBHOOK_SECRET environment variable is not set").
    { intros payload signature. apply verifySignature_throws.
      unfold secret_or_env, getWebhookSecret.
      destruct (WEBHOOK_SECRET env) as [s|]; [|reflexivity].
      cbn [truthy] in Hunset. now rewrite Hunset. }
    split; [|split].
    + post_cases env JSON_parse supabase_insert clock req w; rewrite Hpost;
        try reflexivity; rewrite Hthrows in Hverify; discriminate Hverify.
    + post_cases env JSON_parse supabase_insert clock req w; rewrite Hpost;
        try discriminate; rewrite Hthrows in Hverify; discriminate Hverify.
    + intros counts signature stamp Hgates Hfresh.
      eapply POST_signature_throws; eauto.
Qed.

(** The sample request on a deployment without any variable. *)
Example unconfigured_sample :
  POST no_env sample_parse sample_store sample_clock
    (sample_request sample_signature "1700000000123" sample_body) empty_world
  = (rejection (sample_request sample_signature "1700000000123" sample_body)
       403 (ErrorBody "Origin not allowed"),
     empty_world).
Proof. reflexivity. Qed.

(** ** The answers of [POST] *)

(** X17.  The answers of [POST] are these and no others: 403 for the
    origin, 401 for the key, the security headers, the timestamp and the
    signature, 429 for the rate limit, 400 for an empty body, a body that
    does not parse and a payload that the schema refuses, then with at least
    one issue, 500 with details for an exception and for an error of the
    store, and 201 with the id of the row. *)
Theorem POST_answers (env : Env) (JSON_parse : string -> option JSON)
    (supabase_insert : LeadDB -> StoreReply) (clock : Clock) (req : Request)
    (w : World) :
  let response := (POST env JSON_parse supabase_insert clock req w).1 in
  In (status response, json response)
     [(403, ErrorBody "Origin not allowed");
      (401, ErrorBody "Invalid API Key");
      (429, ErrorBody "Too many requests");
      (400, ErrorBody "Empty body");
      (401, ErrorBody "Missing security headers");
      (401, ErrorBody "Request expired");
      (401, ErrorBody "Invalid signature");
      (400, ErrorBody "Invalid JSON")]
  \/ (exists errors,
        errors <> [] /\ status response = 400
        /\ json response = ValidationErrors "Validation failed" errors)
  \/ (exists e,
        status response = 500
        /\ (json response = ErrorDetails "Internal server error" e
            \/ json response = ErrorDetails "Database error" e))
  \/ (exists id,
        status response = 201
        /\ json response = Created id "Lead received successfully").
Proof.
  intros response. subst response.
  post_cases env JSON_parse supabase_insert clock req w; rewrite Hpost;
    cbn [fst status json rejection];
    try (left; cbn [In]; tauto).
  - right. right. left. eauto.
  - right. left. exists errors. split; [|auto].
    destruct (LeadSchema_well_reported data) as [Hclean _].
    unfold LeadSchema_safeParse, safeParse in Hschema.
    destruct (LeadSchema data) as [[|[|] v] issues]; try discriminate Hschema;
      injection Hschema as <-; now apply Hclean.
  - right. right. left. eauto.
  - right. right. left. eauto.
  - right. right. right. eauto.
Qed.

(** ** The client and the server *)

Lemma digits_value_digit (c : ascii) (rest : string) (acc : Z) :
  is_digit c = true ->
  digits_value acc (String c rest)
  = digits_value (10 * acc + (Z_of_ascii c - 48)) rest.
Proof. intros H. cbn [digits_value]. now rewrite H. Qed.

Ltac digit_value :=
  match goal with
  | |- context [Z_of_ascii ?c - 48] =>
      let v := eval vm_compute in (Z_of_ascii c - 48) in
      change (Z_of_ascii c - 48) with v
  end.

Lemma digits_value_of_uint_acc (d : Decimal.uint) (acc : positive) :
  digits_value (Z.pos acc) (NilEmpty.string_of_uint d)
  = Z.pos (Pos.of_uint_acc d acc).
Proof.
  revert acc. induction d as [|d IH|d IH|d IH|d IH|d IH|d IH|d IH|d IH|d IH|d IH];
    intros acc; cbn [NilEmpty.string_of_uint Pos.of_uint_acc];
    [reflexivity|..];
    rewrite digits_value_digit by reflexivity; rewrite <- IH; f_equal;
    digit_value; lia.
Qed.

Lemma digits_value_of_uint (d : Decimal.uint) :
  digits_value 0 (NilEmpty.string_of_uint d) = Z.of_uint d.
Proof.
  unfold Z.of_uint.
  induction d as [|d IH|d IH|d IH|d IH|d IH|d IH|d IH|d IH|d IH|d IH];
    cbn [NilEmpty.string_of_uint Pos.of_uint]; [reflexivity|..];
    rewrite digits_value_digit by reflexivity; digit_value;
    [exact IH|..]; cbn [Z.of_N]; rewrite <- digits_value_of_uint_acc;
    reflexivity.
Qed.

Lemma parseInt_digits (c : ascii) (rest : string) :
  is_digit c = true ->
  parseInt (String c rest) = JInt (digits_value 0 (String c rest))
  /\ parseInt (String "-" (String c rest))
     = JInt (- digits_value 0 (String c rest)).
Proof.
  intros Hc.
  assert (Hclass : is_white_space c = false /\ is_char "-" c = false
                   /\ is_char "+" c = false).
  { destruct c as [[] [] [] [] [] [] [] []]; vm_compute in Hc;
      try discriminate Hc; repeat split; reflexivity. }
  destruct Hclass as (Hspace & Hminus & Hplus).
  split; unfold parseInt; cbn [trim_start].
  - rewrite Hspace, Hminus, Hplus. cbn [starts_with_digit]. rewrite Hc.
    f_equal. lia.
  - change (is_white_space "-"%char) with false. cbv iota.
    change (is_char "-" "-"%char) with true. cbv iota.
    cbn [starts_with_digit]. now rewrite Hc.
Qed.

Lemma string_of_uint_digits (d : Decimal.uint) :
  exists c rest,
    NilZero.string_of_uint d = String c rest /\ is_digit c = true
    /\ digits_value 0 (String c rest) = Z.of_uint d.
Proof.
  destruct d as [|d|d|d|d|d|d|d|d|d|d];
    [exists "0"%char, EmptyString; repeat split; reflexivity|..];
    (eexists; eexists; split; [reflexivity|]; split; [reflexivity|]);
    match goal with
    | |- digits_value 0 ?s = Z.of_uint ?u =>
        change s with (NilEmpty.string_of_uint u)
    end;
    apply digits_value_of_uint.
Qed.

(** [parseInt] reads what [toString] writes. *)
Lemma parseInt_string_of_int (i : Decimal.int) :
  parseInt (NilZero.string_of_int i) = JInt (Z.of_int i).
Proof.
  destruct i as [d|d]; cbn [NilZero.string_of_int Z.of_int];
    destruct (string_of_uint_digits d) as (c & rest & -> & Hc & <-);
    now apply parseInt_digits.
Qed.

Lemma of_uint_acc_lower (d : Decimal.uint) (acc : positive) :
  Z.pos acc * 10 ^ Z.of_nat (Decimal.nb_digits d)
  <= Z.pos (Pos.of_uint_acc d acc).
Proof.
  revert acc.
  induction d as [|d IH|d IH|d IH|d IH|d IH|d IH|d IH|d IH|d IH|d IH];
    intros acc; cbn [Decimal.nb_digits Pos.of_uint_acc];
    [rewrite Z.pow_0_r; lia|..];
    rewrite Nat2Z.inj_succ, Z.pow_succ_r by lia;
    (etransitivity; [|apply IH]);
    assert (0 < 10 ^ Z.of_nat (Decimal.nb_digits d)) by (apply Z.pow_pos_nonneg; lia);
    nia.
Qed.

Lemma string_of_uint_length (d : Decimal.uint) :
  String.length (NilEmpty.string_of_uint d) = Decimal.nb_digits d.
Proof.
  induction d; cbn [NilEmpty.string_of_uint String.length Decimal.nb_digits];
    auto.
Qed.

(** A safe integer is written with at most 16 digits. *)
Lemma to_uint_digits (p : positive) :
  Z.pos p <= 2 ^ 53 -> (Decimal.nb_digits (Pos.to_uint p) <= 16)%nat.
Proof.
  intros Hp.
  pose proof (DecimalPos.Unsigned.of_to p) as Hof.
  pose proof (DecimalPos.Unsigned.to_uint_nonzero p) as Hnonzero.
  pose proof (DecimalPos.Unsigned.to_uint_nonnil p) as Hnonnil.
  assert (Hnorm : Pos.to_uint p = Decimal.unorm (Pos.to_uint p)).
  { pose proof (DecimalPos.Unsigned.to_of (Pos.to_uint p)) as H.
    rewrite Hof in H. exact H. }
  assert (Hhead : forall d', Pos.to_uint p <> Decimal.D0 d').
  { intros d' Hd'. rewrite Hnorm in Hd'.
    assert (Hnz : Decimal.nzhead (Pos.to_uint p) <> Decimal.Nil).
    { intros Hnil. apply DecimalFacts.unorm_0 in Hnil. congruence. }
    rewrite (DecimalFacts.unorm_nzhead _ Hnz) in Hd'.
    exact (DecimalFacts.nzhead_nonzero _ _ Hd'). }
  destruct (Pos.to_uint p) as [|d|d|d|d|d|d|d|d|d|d] eqn:Hd;
    [congruence|exfalso; exact (Hhead d eq_refl)|..];
    cbn [Pos.of_uint] in Hof; injection Hof as Hof;
    cbn [Decimal.nb_digits];
    match type of Hof with
    | Pos.of_uint_acc d ?k = p =>
        pose proof (of_uint_acc_lower d k) as Hlow; rewrite Hof in Hlow
    end;
    (destruct (Nat.le_gt_cases (Decimal.nb_digits d) 15) as [Hle|Hgt];
     [lia|]);
    exfalso;
    assert (Hpow : 10 ^ 16 <= 10 ^ Z.of_nat (Decimal.nb_digits d))
      by (apply Z.pow_le_mono_r; lia);
    assert (H53 : 2 ^ 53 < 10 ^ 16) by reflexivity;
    nia.
Qed.

Lemma Number_toString_length (t : Z) :
  Z.abs t <= 2 ^ 53 -> (String.length (Number_toString t) <= 17)%nat.
Proof.
  intros Ht. unfold Number_toString.
  destruct t as [|p|p]; [cbn; lia|..];
    cbn [Z.to_int NilZero.string_of_int NilZero.string_of_uint];
    pose proof (to_uint_digits p ltac:(lia)) as Hdigits;
    pose proof (DecimalPos.Unsigned.to_uint_nonnil p) as Hnonnil;
    destruct (Pos.to_uint p) eqn:Hd; try congruence;
    rewrite <- Hd in *; cbn [String.length]; rewrite ?string_of_uint_length;
    unfold NilZero.string_of_uint; rewrite Hd; rewrite <- Hd;
    rewrite ?string_of_uint_length; lia.
Qed.

(** X18.  The timestamp header survives the transport.  An instant that a
    Number holds exactly, one of at most 2^53 in absolute value as every
    reading of [Date.now()] is, is written by [toString] with at most 16
    digits, and a sign when it is negative; [parseInt] reads them back as
    the same instant, so the freshness gate compares the instant of the
    client with the clock of the server. *)
Theorem timestamp_header_round_trip (t now : Z) :
  Z.abs t <= 2 ^ 53 ->
  (String.length (Number_toString t) <= 17)%nat
  /\ parseInt (Number_toString t) = JInt t
  /\ verifyTimestamp now (parseInt (Number_toString t))
     = (Z.abs (now - t) <? 300000).
Proof.
  intros Hsafe. split; [now apply Number_toString_length|].
  unfold Number_toString.
  rewrite parseInt_string_of_int, DecimalZ.of_to. now split.
Qed.

Lemma timestamp_header_round_trip_witness :
  Z.abs 1700000000123 <= 2 ^ 53
  /\ Number_toString 1700000000123 = "1700000000123"
  /\ parseInt (Number_toString 1700000000123) = JInt 1700000000123.
Proof.
  assert (H : Z.abs 1700000000123 <= 2 ^ 53) by (cbn; lia).
  split; [exact H|]. split; [reflexivity|].
  apply (timestamp_header_round_trip 1700000000123 1700000000000 H).
Defined.

Lemma append_empty_r (s : string) : s +:+ "" = s.
Proof.
  induction s as [|c s IH]; [reflexivity|]. rewrite append_String.
  now f_equal.
Qed.

Lemma concat_empty_cons (x : string) (l : list string) :
  String.concat "" (x :: l) = x +:+ String.concat "" l.
Proof.
  destruct l as [|y l]; [cbn [String.concat]; now rewrite append_empty_r|].
  now rewrite concat_cons.
Qed.

(** The two digits that the client writes for a byte are those of
    [digest('hex')]. *)
Lemma padStart_toString16 (b : byte) :
  Client.padStart 2 "0" (Client.toString16 (Z_of_byte b))
  = String (hex_digit (Z_of_byte b / 16))
           (String (hex_digit (Z_of_byte b mod 16)) EmptyString).
Proof. destruct b; vm_compute; reflexivity. Qed.

Lemma client_hex (b : Buffer) :
  String.concat ""
    (map (fun x => Client.padStart 2 "0" (Client.toString16 (Z_of_byte x))) b)
  = hex_encode b.
Proof.
  induction b as [|x b IH]; [reflexivity|].
  cbn [map]. rewrite concat_empty_cons, IH, padStart_toString16.
  reflexivity.
Qed.

Lemma utf8_not_nil (s : string) : s <> EmptyString -> utf8 s <> [].
Proof.
  destruct s as [|c s]; [congruence|]. intros _. cbn [utf8].
  now destruct (Z_of_ascii c <? 128).
Qed.

Lemma generateHMAC_hex (zero_length_key payload secret : string) :
  secret <> EmptyString ->
  Client.generateHMAC zero_length_key payload secret
  = Return (hex_encode (hmac_sha256 secret payload)).
Proof.
  intros Hsecret. unfold Client.generateHMAC, Client.importKey.
  pose proof (utf8_not_nil secret Hsecret) as Hkey.
  destruct (utf8 secret) as [|k0 key] eqn:Hutf8; [congruence|].
  cbn [bind]. rewrite client_hex. unfold hmac_sha256. now rewrite Hutf8.
Qed.

(** X19.  The client signs as the server does: for a secret that is not
    empty, [generateHMAC] of the SDK, with the Web Crypto API and its own
    hex writing, returns the signature that [generateSignature] returns on
    the server, so [verifySignature] accepts it under that secret, given
    explicitly or as WEBHOOK_SECRET.  With an empty secret the client
    fails at [importKey]. *)
Theorem generateHMAC_matches_server (zero_length_key : string) (env : Env)
    (payload secret : string) :
  secret <> EmptyString ->
  Client.generateHMAC zero_length_key payload secret
  = generateSignature env payload (Some secret)
  /\ (exists signature,
        Client.generateHMAC zero_length_key payload secret = Return signature
        /\ verifySignature env payload signature (Some secret) = Return true
        /\ (WEBHOOK_SECRET env = Some secret ->
            verifySignature env payload signature None = Return true))
  /\ Client.generateHMAC zero_length_key payload EmptyString
     = Throw zero_length_key.
Proof.
  intros Hsecret.
  assert (Htruthy : truthy_string secret = true)
    by now apply truthy_string_spec.
  rewrite (generateHMAC_hex _ _ _ Hsecret).
  rewrite (generateSignature_key env payload (Some secret) secret)
    by now apply secret_or_env_key.
  split; [reflexivity|]. split; [|reflexivity].
  exists (hex_encode (hmac_sha256 secret payload)). split; [reflexivity|].
  split.
  - rewrite (verifySignature_key env payload _ (Some secret) secret)
      by now apply secret_or_env_key.
    now rewrite hex_decode_encode, buffer_eqb_refl.
  - intros Henv.
    rewrite (verifySignature_key env payload _ None secret).
    + now rewrite hex_decode_encode, buffer_eqb_refl.
    + unfold secret_or_env, getWebhookSecret. now rewrite Henv, Htruthy.
Qed.

Lemma generateHMAC_matches_server_witness :
  "key" <> EmptyString
  /\ Client.generateHMAC "DataError" "{}" "key"
     = generateSignature no_env "{}" (Some "key").
Proof.
  assert (H : "key" <> EmptyString) by discriminate.
  split; [exact H|].
  apply (generateHMAC_matches_server "DataError" no_env "{}" "key" H).
Defined.

Lemma property_assign (key : string) (v : JSON) (data : list (string * JSON)) :
  property key (Client.assign key v data) = Some v.
Proof.
  unfold Client.assign.
  destruct (existsb (fun kv => String.eqb kv.1 key) data) eqn:Hhas.
  - induction data as [|[k x] data IH]; [discriminate Hhas|].
    cbn [existsb fst] in Hhas. cbn [map fst property].
    destruct (String.eqb k key) eqn:Hk; cbn [property]; rewrite Hk;
      [reflexivity|].
    apply IH. exact Hhas.
  - induction data as [|[k x] data IH].
    + cbn. now rewrite String.eqb_refl.
    + cbn [existsb fst] in Hhas. apply orb_false_iff in Hhas as [Hk Hhas].
      cbn [app property]. rewrite Hk. now apply IH.
Qed.

Lemma Number_toString_truthy (n : Z) : truthy_string (Number_toString n) = true.
Proof.
  unfold Number_toString.
  destruct (Z.to_int n) as [d|d]; cbn [NilZero.string_of_int]; [|reflexivity].
  now destruct (string_of_uint_digits d) as (c & rest & -> & _).
Qed.

Lemma hex_encode_truthy (b : Buffer) :
  b <> [] -> truthy_string (hex_encode b) = true.
Proof. now destruct b. Qed.

(** What the server reads of the request of the client. *)
Lemma request_of_reads (ambient : gmap string string)
    (key signature timestamp body : string) :
  let req := Client.request_of ambient key signature timestamp body in
  headers_get req "x-api-key" = Some key
  /\ headers_get req "x-signature" = Some signature
  /\ headers_get req "x-timestamp" = Some timestamp
  /\ req_text req = body
  /\ forall header,
       ~ In header ["content-type"; "x-api-key"; "x-signature"; "x-timestamp"] ->
       headers_get req header = ambient !! header.
Proof.
  cbn zeta. unfold headers_get, Client.request_of. cbn [req_headers req_text].
  split; [|split; [|split; [|split; [reflexivity|]]]].
  - rewrite lookup_insert_ne by discriminate. apply lookup_insert_eq.
  - do 2 rewrite lookup_insert_ne by discriminate. apply lookup_insert_eq.
  - do 3 rewrite lookup_insert_ne by discriminate. apply lookup_insert_eq.
  - intros header Hnot. cbn [In] in Hnot.
    rewrite !lookup_insert_ne; [reflexivity|intros <-; tauto..].
Qed.

Lemma request_of_ambient (ambient : gmap string string)
    (key signature timestamp body : string) :
  let req := Client.request_of ambient key signature timestamp body in
  headers_get req "origin" = ambient !! "origin"
  /\ headers_get req "user-agent" = ambient !! "user-agent"
  /\ client_ip req
     = or_default (or_else (ambient !! "x-forwarded-for")
                           (ambient !! "x-real-ip")) "unknown".
Proof.
  cbn zeta.
  destruct (request_of_reads ambient key signature timestamp body)
    as (_ & _ & _ & _ & Hother).
  unfold client_ip. rewrite !Hother; [auto|cbn [In]; intros H..];
    repeat (destruct H as [H|H]; [discriminate H|]); contradiction.
Qed.

Section EndToEnd.

Variable zero_length_key : string.
Variable JSON_stringify : JSON -> string.
Variable JSON_parse : string -> option JSON.
Variable env : Env.
Variable supabase_insert : LeadDB -> StoreReply.
Variables (clock : Clock) (w : World).
Variable config : Client.LeadClientConfig.
Variable ambient : gmap string string.
Variable t : Z.
Variable leadData : list (string * JSON).

Let payload : JSON := JObject (Client.assign "timestamp" (JNumber t) leadData).
Let body : string := JSON_stringify payload.
Let signature : string :=
  hex_encode (hmac_sha256 (Client.webhookSecret config) body).
Let req : Request :=
  Client.request_of ambient (Client.apiKey config) signature
    (Number_toString t) body.

Hypothesis secret_set : Client.webhookSecret config <> EmptyString.
Hypothesis secret_shared : WEBHOOK_SECRET env = Some (Client.webhookSecret config).
Hypothesis key_valid : checkAPIKey env (Some (Client.apiKey config)) = true.
Hypothesis origin_allowed : checkCORS env (ambient !! "origin") = true.
Hypothesis within_limit :
  (checkRateLimit (now_rate clock) (client_ip req) 20 60000 (requestCounts w)).1
  = true.
Hypothesis clocks_agree : Z.abs (now_fresh clock - t) < 300000.
Hypothesis body_not_empty : truthy_string body = true.
Hypothesis body_decodes : JSON_parse body = Some payload.

Lemma sendLead_reaches_freshness :
  reaches_freshness env clock req w
    (checkRateLimit (now_rate clock) (client_ip req) 20 60000
       (requestCounts w)).2
    signature (Number_toString t).
Proof.
  unfold reaches_freshness.
  assert (Hrate : exists counts,
    checkRateLimit (now_rate clock) (client_ip req) 20 60000 (requestCounts w)
    = (true, counts)).
  { destruct (checkRateLimit _ _ _ _ _) as [allowed counts] eqn:Hrate.
    cbn [fst] in within_limit. subst allowed. eauto. }
  destruct Hrate as [counts Hrate]. rewrite Hrate. cbn [snd].
  subst req.
  destruct (request_of_reads ambient (Client.apiKey config) signature
              (Number_toString t) body) as (-> & -> & -> & -> & _).
  destruct (request_of_ambient ambient (Client.apiKey config) signature
              (Number_toString t) body) as (-> & _).
  split; [exact origin_allowed|]. split; [exact key_valid|].
  split; [reflexivity|]. split; [exact body_not_empty|].
  split; [reflexivity|].
  split.
  { apply hex_encode_truthy. intros Hnil.
    apply (f_equal (@length byte)) in Hnil.
    rewrite hmac_sha256_length in Hnil. discriminate Hnil. }
  split; [reflexivity|apply Number_toString_truthy].
Qed.

Lemma sendLead_fresh :
  verifyTimestamp (now_fresh clock) (parseInt (Number_toString t)) = true.
Proof.
  unfold Number_toString. rewrite parseInt_string_of_int, DecimalZ.of_to.
  unfold verifyTimestamp, fiveMinutes. now apply Z.ltb_lt.
Qed.

Lemma sendLead_verified :
  verifySignature env (req_text req) signature None = Return true.
Proof.
  subst req. cbn [Client.request_of req_text].
  rewrite (verifySignature_key env body signature None
             (Client.webhookSecret config)).
  - subst signature. now rewrite hex_decode_encode, buffer_eqb_refl.
  - unfold secret_or_env, getWebhookSecret. rewrite secret_shared.
    now rewrite (proj2 (truthy_string_spec _) secret_set).
Qed.

Lemma sendLead_request :
  Client.sendLead zero_length_key JSON_stringify
    (served env JSON_parse supabase_insert clock w) config ambient t leadData
  = Client.read_response (POST env JSON_parse supabase_insert clock req w).1.
Proof.
  unfold Client.sendLead. fold payload. fold body.
  rewrite (generateHMAC_hex _ _ _ secret_set). reflexivity.
Qed.

End EndToEnd.

(** X20.  The client and the server agree on the protocol.  When the
    client holds the secret of the server and a valid key, the origin of its
    page is allowed, the rate limiter lets its address pass and the two
    clocks differ by less than five minutes, and the body that
    [JSON.stringify] writes decodes to the payload, the request of
    [sendLead] passes every gate up to the schema: the server answers by the
    verdict of [LeadSchema] on the payload with the timestamp of the client.
    A refused payload comes back to the caller of [sendLead] with the
    issues; a validated one is handed to the store, with the instant of the
    client as its form timestamp, and when the store answers with a row
    [sendLead] returns success with the id of the row. *)
Theorem sendLead_end_to_end (zero_length_key : string)
    (JSON_stringify : JSON -> string) (JSON_parse : string -> option JSON)
    (env : Env) (supabase_insert : LeadDB -> StoreReply) (clock : Clock)
    (w : World) (config : Client.LeadClientConfig)
    (ambient : gmap string string) (t : Z) (leadData : list (string * JSON)) :
  let payload := JObject (Client.assign "timestamp" (JNumber t) leadData) in
  let body := JSON_stringify payload in
  let signature := hex_encode (hmac_sha256 (Client.webhookSecret config) body) in
  let req := Client.request_of ambient (Client.apiKey config) signature
               (Number_toString t) body in
  let post := POST env JSON_parse supabase_insert clock req w in
  let result := Client.sendLead zero_length_key JSON_stringify
                  (served env JSON_parse supabase_insert clock w)
                  config ambient t leadData in
  Client.webhookSecret config <> EmptyString ->
  WEBHOOK_SECRET env = Some (Client.webhookSecret config) ->
  checkAPIKey env (Some (Client.apiKey config)) = true ->
  checkCORS env (ambient !! "origin") = true ->
  (checkRateLimit (now_rate clock) (client_ip req) 20 60000 (requestCounts w)).1
  = true ->
  Z.abs (now_fresh clock - t) < 300000 ->
  Z.abs t < 10 ^ 21 ->
  truthy_string body = true ->
  JSON_parse body = Some payload ->
  (forall errors,
     LeadSchema_safeParse payload = failure errors ->
     post.1 = rejection req 400 (ValidationErrors "Validation failed" errors)
     /\ result = {| Client.success := false;
                    Client.leadId := None;
                    Client.message := Some (Client.Issues errors);
                    Client.error := Some "Validation failed" |})
  /\ (forall lead,
        LeadSchema_safeParse payload = success lead ->
        let record := record_of clock req (Number_toString t) lead in
        store_calls post.2 = store_calls w ++ [record]
        /\ form_timestamp (db_metadata record) = JInt t
        /\ forall id,
             supabase_insert record = Inserted id ->
             result = {| Client.success := true;
                         Client.leadId := Some id;
                         Client.message :=
                           Some (Client.Text "Lead received successfully");
                         Client.error := None |}).
Proof.
  intros payload body signature req post result Hsecret Hshared Hkey Horigin
    Hlimit Hclocks _ Hbody Hdecodes.
  pose proof (sendLead_reaches_freshness JSON_stringify env clock w config
                ambient t leadData Hkey Horigin Hlimit Hbody) as Hgates.
  pose proof (sendLead_fresh clock t Hclocks) as Hfresh.
  pose proof (sendLead_verified JSON_stringify env config ambient t leadData
                Hsecret Hshared) as Hverify.
  pose proof (POST_verified env JSON_parse supabase_insert clock _ w _ _ _
                Hgates Hfresh Hverify) as Hpost.
  pose proof (sendLead_request zero_length_key JSON_stringify JSON_parse env
                supabase_insert clock w config ambient t leadData Hsecret)
    as Hresult.
  fold payload body signature req in Hgates, Hverify, Hpost, Hresult.
  fold post in Hpost, Hresult. fold result in Hresult.
  assert (Htext : req_text req = body) by reflexivity.
  rewrite Htext, Hdecodes in Hpost. split.
  - intros errors Hschema. rewrite Hschema in Hpost.
    rewrite Hresult, Hpost. cbn. now split.
  - intros lead Hschema record. rewrite Hschema in Hpost. cbn zeta in Hpost.
    fold (record_of clock req (Number_toString t) lead) in Hpost.
    fold record in Hpost. split; [|split].
    + destruct (supabase_insert record); now rewrite Hpost.
    + subst record. unfold record_of, make_leadDB.
      cbn [db_metadata form_timestamp].
      rewrite (LeadSchema_success_lead _ lead Hschema).
      cbn [timestamp lead_of_fields]. unfold payload_number.
      rewrite property_assign.
      destruct (truthy_num (JInt t)); [reflexivity|].
      unfold Number_toString. now rewrite parseInt_string_of_int, DecimalZ.of_to.
    + intros id Hstore. rewrite Hstore in Hpost. rewrite Hresult, Hpost.
      reflexivity.
Qed.

Lemma sendLead_end_to_end_witness :
  Client.sendLead "DataError" sent_stringify
    (served sample_env sent_parse sample_store sample_clock empty_world)
    sample_config sample_ambient 1700000000123 sample_lead
  = {| Client.success := true;
       Client.leadId := Some "lead-1";
       Client.message := Some (Client.Text "Lead received successfully");
       Client.error := None |}.
Proof.
  assert (Hbounds : Z.abs (now_fresh sample_clock - 1700000000123) < 300000
                    /\ Z.abs 1700000000123 < 10 ^ 21) by (cbn; lia).
  destruct Hbounds as [Hclocks Hrange].
  destruct (sendLead_end_to_end "DataError" sent_stringify sent_parse
              sample_env sample_store sample_clock empty_world sample_config
              sample_ambient 1700000000123 sample_lead
              ltac:(discriminate) eq_refl eq_refl eq_refl
              ltac:(vm_compute; reflexivity) Hclocks Hrange eq_refl
              ltac:(vm_compute; reflexivity))
    as [_ Hvalid].
  destruct (Hvalid (lead_of_fields
                      (Client.assign "timestamp" (JNumber 1700000000123)
                         sample_lead)))
    as (_ & _ & Hresult); [vm_compute; reflexivity|].
  apply Hresult. reflexivity.
Defined.

Lemma read_response_rejection (req : Request) (st : Z) (body : ResponseBody) :
  Client.read_response (rejection req st body)
  = if (200 <=? st) && (st <=? 299)
    then {| Client.success := true;
            Client.leadId := Client.data_leadId body;
            Client.message :=
              Some (Client.Text (or_default (Client.data_message body)
                                   "Lead enviado correctamente"));
            Client.error := None |}
    else {| Client.success := false;
            Client.leadId := None;
            Client.error :=
              Some (or_default (Client.data_error body)
                      ("HTTP " +:+ Number_toString st));
            Client.message :=
              if Client.truthy_details (Client.data_details body)
              then Client.data_details body
              else option_map Client.Text (Client.data_message body) |}.
Proof.
  unfold Client.read_response, Client.ok. cbn [status json rejection].
  now destruct ((200 <=? st) && (st <=? 299)).
Qed.

Ltac literal_status :=
  match goal with
  | |- context [(200 <=? ?st) && (?st <=? 299)] =>
      let b := eval vm_compute in ((200 <=? st) && (st <=? 299)) in
      change ((200 <=? st) && (st <=? 299)) with b; cbv iota
  end.

(** X21.  [sendLead] tells its caller what the server did.  With a secret
    that is not empty, it returns success exactly when the server answered
    201, that is when the lead was handed to the store and the store
    answered with a row, and then it carries the id of that row; otherwise
    it returns the error text of the server.  With an empty secret nothing
    is sent: whatever [fetch] would do, [sendLead] returns a failure with
    the message of the refused key. *)
Theorem sendLead_reports_the_server (zero_length_key : string)
    (JSON_stringify : JSON -> string) (JSON_parse : string -> option JSON)
    (env : Env) (supabase_insert : LeadDB -> StoreReply) (clock : Clock)
    (w : World) (config : Client.LeadClientConfig)
    (ambient : gmap string string) (t : Z) (leadData : list (string * JSON)) :
  let payload := JObject (Client.assign "timestamp" (JNumber t) leadData) in
  let body := JSON_stringify payload in
  let signature := hex_encode (hmac_sha256 (Client.webhookSecret config) body) in
  let req := Client.request_of ambient (Client.apiKey config) signature
               (Number_toString t) body in
  let post := POST env JSON_parse supabase_insert clock req w in
  let result := Client.sendLead zero_length_key JSON_stringify
                  (served env JSON_parse supabase_insert clock w)
                  config ambient t leadData in
  Client.webhookSecret config <> EmptyString ->
  (Client.success result = true <-> status post.1 = 201)
  /\ (Client.success result = true ->
      exists id record,
        Client.leadId result = Some id
        /\ store_calls post.2 = store_calls w ++ [record]
        /\ supabase_insert record = Inserted id)
  /\ (Client.success result = false ->
      exists e,
        e <> EmptyString
        /\ Client.data_error (json post.1) = Some e
        /\ Client.error result = Some e
        /\ Client.leadId result = None)
  /\ (forall fetch config',
        Client.webhookSecret config' = EmptyString ->
        Client.sendLead zero_length_key JSON_stringify fetch config' ambient t
          leadData
        = {| Client.success := false;
             Client.leadId := None;
             Client.message := None;
             Client.error :=
               Some (or_default (Some zero_length_key)
                       ("Error de conexi" +:+ o_acute +:+ "n")) |}).
Proof.
  intros payload body signed req post result Hsecret.
  pose proof (sendLead_request zero_length_key JSON_stringify JSON_parse env
                supabase_insert clock w config ambient t leadData Hsecret)
    as Hresult.
  fold payload body signed req in Hresult. fold post in Hresult.
  fold result in Hresult.
  assert (Hempty : forall fetch config',
    Client.webhookSecret config' = EmptyString ->
    Client.sendLead zero_length_key JSON_stringify fetch config' ambient t
      leadData
    = {| Client.success := false;
         Client.leadId := None;
         Client.message := None;
         Client.error :=
           Some (or_default (Some zero_length_key)
                   ("Error de conexi" +:+ o_acute +:+ "n")) |}).
  { intros fetch config' Hnone. unfold Client.sendLead, Client.generateHMAC.
    now rewrite Hnone. }
  rewrite Hresult. clear Hresult. subst post.
  split; [|split; [|split; [|exact Hempty]]].
  - post_cases env JSON_parse supabase_insert clock req w; rewrite Hpost;
      cbn [fst]; rewrite read_response_rejection; literal_status;
      cbn [status rejection Client.success]; split; discriminate || reflexivity.
  - post_cases env JSON_parse supabase_insert clock req w; rewrite Hpost;
      cbn [fst snd]; rewrite read_response_rejection; literal_status;
      cbn [Client.success Client.leadId Client.data_leadId store_calls];
      try discriminate.
    intros _. exists id. eexists. split; [reflexivity|]. split; [reflexivity|].
    exact Hstore.
  - post_cases env JSON_parse supabase_insert clock req w; rewrite Hpost;
      cbn [fst]; rewrite read_response_rejection; literal_status;
      cbn [json rejection Client.success Client.leadId Client.error
           Client.data_error or_default truthy_string];
      try discriminate;
      intros _; eexists; (split; [|split; [reflexivity|split; reflexivity]]);
      discriminate.
Qed.

Lemma sendLead_reports_the_server_witness :
  Client.success
    (Client.sendLead "DataError" sent_stringify
       (served sample_env sent_parse sample_store sample_clock empty_world)
       sample_config sample_ambient 1700000000123 sample_lead)
  = true
  <-> status
        (POST sample_env sent_parse sample_store sample_clock
           (Client.request_of sample_ambient (Client.apiKey sample_config)
              (hex_encode
                 (hmac_sha256 (Client.webhookSecret sample_config)
                    (sent_stringify
                       (JObject (Client.assign "timestamp"
                                   (JNumber 1700000000123) sample_lead)))))
              (Number_toString 1700000000123)
              (sent_stringify
                 (JObject (Client.assign "timestamp" (JNumber 1700000000123)
                             sample_lead))))
           empty_world).1
      = 201.
Proof.
  apply (sendLead_reports_the_server "DataError" sent_stringify sent_parse
           sample_env sample_store sample_clock empty_world sample_config
           sample_ambient 1700000000123 sample_lead).
  discriminate.
Defined.

(** ** The client of the store *)

Section SupabaseFacts.

Variable createClient : string -> string -> completion SupabaseClient.

Lemma getSupabaseClient_cached (penv : ProcessEnv) (st : SupabaseModule)
    (c : SupabaseClient) :
  supabaseInstance st = Some c ->
  getSupabaseClient createClient penv st = (Return c, st).
Proof. intros H. unfold getSupabaseClient. now rewrite H. Qed.

Lemma getSupabaseClient_returns (penv : ProcessEnv) (st : SupabaseModule)
    (c : SupabaseClient) :
  (getSupabaseClient createClient penv st).1 = Return c ->
  supabaseInstance (getSupabaseClient createClient penv st).2 = Some c.
Proof.
  unfold getSupabaseClient.
  destruct (supabaseInstance st) as [instance|] eqn:Hinstance.
  - cbn. now intros [= <-].
  - destruct (NEXT_PUBLIC_SUPABASE_URL penv) as [url|]; [|discriminate].
    destruct (SUPABASE_SERVICE_ROLE_KEY penv) as [key|]; [|discriminate].
    destruct (negb (truthy_string url) || negb (truthy_string key));
      [discriminate|].
    destruct (createClient url key); [|discriminate].
    cbn. now intros [= <-].
Qed.

Lemma getSupabaseClient_throws (penv : ProcessEnv) (st : SupabaseModule)
    (e : string) :
  (getSupabaseClient createClient penv st).1 = Throw e ->
  supabaseInstance st = None
  /\ supabaseInstance (getSupabaseClient createClient penv st).2 = None.
Proof.
  unfold getSupabaseClient.
  destruct (supabaseInstance st) as [instance|] eqn:Hinstance; [discriminate|].
  destruct (NEXT_PUBLIC_SUPABASE_URL penv) as [url|]; [|now split].
  destruct (SUPABASE_SERVICE_ROLE_KEY penv) as [key|]; [|now split].
  destruct (negb (truthy_string url) || negb (truthy_string key));
    [now split|].
  destruct (createClient url key); [discriminate|]. now split.
Qed.

Lemma getSupabaseClient_missing (penv : ProcessEnv) (st : SupabaseModule) :
  supabaseInstance st = None ->
  truthy (NEXT_PUBLIC_SUPABASE_URL penv)
  && truthy (SUPABASE_SERVICE_ROLE_KEY penv) = false ->
  getSupabaseClient createClient penv st
  = (Throw "Missing Supabase environment variables", st).
Proof.
  intros Hnone Hmissing. unfold getSupabaseClient. rewrite Hnone.
  destruct (NEXT_PUBLIC_SUPABASE_URL penv) as [url|]; [|reflexivity].
  destruct (SUPABASE_SERVICE_ROLE_KEY penv) as [key|]; [|reflexivity].
  cbn [truthy] in Hmissing.
  destruct (truthy_string url), (truthy_string key); try reflexivity.
  discriminate Hmissing.
Qed.

Lemma run_getSupabaseClient_cons (penv : ProcessEnv) (penvs : list ProcessEnv)
    (st : SupabaseModule) :
  run_getSupabaseClient createClient (penv :: penvs) st
  = let r1 := getSupabaseClient createClient penv st in
    let r2 := run_getSupabaseClient createClient penvs r1.2 in
    (r1.1 :: r2.1, r2.2).
Proof.
  cbn [run_getSupabaseClient].
  destruct (getSupabaseClient createClient penv st) as [r st1]. cbn.
  now destruct (run_getSupabaseClient createClient penvs st1).
Qed.

End SupabaseFacts.

(** X22.  The client of the store is created once.  When a call of
    [getSupabaseClient] has returned a client, every later call returns that
    client and leaves the module as it is: [createClient] is not called
    again, whatever the environment holds by then.  A call that throws
    leaves the instance unset, so that a later call tries again. *)
Theorem getSupabaseClient_singleton
    (createClient : string -> string -> completion SupabaseClient)
    (penv : ProcessEnv) (st : SupabaseModule) :
  (forall c,
     (getSupabaseClient createClient penv st).1 = Return c ->
     forall penvs,
       run_getSupabaseClient createClient penvs
         (getSupabaseClient createClient penv st).2
       = (map (fun _ => Return c) penvs,
          (getSupabaseClient createClient penv st).2))
  /\ (forall e,
        (getSupabaseClient createClient penv st).1 = Throw e ->
        supabaseInstance st = None
        /\ supabaseInstance (getSupabaseClient createClient penv st).2 = None).
Proof.
  split; [|apply getSupabaseClient_throws].
  intros c Hc penvs. apply getSupabaseClient_returns in Hc.
  induction penvs as [|penv' penvs IH]; [reflexivity|].
  rewrite run_getSupabaseClient_cons.
  rewrite (getSupabaseClient_cached createClient penv' _ c Hc).
  cbn zeta. cbn [fst snd map]. now rewrite IH.
Qed.

(** A run: the client is created under the complete environment and is
    still returned when the variables are gone. *)
Example getSupabaseClient_created_once :
  run_getSupabaseClient sample_createClient
    [process_env_without_store; sample_process_env; process_env_without_store]
    fresh_module
  = ([Throw "Missing Supabase environment variables";
      Return {| client_url := "https://db.example.com";
                client_key := "service-key" |};
      Return {| client_url := "https://db.example.com";
                client_key := "service-key" |}],
     {| supabaseInstance :=
          Some {| client_url := "https://db.example.com";
                  client_key := "service-key" |};
        createClient_calls := [("https://db.example.com", "service-key")] |}).
Proof. reflexivity. Qed.

(** [POST] reads the store through its replies alone. *)
Lemma POST_store_ext (env : Env) (JSON_parse : string -> option JSON)
    (insert1 insert2 : LeadDB -> StoreReply) (clock : Clock) (req : Request)
    (w : World) :
  (forall record, insert1 record = insert2 record) ->
  POST env JSON_parse insert1 clock req w
  = POST env JSON_parse insert2 clock req w.
Proof.
  intros Hsame. unfold POST, POST_try.
  destruct (negb (checkCORS env (headers_get req "origin"))); [reflexivity|].
  destruct (negb (checkAPIKey env (headers_get req "x-api-key")));
    [reflexivity|].
  destruct (checkRateLimit _ _ _ _ _) as [allowed counts].
  destruct (negb allowed); [reflexivity|].
  destruct (negb (truthy_string (req_text req))); [reflexivity|].
  destruct (headers_get req "x-signature") as [signature|]; [|reflexivity].
  destruct (headers_get req "x-timestamp") as [stamp|]; [|reflexivity].
  destruct (negb (truthy_string signature) || negb (truthy_string stamp));
    [reflexivity|].
  destruct (negb (verifyTimestamp (now_fresh clock) (parseInt stamp)));
    [reflexivity|].
  destruct (verifySignature env (req_text req) signature None) as [[|]|e];
    try reflexivity.
  destruct (JSON_parse (req_text req)) as [data|]; [|reflexivity].
  destruct (LeadSchema_safeParse data) as [lead|errors]; [|reflexivity].
  cbn zeta. now rewrite Hsame.
Qed.

(** X23.  Without the variables of the store the webhook never reaches the
    store.  When no client has been created and NEXT_PUBLIC_SUPABASE_URL or
    SUPABASE_SERVICE_ROLE_KEY is unset or empty, [getSupabaseClient] throws
    and creates no client, so [insert] of the client is never called: what
    [POST] answers and leaves is the same whatever [insert] would do.
    [POST] never answers 201, and a lead that has passed every gate, with
    its timestamp fresh, its signature verified and its payload validated,
    is answered 500 "Internal server error" with the message of the missing
    variables. *)
Theorem POST_without_store_variables
    (createClient : string -> string -> completion SupabaseClient)
    (insert : SupabaseClient -> LeadDB -> StoreReply) (penv : ProcessEnv)
    (st : SupabaseModule) (JSON_parse : string -> option JSON) (clock : Clock)
    (req : Request) (w : World) :
  supabaseInstance st = None ->
  truthy (NEXT_PUBLIC_SUPABASE_URL penv)
  && truthy (SUPABASE_SERVICE_ROLE_KEY penv) = false ->
  let post := POST (webhook_env penv) JSON_parse
                (proxied_insert createClient penv st insert) clock req w in
  getSupabaseClient createClient penv st
  = (Throw "Missing Supabase environment variables", st)
  /\ (forall insert',
        POST (webhook_env penv) JSON_parse
          (proxied_insert createClient penv st insert') clock req w
        = post)
  /\ status post.1 <> 201
  /\ (forall counts signature stamp data lead,
        reaches_freshness (webhook_env penv) clock req w counts signature
          stamp ->
        verifyTimestamp (now_fresh clock) (parseInt stamp) = true ->
        verifySignature (webhook_env penv) (req_text req) signature None
        = Return true ->
        JSON_parse (req_text req) = Some data ->
        LeadSchema_safeParse data = success lead ->
        post.1 = rejection req 500
                   (ErrorDetails "Internal server error"
                      "Missing Supabase environment variables")).
Proof.
  intros Hnone Hmissing post. subst post.
  pose proof (getSupabaseClient_missing createClient penv st Hnone Hmissing)
    as Hthrows.
  assert (Hinsert : forall insert' record,
    proxied_insert createClient penv st insert' record
    = StoreThrows "Missing Supabase environment variables").
  { intros insert' record. unfold proxied_insert. now rewrite Hthrows. }
  split; [exact Hthrows|]. split; [|split].
  - intros insert'. apply POST_store_ext. intros record.
    now rewrite !Hinsert.
  - post_cases (webhook_env penv) JSON_parse
      (proxied_insert createClient penv st insert) clock req w;
      rewrite Hpost; cbn [fst status rejection];
      try rewrite Hinsert in Hstore; try discriminate Hstore; discriminate.
  - intros counts signature stamp data lead Hgates Hfresh Hverify Hdata Hlead.
    rewrite (POST_verified _ JSON_parse _ clock req w counts signature stamp
               Hgates Hfresh Hverify).
    rewrite Hdata, Hlead. cbn zeta. now rewrite Hinsert.
Qed.

Lemma POST_without_store_variables_witness :
  status
    (POST (webhook_env process_env_without_store) sample_parse
       (proxied_insert sample_createClient process_env_without_store
          fresh_module (fun _ _ => Inserted "lead-1"))
       sample_clock
       (sample_request sample_signature "1700000000123" sample_body)
       empty_world).1
  <> 201.
Proof.
  apply (POST_without_store_variables sample_createClient
           (fun _ _ => Inserted "lead-1") process_env_without_store
           fresh_module sample_parse sample_clock
           (sample_request sample_signature "1700000000123" sample_body)
           empty_world eq_refl eq_refl).
Defined.

(** The sample request on the deployment without the variables of the
    store: the lead passes every gate and is answered 500. *)
Example POST_without_store_sample :
  (POST (webhook_env process_env_without_store) sample_parse
     (proxied_insert sample_createClient process_env_without_store
        fresh_module (fun _ _ => Inserted "lead-1"))
     sample_clock
     (sample_request sample_signature "1700000000123" sample_body)
     empty_world).1
  = rejection (sample_request sample_signature "1700000000123" sample_body)
      500 (ErrorDetails "Internal server error"
             "Missing Supabase environment variables").
Proof. vm_compute. reflexivity. Qed.

(** ** The health check *)

Lemma missing_none (penv : ProcessEnv) :
  List.filter (fun v => negb (truthy (Health.env_var penv v)))
    Health.requiredEnvVars = []
  <-> env_complete penv = true.
Proof.
  unfold Health.requiredEnvVars, env_complete. cbn [List.filter].
  change (Health.env_var penv "NEXT_PUBLIC_SUPABASE_URL")
    with (NEXT_PUBLIC_SUPABASE_URL penv).
  change (Health.env_var penv "SUPABASE_SERVICE_ROLE_KEY")
    with (SUPABASE_SERVICE_ROLE_KEY penv).
  change (Health.env_var penv "WEBHOOK_SECRET")
    with (WEBHOOK_SECRET (webhook_env penv)).
  change (Health.env_var penv "ALLOWED_ORIGINS")
    with (ALLOWED_ORIGINS_var (webhook_env penv)).
  change (Health.env_var penv "API_KEYS")
    with (API_KEYS_var (webhook_env penv)).
  destruct (truthy (NEXT_PUBLIC_SUPABASE_URL penv)),
    (truthy (SUPABASE_SERVICE_ROLE_KEY penv)),
    (truthy (WEBHOOK_SECRET (webhook_env penv))),
    (truthy (ALLOWED_ORIGINS_var (webhook_env penv))),
    (truthy (API_KEYS_var (webhook_env penv)));
    cbn; split; congruence.
Qed.

(** X24.  The status code of the health check is 200, 207 or 503.  It is
    200 exactly when the five required variables are set and the query of
    the connection check returned without an error; 207 exactly when the
    variables are set and that query returned an error object; 503
    otherwise, that is when a variable is missing or empty, or getting the
    client or running the query threw.  The third check, of the recent
    leads, never changes the code: it reports healthy or warning only. *)
Theorem health_status_code
    (createClient : string -> string -> completion SupabaseClient)
    (select_one : SupabaseClient -> Health.QueryReply)
    (select_recent : SupabaseClient -> string -> Health.QueryReply)
    (toISOString : Z -> string) (penv : ProcessEnv) (clock : Health.Clock)
    (st : SupabaseModule) :
  let response :=
    (Health.GET createClient select_one select_recent toISOString penv clock
       st).1 in
  let connection :=
    match (getSupabaseClient createClient penv st).1 with
    | Return client => select_one client
    | Throw e => Health.QueryThrows (Some e)
    end in
  (response.1 = 200 \/ response.1 = 207 \/ response.1 = 503)
  /\ (response.1 = 200 <->
      env_complete penv = true /\ exists n, connection = Health.Rows n)
  /\ (response.1 = 207 <->
      env_complete penv = true
      /\ exists msg, connection = Health.QueryError msg)
  /\ (forall select_recent' toISOString',
        (Health.GET createClient select_one select_recent' toISOString' penv
           clock st).1.1 = response.1)
  /\ (Health.check_status (Health.recent_activity response.2) = "healthy"
      \/ Health.check_status (Health.recent_activity response.2) = "warning")
  /\ (Health.status response.2 = "healthy" <-> response.1 = 200).
Proof.
  cbn zeta. unfold Health.GET.
  destruct (getSupabaseClient createClient penv st) as [client1 st1].
  cbn [fst snd].
  pose proof (missing_none penv) as Hmissing.
  destruct (List.filter (fun v => negb (truthy (Health.env_var penv v)))
              Health.requiredEnvVars) as [|v missing] eqn:Hfilter.
  - assert (Hcomplete : env_complete penv = true) by now apply Hmissing.
    rewrite Hcomplete. cbn [length Nat.ltb Nat.leb].
    destruct client1 as [client|e]; [destruct (select_one client)|];
      destruct (getSupabaseClient createClient penv st1) as [[client3|e3] st3];
      cbn [fst snd Health.status Health.recent_activity Health.check_status
           String.eqb Ascii.eqb Bool.eqb];
      repeat split; intros; try discriminate; eauto;
      try (destruct (getSupabaseClient createClient penv st1) as [[c'|e'] st'];
           reflexivity);
      try (destruct (select_recent _ _); eauto);
      try match goal with
          | H : _ /\ exists _, _ = _ |- _ =>
              destruct H as (_ & ? & H); discriminate H
          end.
  - assert (Hcomplete : env_complete penv = false).
    { destruct (env_complete penv); [|reflexivity].
      now destruct Hmissing as [_ Hnil]; specialize (Hnil eq_refl). }
    rewrite Hcomplete. cbn [length Nat.ltb Nat.leb].
    destruct client1 as [client|e]; [destruct (select_one client)|];
      destruct (getSupabaseClient createClient penv st1) as [[client3|e3] st3];
      cbn [fst snd Health.status Health.recent_activity Health.check_status
           String.eqb Ascii.eqb Bool.eqb];
      repeat split; intros; try discriminate; eauto;
      try (destruct (getSupabaseClient createClient penv st1) as [[c'|e'] st'];
           reflexivity);
      try (destruct (select_recent _ _); eauto);
      try match goal with
          | H : _ /\ exists _, _ = _ |- _ =>
              destruct H as (H & _); discriminate H
          end.
Qed.

(** ** What the signature covers *)

(** X25.  The signature covers the body and nothing else, and the
    freshness gate reads the X-Timestamp header and nothing else.  So when
    a request has passed the signature gate once, the same body and
    signature pass it again at any later time under any X-Timestamp that is
    fresh then: if the rate limiter lets the request pass, [POST] goes on
    to decode, validate and store the body as for a new request. *)
Theorem fresh_header_renews_request (env : Env)
    (JSON_parse : string -> option JSON)
    (supabase_insert : LeadDB -> StoreReply) (clock clock' : Clock)
    (req : Request) (w w' : World) (counts counts' : gmap string RateRecord)
    (signature stamp stamp' : string) :
  reaches_freshness env clock req w counts signature stamp ->
  verifySignature env (req_text req) signature None = Return true ->
  checkRateLimit (now_rate clock') (client_ip req) 20 60000 (requestCounts w')
  = (true, counts') ->
  verifyTimestamp (now_fresh clock') (parseInt stamp') = true ->
  let req' := with_header req "x-timestamp" stamp' in
  reaches_freshness env clock' req' w' counts' signature stamp'
  /\ verifySignature env (req_text req') signature None = Return true
  /\ forall data lead,
       JSON_parse (req_text req) = Some data ->
       LeadSchema_safeParse data = success lead ->
       store_calls (POST env JSON_parse supabase_insert clock' req' w').2
       = store_calls w' ++ [record_of clock' req' stamp' lead].
Proof.
  intros Hgates Hverify Hrate Hfresh req'.
  destruct Hgates as (Hcors & Hkey & _ & Hbody & Hsig & Hsig' & _ & _).
  destruct (with_header_reads req "x-timestamp" stamp')
    as (Hstamp & Htext & Hother).
  assert (Hstamp' : truthy_string stamp' = true).
  { destruct stamp'; [discriminate Hfresh|reflexivity]. }
  assert (Hgates' : reaches_freshness env clock' req' w' counts' signature stamp').
  { unfold reaches_freshness. subst req'. unfold client_ip.
    rewrite !Hother by discriminate. rewrite Htext, Hstamp.
    fold (client_ip req). auto 10. }
  split; [exact Hgates'|]. subst req'. rewrite Htext.
  split; [exact Hverify|].
  intros data lead Hdata Hlead.
  rewrite <- Htext in Hverify.
  rewrite (POST_verified env JSON_parse supabase_insert clock' _ w' counts'
             signature stamp' Hgates' Hfresh Hverify).
  rewrite Htext, Hdata, Hlead. cbn zeta.
  now destruct (supabase_insert _).
Qed.

Lemma fresh_header_renews_request_witness :
  store_calls
    (POST sample_env sample_parse sample_store next_day_clock
       (with_header
          (sample_request sample_signature "1700000000123" sample_body)
          "x-timestamp" "1700086400000")
       empty_world).2
  = store_calls empty_world
    ++ [record_of next_day_clock
          (with_header
             (sample_request sample_signature "1700000000123" sample_body)
             "x-timestamp" "1700086400000")
          "1700086400000" (lead_of_fields sample_fields)].
Proof.
  destruct (fresh_header_renews_request sample_env sample_parse sample_store
              sample_clock next_day_clock
              (sample_request sample_signature "1700000000123" sample_body)
              empty_world empty_world first_counts
              (<["unknown" := {| count := 1; resetAt := 1700086460000 |}]> ∅)
              sample_signature "1700000000123" "1700086400000"
              sample_request_reaches_freshness
              ltac:(vm_compute; reflexivity) ltac:(vm_compute; reflexivity)
              eq_refl)
    as (_ & _ & Hstored).
  apply (Hstored (JObject sample_fields)); vm_compute; reflexivity.
Defined.
